(** * jsonlog: an asynchronous, rotating JSON log writer

    A shallow embedding of [jsonlog.go] and the properties of its
    rotation-and-delivery core: destination naming, the rotation timer,
    the worker's event loop, the buffered (and optionally compressing)
    writer stack, and the shutdown protocol.

    Go's runtime and standard library are not part of the repository; the
    pieces the logger leans on (channels, [bufio.Writer], [gzip.Writer],
    [os] file calls, [time] formatting) are modelled after their documented
    behaviour, each in a module of its own.  The JSON serializer and the
    DEFLATE compressor are interfaces (type classes): every theorem holds for
    any implementation of them. *)

From Stdlib Require Import ZArith Ascii String List Lia Bool.
From stdpp Require Import base tactics option list strings gmap.

Open Scope Z_scope.

(** Bytes written to files.  Characters and bytes are the same thing here. *)
Abbreviation bytes := (list ascii).

(* ===================================================================== *)
(** * Errors *)
(* ===================================================================== *)

(** Go's [error] values that occur in the program. *)
Inductive error : Type :=
  | ENOENT                      (* no such file or directory *)
  | EEXIST                      (* file exists *)
  | EISDIR                      (* is a directory *)
  | EIO                         (* input/output error *)
  | ErrClosed                   (* os.ErrClosed: file already closed *)
  | ErrMarshal (msg : string).  (* json: unsupported type / value *)

Definition Error (e : error) : string :=
  match e with
  | ENOENT => "no such file or directory"
  | EEXIST => "file exists"
  | EISDIR => "is a directory"
  | EIO => "input/output error"
  | ErrClosed => "file already closed"
  | ErrMarshal msg => msg
  end.

(** [os.IsNotExist] *)
Definition IsNotExist (e : error) : bool :=
  match e with ENOENT => true | _ => false end.

(* ===================================================================== *)
(** * Wall-clock time *)
(* ===================================================================== *)

Module time.

(** [time.Duration]: nanoseconds. *)
Definition Nanosecond : Z := 1.
Definition Second : Z := 1000000000.
Definition Minute : Z := 60 * Second.
Definition Hour : Z := 60 * Minute.

(** A time zone ([*time.Location]): the offset from UTC, in seconds,
    that is in force before the first transition, and the transitions in
    ascending order, each with the Unix second at which it happens and
    the offset in force from then on. *)
Record Location : Type := mkLocation {
  offset0 : Z;
  tx : list (Z * Z)
}.

(** [time.UTC] *)
Definition UTC : Location := mkLocation 0 [].

(** The ends of time of [Location.lookup]: [alpha] and [omega]. *)
Definition alpha : Z := - 2 ^ 63.
Definition omega : Z := 2 ^ 63 - 1.

(** [l.lookup(sec)]: the offset in force at the Unix second [sec], and
    the interval [start <= sec < end] in which it is in force. *)
Fixpoint lookup_from (offset start : Z) (tx : list (Z * Z)) (sec : Z) : Z * Z * Z :=
  match tx with
  | [] => (offset, start, omega)
  | (when, offset') :: rest =>
      if sec <? when then (offset, start, when)
      else lookup_from offset' when rest sec
  end.

Definition lookup (l : Location) (sec : Z) : Z * Z * Z :=
  lookup_from (offset0 l) alpha (tx l) sec.

(** A [time.Time] as its methods show it: the civil fields that
    [Time.Year], [Time.Month], ... return, the location of
    [Time.Location] and the offset from UTC, in seconds, that [Time.Zone]
    returns.  The instant is recovered from them, see [instant]. *)
Record Time : Type := mkTimeIn {
  Year : Z; Month : Z; Day : Z;
  Hour_ : Z; Minute_ : Z; Second_ : Z; Nanosecond_ : Z;
  Offset_ : Z;
  Location_ : Location
}.

(** A reading of a clock that shows UTC. *)
Definition mkTime (y m d h mi s ns : Z) : Time := mkTimeIn y m d h mi s ns 0 UTC.

(** The readings [time.Now] can return. *)
Definition days_in_month (y m : Z) : Z :=
  if m =? 2 then
    (if ((y mod 4 =? 0) && negb (y mod 100 =? 0)) || (y mod 400 =? 0)
     then 29 else 28)
  else if (m =? 4) || (m =? 6) || (m =? 9) || (m =? 11) then 30 else 31.

Definition wf (t : Time) : Prop :=
  0 <= Year t <= 9999 /\ 1 <= Month t <= 12 /\
  1 <= Day t <= days_in_month (Year t) (Month t) /\
  0 <= Hour_ t <= 23 /\ 0 <= Minute_ t <= 59 /\ 0 <= Second_ t <= 59 /\
  0 <= Nanosecond_ t <= 999999999.

(** Days from 1970-01-01 to the civil date [y]-[m]-[d] (proleptic
    Gregorian calendar). *)
Definition days_from_civil (y m d : Z) : Z :=
  let y' := if m <=? 2 then y - 1 else y in
  let era := y' / 400 in
  let yoe := y' - era * 400 in
  let mp := (m + 9) mod 12 in
  let doy := (153 * mp + 2) / 5 + d - 1 in
  let doe := yoe * 365 + yoe / 4 - yoe / 100 + doy in
  era * 146097 + doe - 719468.

(** The seconds from the epoch to the civil date and time of day, read as
    if they were UTC. *)
Definition civil_seconds (y m d h mi s : Z) : Z :=
  days_from_civil y m d * 86400 + h * 3600 + mi * 60 + s.

(** [time.Date(y, m, d, h, mi, s, ns, loc)] as an instant: nanoseconds
    since the epoch.  The fields are first read as UTC; the offset in
    force in [loc] at that second is then taken off, unless taking it off
    leaves the interval in which it is in force, in which case the offset
    found there is used.  The fields the program passes are in range, so
    nothing is normalised. *)
Definition Date (y m d h mi s ns : Z) (loc : Location) : Z :=
  let unix := civil_seconds y m d h mi s in
  let '(offset, start, end_) := lookup loc unix in
  let offset' :=
    if offset =? 0 then 0
    else
      let utc := unix - offset in
      if (utc <? start) || (end_ <=? utc) then fst (fst (lookup loc utc))
      else offset in
  (unix - offset') * Second + ns.

(** The instant of a clock reading: its civil fields, less its offset. *)
Definition instant (t : Time) : Z :=
  (civil_seconds (Year t) (Month t) (Day t) (Hour_ t) (Minute_ t) (Second_ t)
   - Offset_ t) * Second + Nanosecond_ t.

(** The reading is one the clock of its location shows: its offset is the
    one in force at its instant. *)
Definition shows (t : Time) : Prop :=
  fst (fst (lookup (Location_ t)
              (civil_seconds (Year t) (Month t) (Day t) (Hour_ t) (Minute_ t) (Second_ t)
               - Offset_ t))) = Offset_ t.

(** [t.Add(d)] and [t.Sub(u)] on instants. *)
Definition Add (t d : Z) : Z := t + d.
Definition Sub (t u : Z) : Z := t - u.

(** ** Formatting *)

Definition digit (d : Z) : ascii := ascii_of_nat (48 + Z.to_nat d).

(** The decimal digits of [u], most significant first; Go fills a
    20-byte buffer from the right. *)
Fixpoint digits_go (fuel : nat) (u : Z) (acc : string) : string :=
  match fuel with
  | O => acc
  | S k =>
      let acc' := String (digit (u mod 10)) acc in
      if u / 10 =? 0 then acc' else digits_go k (u / 10) acc'
  end.

Definition digits (u : Z) : string := digits_go 20 u "".

Fixpoint zeros (n : nat) : string :=
  match n with O => "" | S k => String "0" (zeros k) end.

(** [appendInt(b, x, width)] of package time, which is also what
    [fmt.Sprintf("%02d", x)] prints for [x >= 0]: the decimal form of
    [x], left-padded with zeros to [width]. *)
Definition appendInt (x : Z) (width : nat) : string :=
  let ds := digits (Z.abs x) in
  let sign : string := if x <? 0 then "-"%string else ""%string in
  sign +:+ zeros (width - String.length ds) +:+ ds.

(** [t.Format("2006-01")] *)
Definition Format_2006_01 (t : Time) : string :=
  appendInt (Year t) 4 +:+ "-" +:+ appendInt (Month t) 2.

(** [t.Format("2006-01-02")] *)
Definition Format_2006_01_02 (t : Time) : string :=
  appendInt (Year t) 4 +:+ "-" +:+ appendInt (Month t) 2 +:+ "-" +:+ appendInt (Day t) 2.

End time.

(** [fmt.Sprintf("%02d", x)] *)
Definition Sprintf_02d (x : Z) : string :=
  let ds := time.digits (Z.abs x) in
  if x <? 0 then "-" +:+ time.zeros (1 - String.length ds) +:+ ds
  else time.zeros (2 - String.length ds) +:+ ds.

(** Results of fallible calls: Go's [(value, error)] pairs. *)
Inductive result (A : Type) : Type :=
  | Ok (a : A)
  | Err (e : error).
Arguments Ok {A} a.
Arguments Err {A} e.

(* ===================================================================== *)
(** * Channels *)
(* ===================================================================== *)

Module chan.

(** A Go channel: its buffered values (oldest first), its capacity and
    whether it has been closed. *)
Record t (A : Type) : Type := mk { buf : list A; cap : nat; closed : bool }.
Arguments mk {A} buf cap closed.
Arguments buf {A} _.
Arguments cap {A} _.
Arguments closed {A} _.

(** [make(chan A, n)] *)
Definition make {A : Type} (n : nat) : t A := mk [] n false.

(** [c <- v].  The send completes when the buffer has room, blocks when it
    is full, and panics on a closed channel. *)
Inductive send_result (A : Type) : Type :=
  | Sent (c : t A)
  | SendBlocks
  | SendPanics.
Arguments Sent {A} c.
Arguments SendBlocks {A}.
Arguments SendPanics {A}.

Definition send {A : Type} (c : t A) (v : A) : send_result A :=
  if closed c then SendPanics
  else if (length (buf c) <? cap c)%nat
       then Sent (mk (buf c ++ [v]) (cap c) (closed c))
       else SendBlocks.

(** [<-c] as a select case: ready with the oldest buffered value, ready
    with the zero value once the channel is closed and empty, and not
    ready otherwise. *)
Inductive recv_result (A : Type) : Type :=
  | Received (v : A) (c : t A)
  | ReceivedClosed
  | RecvBlocks.
Arguments Received {A} v c.
Arguments ReceivedClosed {A}.
Arguments RecvBlocks {A}.

Definition recv {A : Type} (c : t A) : recv_result A :=
  match buf c with
  | v :: q => Received v (mk q (cap c) (closed c))
  | [] => if closed c then ReceivedClosed else RecvBlocks
  end.

(** [close(c)]: closing a closed channel panics. *)
Inductive close_result (A : Type) : Type :=
  | Closed (c : t A)
  | ClosePanics.
Arguments Closed {A} c.
Arguments ClosePanics {A}.

Definition close {A : Type} (c : t A) : close_result A :=
  if closed c then ClosePanics else Closed (mk (buf c) (cap c) true).

End chan.

(* ===================================================================== *)
(** * The file system *)
(* ===================================================================== *)

Module os.

(** [*os.File]: a reference into the table of open files. *)
Abbreviation File := nat.

(** The file system as the logger sees it: the directories, the regular
    files with their contents, the open files with the path each was
    opened at, and whether the device is failing (every call then returns
    an I/O error).  Paths are compared as the strings the program passes;
    that the parent of a path exists is not checked. *)
Record FS : Type := mk {
  dirs : gset string;
  files : gmap string bytes;
  opened : gmap nat string;
  next : nat;
  failing : bool
}.

Definition exists_ (fs : FS) (name : string) : bool :=
  bool_decide (name ∈ dirs fs) || bool_decide (is_Some (files fs !! name)).

(** [os.Stat(name)]: only the error is used. *)
Definition Stat (fs : FS) (name : string) : option error :=
  if failing fs then Some EIO
  else if exists_ fs name then None else Some ENOENT.

(** [os.Mkdir(name, 0755)] *)
Definition Mkdir (fs : FS) (name : string) : FS * option error :=
  if failing fs then (fs, Some EIO)
  else if bool_decide (name = ""%string) then (fs, Some ENOENT)
  else if exists_ fs name then (fs, Some EEXIST)
  else (mk ({[name]} ∪ dirs fs) (files fs) (opened fs) (next fs) (failing fs), None).

(** [os.OpenFile(name, os.O_WRONLY|os.O_CREATE|os.O_APPEND, 0755)]: an
    existing file keeps its contents, a missing one is created empty. *)
Definition OpenFile (fs : FS) (name : string) : FS * result File :=
  if failing fs then (fs, Err EIO)
  else if bool_decide (name = ""%string) then (fs, Err ENOENT)
  else if bool_decide (name ∈ dirs fs) then (fs, Err EISDIR)
  else
    let contents := default [] (files fs !! name) in
    (mk (dirs fs) (<[name := contents]> (files fs))
        (<[next fs := name]> (opened fs)) (S (next fs)) (failing fs),
     Ok (next fs)).

(** [f.Write(data)] on a file opened with [O_APPEND]: the bytes go to the
    end of the file, all or none. *)
Definition Write (fs : FS) (f : File) (data : bytes) : FS * option error :=
  match opened fs !! f with
  | None => (fs, Some ErrClosed)
  | Some name =>
      if failing fs then (fs, Some EIO)
      else
        (mk (dirs fs) (<[name := default [] (files fs !! name) ++ data]> (files fs))
            (opened fs) (next fs) (failing fs),
         None)
  end.

(** [f.Close()]: the descriptor is released even when the call reports
    an error. *)
Definition Close (fs : FS) (f : File) : FS * option error :=
  match opened fs !! f with
  | None => (fs, Some ErrClosed)
  | Some _ =>
      (mk (dirs fs) (files fs) (delete f (opened fs)) (next fs) (failing fs),
       if failing fs then Some EIO else None)
  end.

(** The device starts or stops failing. *)
Definition set_failing (fs : FS) (b : bool) : FS :=
  mk (dirs fs) (files fs) (opened fs) (next fs) b.

(** The contents of the file at [name]; empty when there is none. *)
Definition contents (fs : FS) (name : string) : bytes :=
  default [] (files fs !! name).

End os.

(* ===================================================================== *)
(** * bufio.Writer *)
(* ===================================================================== *)

Module bufio.

Definition defaultBufSize : nat := 4096.

(** [bufio.Writer]: the sticky error, the buffered bytes ([buf[0:n]]) and
    the file written to. *)
Record Writer : Type := mk { err : option error; buf : bytes; wr : os.File }.

(** [bufio.NewWriter(f)] *)
Definition NewWriter (f : os.File) : Writer := mk None [] f.

Definition Available (b : Writer) : nat := (defaultBufSize - length (buf b))%nat.
Definition Buffered (b : Writer) : nat := length (buf b).

(** [b.Flush()] *)
Definition Flush (fs : os.FS) (b : Writer) : os.FS * Writer * option error :=
  match err b with
  | Some e => (fs, b, Some e)
  | None =>
      if (Buffered b =? 0)%nat then (fs, b, None)
      else
        match os.Write fs (wr b) (buf b) with
        | (fs', Some e) => (fs', mk (Some e) (buf b) (wr b), Some e)
        | (fs', None) => (fs', mk None [] (wr b), None)
        end
  end.

(** The loop of [b.Write(p)]:
    [for len(p) > b.Available() && b.err == nil { ... }].
    It returns the part of [p] that is left for the final copy. *)
Fixpoint Write_loop (fuel : nat) (fs : os.FS) (b : Writer) (p : bytes)
  : os.FS * Writer * bytes :=
  match fuel with
  | O => (fs, b, p)
  | S k =>
      if (Available b <? length p)%nat && bool_decide (err b = None) then
        if (Buffered b =? 0)%nat then
          (* Large write, empty buffer: write directly from p. *)
          match os.Write fs (wr b) p with
          | (fs', Some e) => Write_loop k fs' (mk (Some e) (buf b) (wr b)) p
          | (fs', None) => Write_loop k fs' b []
          end
        else
          let n := Available b in
          let '(fs', b', _) := Flush fs (mk (err b) (buf b ++ take n p) (wr b)) in
          Write_loop k fs' b' (drop n p)
      else (fs, b, p)
  end.

(** [b.Write(p)].  The loop runs at most twice (fill and flush, then one
    direct write), so three rounds of fuel let it reach its exit test; see
    [bufio_Write_loop_healthy]. *)
Definition Write (fs : os.FS) (b : Writer) (p : bytes) : os.FS * Writer * option error :=
  let '(fs', b', p') := Write_loop 3 fs b p in
  match err b' with
  | Some e => (fs', b', Some e)
  | None => (fs', mk None (buf b' ++ p') (wr b'), None)
  end.

End bufio.

(* ===================================================================== *)
(** * Interfaces outside the repository *)
(* ===================================================================== *)

(** [json.Marshal] on records of type [M]: the encoded text, or an error
    for a value that has no JSON form. *)
Class Serializer (M : Type) : Type := { Marshal : M -> result bytes }.

(** [flate.Writer] at level 9 as a stream transform with state [C]: a
    write or a flush takes the state to a new one and emits compressed
    bytes for the underlying writer, which receives them in one write. *)
Class Compressor (C : Type) : Type := {
  flate_NewWriter : C;
  flate_Write : C -> bytes -> C * bytes;
  flate_Flush : C -> C * bytes
}.

(* ===================================================================== *)
(** * gzip.Writer *)
(* ===================================================================== *)

Module gzip.
Section gzip.
Context {C : Type} `{!Compressor C}.

(** The ten header bytes of a stream written at BestCompression with no
    name, comment or modification time. *)
Definition header : bytes :=
  map ascii_of_nat [31; 139; 8; 0; 0; 0; 0; 0; 2; 255]%nat.

(** [gzip.Writer] over a [bufio.Writer].  It is never closed by the
    logger, so the trailer is never written. *)
Record Writer : Type := mk {
  w : bufio.Writer;
  wroteHeader : bool;
  compressor : C;
  err : option error
}.

(** [gzip.NewWriterLevel(w, 9)] *)
Definition NewWriterLevel (w : bufio.Writer) : Writer :=
  mk w false flate_NewWriter None.

(** [z.Write(p)]: the header goes out lazily with the first write. *)
Definition Write (fs : os.FS) (z : Writer) (p : bytes) : os.FS * Writer * option error :=
  match err z with
  | Some e => (fs, z, Some e)
  | None =>
      let '(fs1, z1) :=
        if wroteHeader z then (fs, z)
        else
          let '(fs', w', e) := bufio.Write fs (w z) header in
          (fs', mk w' true (compressor z) e) in
      match err z1 with
      | Some e => (fs1, z1, Some e)
      | None =>
          let '(c', emitted) := flate_Write (compressor z1) p in
          let '(fs2, w2, e) := bufio.Write fs1 (w z1) emitted in
          (fs2, mk w2 true c' e, e)
      end
  end.

(** [z.Flush()]: pending compressed data goes to the underlying writer,
    which is not itself flushed. *)
Definition Flush (fs : os.FS) (z : Writer) : os.FS * Writer * option error :=
  match err z with
  | Some e => (fs, z, Some e)
  | None =>
      let '(fs1, z1) :=
        if wroteHeader z then (fs, z)
        else let '(fs', z', _) := Write fs z [] in (fs', z') in
      match err z1 with
      | Some e => (fs1, z1, Some e)
      | None =>
          let '(c', emitted) := flate_Flush (compressor z1) in
          let '(fs2, w2, e) := bufio.Write fs1 (w z1) emitted in
          (fs2, mk w2 (wroteHeader z1) c' e, e)
      end
  end.

End gzip.
Arguments Writer C : clear implicits.
End gzip.

(* ===================================================================== *)
(** * json.Encoder *)
(* ===================================================================== *)

Module json.

(** [json.Encoder]: the error of a failed write, which sticks.  The writer
    it is bound to is the logger's [out]. *)
Record Encoder : Type := mk { err : option error }.

(** [json.NewEncoder(w)] *)
Definition NewEncoder : Encoder := mk None.

End json.

(* ===================================================================== *)
(** * The logger *)
(* ===================================================================== *)

(** [type SwitchMode int] *)
Definition SWITCH_BY_DAY : Z := 1.
Definition SWITCH_BY_HOURS : Z := 2.

(** [type flushWriter interface { Write; Flush }] with its two
    implementations in the program. *)
Inductive flushWriter (C : Type) : Type :=
  | BufioWriter (b : bufio.Writer)
  | GzipWriter (z : gzip.Writer C).
Arguments BufioWriter {C} b.
Arguments GzipWriter {C} z.

Section jsonlog.
Context {M C : Type} `{!Serializer M} `{!Compressor C}.

Definition flushWriter_Write (fs : os.FS) (o : flushWriter C) (data : bytes)
  : os.FS * flushWriter C * option error :=
  match o with
  | BufioWriter b => let '(fs', b', e) := bufio.Write fs b data in (fs', BufioWriter b', e)
  | GzipWriter z => let '(fs', z', e) := gzip.Write fs z data in (fs', GzipWriter z', e)
  end.

Definition flushWriter_Flush (fs : os.FS) (o : flushWriter C)
  : os.FS * flushWriter C * option error :=
  match o with
  | BufioWriter b => let '(fs', b', e) := bufio.Flush fs b in (fs', BufioWriter b', e)
  | GzipWriter z => let '(fs', z', e) := gzip.Flush fs z in (fs', GzipWriter z', e)
  end.

(** [type L struct].  [closeWait] is the WaitGroup's counter.  [out] and
    [file] are nil until the first [switchFile]; so is [encoder] in the
    source, where nothing reads it before [switchFile] has set it: here it
    starts as a fresh encoder.  [encoder] is [json.NewEncoder(logger.out)],
    rebuilt whenever [out] is, and writes to [out]. *)
Record L : Type := mkL {
  dir : string;
  logChan : chan.t M;
  closeChan : chan.t Z;
  closeWait : nat;
  out : option (flushWriter C);
  encoder : json.Encoder;
  file : option os.File
}.

(** [encoder.Encode(r)] on the encoder [enc] bound to [o]: an encoder whose
    earlier write failed returns that error; otherwise the marshalled
    record and a newline go out in one write, whose error sticks; nothing
    is written when marshalling fails. *)
Definition Encode (fs : os.FS) (o : flushWriter C) (enc : json.Encoder) (r : M)
  : os.FS * flushWriter C * json.Encoder * option error :=
  match json.err enc with
  | Some e => (fs, o, enc, Some e)
  | None =>
      match Marshal r with
      | Err e => (fs, o, enc, Some e)
      | Ok text =>
          let '(fs', o', e) := flushWriter_Write fs o (text ++ ["010"%char]) in
          (fs', o', json.mk e, e)
      end
  end.

(** The directory check that opens both [New] and [switchFile]:
    [if _, err := os.Stat(d); err != nil { if os.IsNotExist(err) { Mkdir }
    else { return err } }]. *)
Definition statOrMkdir (fs : os.FS) (name : string) : os.FS * option error :=
  match os.Stat fs name with
  | None => (fs, None)
  | Some e => if IsNotExist e then os.Mkdir fs name else (fs, Some e)
  end.

Definition dirName (dir : string) (switchMode : Z) (now : time.Time) : string :=
  if switchMode =? SWITCH_BY_DAY then dir +:+ "/" +:+ time.Format_2006_01 now +:+ "/"
  else if switchMode =? SWITCH_BY_HOURS then dir +:+ "/" +:+ time.Format_2006_01_02 now +:+ "/"
  else "".

Definition fileName (dir : string) (switchMode : Z) (fileType : string) (now : time.Time)
  : string :=
  if switchMode =? SWITCH_BY_DAY
  then dirName dir switchMode now +:+ Sprintf_02d (time.Day now) +:+ fileType
  else if switchMode =? SWITCH_BY_HOURS
  then dirName dir switchMode now +:+ Sprintf_02d (time.Hour_ now) +:+ fileType
  else "".

(** [if logger.file != nil { Flush; Close }] of [switchFile].  [out] is
    set whenever [file] is: [switchFile] sets both. *)
Definition closeOld (fs : os.FS) (logger : L) : os.FS * L * option error :=
  match file logger, out logger with
  | Some old, Some o =>
      let '(fs1, o1, e1) := flushWriter_Flush fs o in
      let logger1 := mkL (dir logger) (logChan logger) (closeChan logger)
                         (closeWait logger) (Some o1) (encoder logger) (file logger) in
      match e1 with
      | Some e => (fs1, logger1, Some e)
      | None =>
          match os.Close fs1 old with
          | (fs2, Some e) => (fs2, logger1, Some e)
          | (fs2, None) => (fs2, logger1, None)
          end
      end
  | _, _ => (fs, logger, None)
  end.

(** [func (logger *L) switchFile(switchMode, fileType, compress) error],
    with the clock reading [now] of its [time.Now()]. *)
Definition switchFile (fs : os.FS) (logger : L) (now : time.Time)
    (switchMode : Z) (fileType : string) (compress : bool)
  : os.FS * L * option error :=
  let d := dirName (dir logger) switchMode now in
  let f := fileName (dir logger) switchMode fileType now in
  match statOrMkdir fs d with
  | (fs1, Some e) => (fs1, logger, Some e)
  | (fs1, None) =>
      match os.OpenFile fs1 f with
      | (fs2, Err e) => (fs2, logger, Some e)
      | (fs2, Ok fl) =>
          match closeOld fs2 logger with
          | (fs3, logger3, Some e) => (fs3, logger3, Some e)
          | (fs3, logger3, None) =>
              let o := if compress
                       then GzipWriter (gzip.NewWriterLevel (bufio.NewWriter fl))
                       else BufioWriter (bufio.NewWriter fl) in
              (fs3,
               mkL (dir logger3) (logChan logger3) (closeChan logger3)
                   (closeWait logger3) (Some o) json.NewEncoder (Some fl),
               None)
          end
      end
  end.

(** [logger.closeWait.Add(n)] *)
Definition closeWait_Add (logger : L) (n : nat) : L :=
  mkL (dir logger) (logChan logger) (closeChan logger)
      (closeWait logger + n) (out logger) (encoder logger) (file logger).

(** [logger.closeWait.Done()] *)
Definition closeWait_Done (logger : L) : L :=
  mkL (dir logger) (logChan logger) (closeChan logger)
      (closeWait logger - 1) (out logger) (encoder logger) (file logger).

(** The suffix the worker uses: [if compress { fileType += ".gz" }]. *)
Definition effectiveType (fileType : string) (compress : bool) : string :=
  if compress then fileType +:+ ".gz" else fileType.

(** [func New(dir, switchMode, fileType, compress)] up to the
    start of the worker, with the clock reading of its [switchFile]. *)
Definition New (fs : os.FS) (dir : string) (switchMode : Z) (fileType : string)
    (compress : bool) (now : time.Time) : os.FS * result L :=
  match statOrMkdir fs dir with
  | (fs1, Some e) => (fs1, Err e)
  | (fs1, None) =>
      let fileType := effectiveType fileType compress in
      let logger := mkL dir (chan.make 1000) (chan.make 0) 0 None json.NewEncoder None in
      match switchFile fs1 logger now switchMode fileType compress with
      | (fs2, _, Some e) => (fs2, Err e)
      | (fs2, logger', None) =>
          (fs2, Ok (closeWait_Add logger' 1))
      end
  end.

(** [func (logger *L) Log(r M)]: [logger.logChan <- r]. *)
Definition Log (logger : L) (r : M) : chan.send_result M :=
  chan.send (logChan logger) r.

(** [func (logger *L) Close()], first statement: [close(logger.closeChan)]. *)
Definition Close_close (logger : L) : chan.close_result Z :=
  chan.close (closeChan logger).

(** [func (logger *L) Close()], second statement: [closeWait.Wait()]
    returns once the counter is zero. *)
Definition Close_Wait (logger : L) : bool := (closeWait logger =? 0)%nat.

(** ** The worker *)

(** The timer the worker arms when it starts, from its own [time.Now()];
    [None] is the nil [*time.Timer] of a mode that is neither constant. *)
Definition firstTimer (switchMode : Z) (now : time.Time) : option Z :=
  if switchMode =? SWITCH_BY_DAY then
    Some (time.Sub (time.Add (time.Date (time.Year now) (time.Month now) (time.Day now)
                                        0 0 0 0 (time.Location_ now)) (24 * time.Hour))
                   (time.instant now))
  else if switchMode =? SWITCH_BY_HOURS then
    Some (time.Sub (time.Add (time.Date (time.Year now) (time.Month now) (time.Day now)
                                        (time.Hour_ now) 0 0 0 (time.Location_ now))
                             time.Hour)
                   (time.instant now))
  else None.

(** The timer after a rotation. *)
Definition nextTimer (switchMode : Z) (old : option Z) : option Z :=
  if switchMode =? SWITCH_BY_DAY then Some (24 * time.Hour)
  else if switchMode =? SWITCH_BY_HOURS then Some time.Hour
  else old.

End jsonlog.
Arguments L M C : clear implicits.

(* ===================================================================== *)
(** * The running process *)
(* ===================================================================== *)

Section process.
Context {M C : Type} `{!Serializer M} `{!Compressor C}.

(** The logger, its worker goroutine and their surroundings.  The worker's
    closure holds [switchMode], [fileType] (already carrying [".gz"]) and
    [compress]; [fileTimer] is the duration its timer was last armed
    with; [running] says the worker is in its loop; [diag] is what
    [log.Println] has printed; [panicked] is set once the process has died
    of a panic. *)
Record World : Type := mkWorld {
  fs : os.FS;
  logger : L M C;
  switchMode : Z;
  fileType : string;
  compress : bool;
  fileTimer : option Z;
  running : bool;
  diag : list string;
  panicked : option string
}.

Definition with_io (w : World) (fs' : os.FS) (logger' : L M C) : World :=
  mkWorld fs' logger' (switchMode w) (fileType w) (compress w) (fileTimer w)
          (running w) (diag w) (panicked w).

Definition with_out (logger : L M C) (o : option (flushWriter C)) : L M C :=
  mkL (dir logger) (logChan logger) (closeChan logger) (closeWait logger) o
      (encoder logger) (file logger).

Definition with_encoder (logger : L M C) (enc : json.Encoder) : L M C :=
  mkL (dir logger) (logChan logger) (closeChan logger) (closeWait logger) (out logger)
      enc (file logger).

Definition with_logChan (logger : L M C) (c : chan.t M) : L M C :=
  mkL (dir logger) c (closeChan logger) (closeWait logger) (out logger)
      (encoder logger) (file logger).

Definition with_closeChan (logger : L M C) (c : chan.t Z) : L M C :=
  mkL (dir logger) (logChan logger) c (closeWait logger) (out logger)
      (encoder logger) (file logger).

Definition println (w : World) (line : string) : World :=
  mkWorld (fs w) (logger w) (switchMode w) (fileType w) (compress w) (fileTimer w)
          (running w) (diag w ++ [line]) (panicked w).

Definition die (w : World) (why : string) : World :=
  mkWorld (fs w) (logger w) (switchMode w) (fileType w) (compress w) (fileTimer w)
          (running w) (diag w) (Some why).

(** [logger.out.Flush()] with its result dropped, as the flush tick and
    the deferred function call it. *)
Definition flush_ignoring (w : World) : World :=
  match out (logger w) with
  | Some o =>
      let '(fs', o', _) := flushWriter_Flush (fs w) o in
      with_io w fs' (with_out (logger w) (Some o'))
  | None => w
  end.

(** [logger.file.Close()] with its result dropped. *)
Definition close_ignoring (w : World) : World :=
  match file (logger w) with
  | Some f => with_io w (fst (os.Close (fs w) f)) (logger w)
  | None => w
  end.

(** The worker's deferred function:
    [flushTicker.Stop(); logger.out.Flush(); logger.file.Close();
     logger.closeWait.Done()].  It runs when the loop returns and when it
    panics. *)
Definition worker_deferred (w : World) : World :=
  let w1 := close_ignoring (flush_ignoring w) in
  mkWorld (fs w1) (closeWait_Done (logger w1)) (switchMode w1) (fileType w1) (compress w1)
          (fileTimer w1) false (diag w1) (panicked w1).

(** [case r := <-logger.logChan].  [logChan] is never closed, so a
    receive is ready only with a queued record; [out] has been set by the
    [switchFile] of [New] before the worker starts. *)
Definition case_logChan (w : World) : option World :=
  match chan.recv (logChan (logger w)), out (logger w) with
  | chan.Received r c, Some o =>
      let '(fs', o', enc', e) := Encode (fs w) o (encoder (logger w)) r in
      let w' := with_io w fs'
                  (with_encoder (with_out (with_logChan (logger w) c) (Some o')) enc') in
      match e with
      | Some err => Some (println w' ("log failed: " +:+ Error err))
      | None => Some w'
      end
  | _, _ => None
  end.

(** [case <-flushTicker.C] *)
Definition case_flushTicker (w : World) : option World :=
  Some (flush_ignoring w).

(** [case <-fileTimer.C], with the clock reading of [switchFile]. *)
Definition case_fileTimer (w : World) (now : time.Time) : option World :=
  match switchFile (fs w) (logger w) now (switchMode w) (fileType w) (compress w) with
  | (fs', logger', Some e) =>
      Some (die (worker_deferred (with_io w fs' logger')) ("panic: " +:+ Error e))
  | (fs', logger', None) =>
      Some (mkWorld fs' logger' (switchMode w) (fileType w) (compress w)
                    (nextTimer (switchMode w) (fileTimer w))
                    (running w) (diag w) (panicked w))
  end.

(** [case <-logger.closeChan: return].  Nothing is ever sent on
    [closeChan]: the case is ready once the channel is closed. *)
Definition case_closeChan (w : World) : option World :=
  match chan.recv (closeChan (logger w)) with
  | chan.ReceivedClosed => Some (worker_deferred w)
  | _ => None
  end.

(** What can happen next: a caller's [Log] or [Close], one of the
    worker's select cases becoming ready and being chosen, or the device
    starting or ceasing to fail.  Go's select picks any ready case, so
    every ready case is a possible next event.  Time is not tracked: a
    flush tick or a rotation deadline may come at any moment, the deadline
    with the clock reading [switchFile] then takes. *)
Inductive event : Type :=
  | CallLog (r : M)
  | CallClose
  | SelectLog
  | SelectFlush
  | SelectTimer (now : time.Time)
  | SelectClose
  | Device (failing : bool).

Definition worker_event (e : event) : bool :=
  match e with
  | SelectLog | SelectFlush | SelectTimer _ | SelectClose => true
  | _ => false
  end.

(** One step of the process; [None] when the event cannot happen in [w]
    (a blocked send, a select case that is not ready, a worker that has
    returned, a dead process).  Entering the select evaluates
    [fileTimer.C], which panics on a nil timer. *)
Definition step (w : World) (e : event) : option World :=
  if bool_decide (is_Some (panicked w)) then None
  else if worker_event e && negb (running w) then None
  else if worker_event e && bool_decide (fileTimer w = None) then
    Some (die (worker_deferred w) "panic: nil pointer dereference")
  else
    match e with
    | CallLog r =>
        match Log (logger w) r with
        | chan.Sent c => Some (with_io w (fs w) (with_logChan (logger w) c))
        | chan.SendBlocks => None
        | chan.SendPanics => Some (die w "panic: send on closed channel")
        end
    | CallClose =>
        match Close_close (logger w) with
        | chan.Closed c => Some (with_io w (fs w) (with_closeChan (logger w) c))
        | chan.ClosePanics => Some (die w "panic: close of closed channel")
        end
    | SelectLog => case_logChan w
    | SelectFlush => case_flushTicker w
    | SelectTimer now => case_fileTimer w now
    | SelectClose => case_closeChan w
    | Device b => Some (with_io w (os.set_failing (fs w) b) (logger w))
    end.

Fixpoint run (w : World) (es : list event) : option World :=
  match es with
  | [] => Some w
  | e :: es' => match step w e with Some w' => run w' es' | None => None end
  end.

(** [Close()] has returned: the process is alive, the channel was closed
    and the wait is over. *)
Definition Close_returned (w : World) : Prop :=
  panicked w = None /\ chan.closed (closeChan (logger w)) = true /\
  Close_Wait (logger w) = true.

(** [New] followed by the start of the worker, which reads the clock
    again ([now']) to arm its timer. *)
Definition start (fs0 : os.FS) (dir0 : string) (mode : Z) (suffix : string)
    (compress0 : bool) (now now' : time.Time) : result World :=
  match New fs0 dir0 mode suffix compress0 now with
  | (_, Err e) => Err e
  | (fs1, Ok lg) =>
      Ok (mkWorld fs1 lg mode (effectiveType suffix compress0) compress0
                  (firstTimer mode now') true [] None)
  end.

End process.
Arguments World M C : clear implicits.
Arguments event M : clear implicits.

(* ===================================================================== *)
(** * A concrete serializer, compressor and file system for the scenarios *)
(* ===================================================================== *)

Module Sample.

(** Record values: integers, and a channel value, which [json.Marshal]
    rejects. *)
Inductive value : Type :=
  | Int (n : Z)
  | ChanOfInt.

(** [M] restricted to those values; the keys are taken to be sorted and
    free of characters that need escaping. *)
Definition record : Type := list (string * value).

(** The double quote character. *)
Definition quote : ascii := ascii_of_nat 34.

Definition marshal_field (kv : string * value) : result bytes :=
  match snd kv with
  | Int n =>
      Ok (quote :: list_ascii_of_string (fst kv)
            ++ quote :: ":"%char :: list_ascii_of_string (time.appendInt n 0))
  | ChanOfInt => Err (ErrMarshal "json: unsupported type: chan int")
  end.

Fixpoint marshal_fields (kvs : record) : result bytes :=
  match kvs with
  | [] => Ok []
  | [kv] => marshal_field kv
  | kv :: rest =>
      match marshal_field kv, marshal_fields rest with
      | Ok a, Ok b => Ok (a ++ ","%char :: b)
      | Err e, _ => Err e
      | _, Err e => Err e
      end
  end.

Definition marshal (r : record) : result bytes :=
  match marshal_fields r with
  | Ok body => Ok ("{"%char :: body ++ ["}"%char])
  | Err e => Err e
  end.

#[global] Instance json : Serializer record := {| Marshal := marshal |}.

(** The four bytes that end a flushed block. *)
Definition sync_marker : bytes := map ascii_of_nat [0; 0; 255; 255]%nat.

(** A compressor that stores: writes are held back, a flush emits what is
    pending followed by the sync marker. *)
#[global] Instance store : Compressor bytes := {|
  flate_NewWriter := [];
  flate_Write st p := (st ++ p, []);
  flate_Flush st := ([], st ++ sync_marker)
|}.

(** A healthy file system holding the base directory [/tmp/x]. *)
Definition disk : os.FS := os.mk {["/tmp/x"%string]} ∅ ∅ 3 false.

Definition a1 : record := [("a"%string, Int 1)].
Definition a2 : record := [("a"%string, Int 2)].
Definition bad : record := [("c"%string, ChanOfInt)].

(** 2024-03-09 10:00:00 and the seconds after it. *)
Definition at_10_00 (s : Z) : time.Time := time.mkTime 2024 3 9 10 0 s 0.

(** New York in 2024: Eastern Standard Time, five hours behind UTC, with
    daylight saving time, four hours behind, from 2024-03-10 07:00:00 UTC
    to 2024-11-03 06:00:00 UTC. *)
Definition New_York : time.Location :=
  time.mkLocation (-5 * 3600)
    [(time.civil_seconds 2024 3 10 7 0 0, -4 * 3600);
     (time.civil_seconds 2024 11 3 6 0 0, -5 * 3600)].

(** 2024-03-10 10:00:00 in New York, on the day daylight saving time
    begins: the day has 23 hours. *)
Definition dst_morning : time.Time :=
  time.mkTimeIn 2024 3 10 10 0 0 0 (-4 * 3600) New_York.

End Sample.

(** The scenarios' logger ([base = /tmp/x], BY_HOUR, suffix [.log]) started
    on the file system [disk] at the clock reading [now], after the events
    [es]. *)
Definition session (disk : os.FS) (compress : bool) (now : time.Time)
    (es : list (event Sample.record)) : option (World Sample.record bytes) :=
  match start disk "/tmp/x" SWITCH_BY_HOURS ".log" compress now now with
  | Ok w => run w es
  | Err _ => None
  end.

(** The first session: on [Sample.disk], started at 10:00:00. *)
Definition scenario (compress : bool) (es : list (event Sample.record))
  : option (World Sample.record bytes) :=
  session Sample.disk compress (Sample.at_10_00 0) es.

(** The bytes still held in the [bufio.Writer]. *)
Definition buffered {M C : Type} (w : World M C) : bytes :=
  match out (logger w) with
  | Some (BufioWriter b) => bufio.buf b
  | Some (GzipWriter z) => bufio.buf (gzip.w z)
  | None => []
  end.

(* ===================================================================== *)
(** * The specification's side *)
(* ===================================================================== *)

(** ** Naming, in the specification's words *)

(** The rotation policy of the specification and the [SwitchMode] it
    stands for. *)
Inductive RotationPolicy : Type := BY_DAY | BY_HOUR.

Definition mode_of (p : RotationPolicy) : Z :=
  match p with BY_DAY => SWITCH_BY_DAY | BY_HOUR => SWITCH_BY_HOURS end.

(** A number below 100 as two decimal digits, below 10000 as four. *)
Definition two_digits (n : Z) : string :=
  String (time.digit (n / 10)) (String (time.digit (n mod 10)) "").

Definition four_digits (n : Z) : string :=
  String (time.digit (n / 1000))
    (String (time.digit (n / 100 mod 10))
       (String (time.digit (n / 10 mod 10)) (String (time.digit (n mod 10)) ""))).

(** The destination by the on-disk layout:
    [<base>/<YYYY-MM>/<DD><suffix>] under BY_DAY and
    [<base>/<YYYY-MM-DD>/<HH><suffix>] under BY_HOUR, followed by [.gz]
    when compression is on. *)
Definition destination (base : string) (p : RotationPolicy) (suffix : string)
    (compress : bool) (t : time.Time) : string :=
  let zext : string := if compress then ".gz"%string else ""%string in
  match p with
  | BY_DAY =>
      base +:+ "/" +:+ four_digits (time.Year t) +:+ "-" +:+ two_digits (time.Month t)
           +:+ "/" +:+ two_digits (time.Day t) +:+ suffix +:+ zext
  | BY_HOUR =>
      base +:+ "/" +:+ four_digits (time.Year t) +:+ "-" +:+ two_digits (time.Month t)
           +:+ "-" +:+ two_digits (time.Day t)
           +:+ "/" +:+ two_digits (time.Hour_ t) +:+ suffix +:+ zext
  end.

(** The full period of a policy. *)
Definition period (p : RotationPolicy) : Z :=
  match p with BY_DAY => 24 * time.Hour | BY_HOUR => time.Hour end.

(** The civil date that follows the date of [t]: the next day of the
    month, the first of the next month after the month's last day, the
    first of January after the 31st of December. *)
Definition next_day (t : time.Time) : Z * Z * Z :=
  let y := time.Year t in
  let m := time.Month t in
  let d := time.Day t in
  if d <? time.days_in_month y m then (y, m, d + 1)
  else if m <? 12 then (y, m + 1, 1)
  else (y + 1, 1, 1).

(** Midnight at the start of the civil day that follows the day of [t],
    as the clock of [t]'s location shows it when [offset] is in force. *)
Definition next_midnight (t : time.Time) (offset : Z) : time.Time :=
  let '(y, m, d) := next_day t in
  time.mkTimeIn y m d 0 0 0 0 offset (time.Location_ t).

(** The next boundary of the policy after the reading [t]: the next
    midnight, or the top of the next hour (midnight after 23 h). *)
Definition next_boundary (p : RotationPolicy) (t : time.Time) (offset : Z) : time.Time :=
  match p with
  | BY_DAY => next_midnight t offset
  | BY_HOUR =>
      if time.Hour_ t <? 23
      then time.mkTimeIn (time.Year t) (time.Month t) (time.Day t) (time.Hour_ t + 1)
                         0 0 0 offset (time.Location_ t)
      else next_midnight t offset
  end.

(** ** Delivery, in the specification's words *)

Section reference.
Context {M : Type} `{!Serializer M}.

(** What one record adds to the output: its encoding and a newline, or
    nothing when it cannot be serialized. *)
Definition line (r : M) : bytes :=
  match Marshal r with
  | Ok text => text ++ ["010"%char]
  | Err _ => []
  end.

Definition lines (rs : list M) : bytes := concat (map line rs).

(** A logger without buffers: the files, the path of the current
    destination and the queue of submitted records. *)
Record Unbuffered : Type := mkUnbuffered {
  u_files : gmap string bytes;
  u_current : string;
  u_queue : list M
}.

(** Opening for append: a present file is kept, an absent one is created
    empty. *)
Definition opened_for_append (files : gmap string bytes) (name : string)
  : gmap string bytes :=
  <[name := default [] (files !! name)]> files.

Definition append_to (files : gmap string bytes) (name : string) (data : bytes)
  : gmap string bytes :=
  <[name := default [] (files !! name) ++ data]> files.

(** A submitted record joins the queue; a record the worker dequeues is
    appended at once to the current destination; a rotation makes the
    file of the new bucket the destination; nothing else touches the
    files or the queue. *)
Definition unbuffered_step (base : string) (mode : Z) (ext : string)
    (u : Unbuffered) (e : event M) : Unbuffered :=
  match e with
  | CallLog r => mkUnbuffered (u_files u) (u_current u) (u_queue u ++ [r])
  | SelectLog =>
      match u_queue u with
      | r :: q => mkUnbuffered (append_to (u_files u) (u_current u) (line r)) (u_current u) q
      | [] => u
      end
  | SelectTimer now =>
      let name := fileName base mode ext now in
      mkUnbuffered (opened_for_append (u_files u) name) name (u_queue u)
  | _ => u
  end.

Definition unbuffered_run (base : string) (mode : Z) (ext : string)
    (u : Unbuffered) (es : list (event M)) : Unbuffered :=
  fold_left (unbuffered_step base mode ext) es u.

Definition unbuffered_start (files : gmap string bytes) (base : string) (mode : Z)
    (ext : string) (now : time.Time) : Unbuffered :=
  let name := fileName base mode ext now in
  mkUnbuffered (opened_for_append files name) name [].

(** The records the worker takes off the queue during [es], in order,
    starting from the queue [q]; and the ones callers submit. *)
Fixpoint dequeued (q : list M) (es : list (event M)) : list M :=
  match es with
  | [] => []
  | CallLog r :: es' => dequeued (q ++ [r]) es'
  | SelectLog :: es' =>
      match q with
      | r :: q' => r :: dequeued q' es'
      | [] => dequeued [] es'
      end
  | _ :: es' => dequeued q es'
  end.

Fixpoint submitted (es : list (event M)) : list M :=
  match es with
  | [] => []
  | CallLog r :: es' => r :: submitted es'
  | _ :: es' => submitted es'
  end.

(** The device never starts failing during [es]. *)
Definition healthy (es : list (event M)) : bool :=
  forallb (fun e => match e with Device true => false | _ => true end) es.

(** No rotation deadline fires during [es]. *)
Definition same_bucket (es : list (event M)) : bool :=
  forallb (fun e => match e with SelectTimer _ => false | _ => true end) es.

(** [Close] is called during [es]. *)
Definition calls_Close (es : list (event M)) : bool :=
  existsb (fun e => match e with CallClose => true | _ => false end) es.

End reference.
Arguments Unbuffered M : clear implicits.

(* ===================================================================== *)
(** * Invariants and relations used in the proofs *)
(* ===================================================================== *)

(** Closed comparisons of numbers, such as the validity of a concrete
    clock reading. *)
Ltac valid_reading := repeat split; vm_compute; discriminate.

(** Evaluate the comparisons of closed numbers in the goal. *)
Ltac closed_tests :=
  repeat match goal with
         | |- context [?a <=? ?b] =>
             let v := eval vm_compute in (a <=? b) in
             match v with true => idtac | false => idtac end;
             change (a <=? b) with v
         | |- context [?a =? ?b] =>
             let v := eval vm_compute in (a =? b) in
             match v with true => idtac | false => idtac end;
             change (a =? b) with v
         end;
  cbv iota; simpl orb; cbv iota.

(** In a scenario whose events can all happen, name the state reached. *)
Ltac reached c es w Hw :=
  destruct (scenario c es) as [w|] eqn:Hw; [| vm_compute in Hw; discriminate Hw].

(** From [Hw : scenario c es = Some w], the start and the run it is made of. *)
Ltac from_start Hw w0 Hstart :=
  unfold scenario, session in Hw;
  destruct (start _ _ _ _ _ _ _) as [w0|] eqn:Hstart; [| discriminate Hw].

Definition valid_mode (m : Z) : Prop := m = SWITCH_BY_DAY \/ m = SWITCH_BY_HOURS.

(** The offset [off] is in force in [loc] at every second from [lo] up to
    [hi]: the zone has no change of offset there. *)
Definition steady (loc : time.Location) (off lo hi : Z) : Prop :=
forall u, lo <= u < hi -> fst (fst (time.lookup loc u)) = off.

(** [fs] with the contents of its files replaced. *)
Definition with_files (fs : os.FS) (files : gmap string bytes) : os.FS :=
os.mk (os.dirs fs) files (os.opened fs) (os.next fs) (os.failing fs).

(** [fs'] is [fs] after [data] has been appended to the file at [name]. *)
Definition appended (fs : os.FS) (name : string) (data : bytes) (fs' : os.FS) : Prop :=
fs' = with_files fs (<[name := os.contents fs name ++ data]> (os.files fs)).

(** No file of [fs] has been removed or shortened in [fs']: each holds in
    [fs'] what it held in [fs], possibly followed by more. *)
Definition grows (fs fs' : os.FS) : Prop :=
forall name c, os.files fs !! name = Some c ->
               exists d, os.files fs' !! name = Some (c ++ d).

(** The writer [b] is in working order: no sticky error, at most a buffer
    full of bytes, and its file is open at [name] on a healthy device. *)
Definition bufio_ok (fs : os.FS) (b : bufio.Writer) (name : string) : Prop :=
bufio.err b = None /\ (length (bufio.buf b) <= bufio.defaultBufSize)%nat /\
os.opened fs !! bufio.wr b = Some name /\ is_Some (os.files fs !! name) /\
os.failing fs = false.

Section relations.
Context {M C : Type} `{!Serializer M} `{!Compressor C}.
Implicit Types (w : World M C) (lg : L M C) (u : Unbuffered M).

(** The parts of the logger that [switchFile] leaves alone. *)
Definition same_plumbing lg lg' : Prop :=
  dir lg' = dir lg /\ logChan lg' = logChan lg /\
  closeChan lg' = closeChan lg /\ closeWait lg' = closeWait lg.

(** The invariant of the running process. *)
Record Inv w : Prop := mkInv {
  inv_logChan_open : chan.closed (logChan (logger w)) = false;
  inv_logChan_cap : chan.cap (logChan (logger w)) = 1000%nat;
  inv_logChan_len : (length (chan.buf (logChan (logger w))) <= 1000)%nat;
  inv_closeChan_empty : chan.buf (closeChan (logger w)) = [];
  inv_closeWait : closeWait (logger w) = if running w then 1%nat else 0%nat;
  inv_timer : is_Some (fileTimer w);
  inv_mode : valid_mode (switchMode w);
  inv_out : is_Some (out (logger w));
  inv_file : is_Some (file (logger w))
}.

(** The worker of [w] writes through the buffer [b] to the file that is
    current in [u], and file and buffer together hold what [u]'s file
    holds. *)
Definition writes_through w u (b : bufio.Writer) : Prop :=
out (logger w) = Some (BufioWriter b) /\ file (logger w) = Some (bufio.wr b) /\
json.err (encoder (logger w)) = None /\
bufio_ok (fs w) b (u_current u) /\ (bufio.wr b < os.next (fs w))%nat /\
u_files u = <[u_current u := os.contents (fs w) (u_current u) ++ bufio.buf b]>
              (os.files (fs w)).

(** The logger's file has been closed. *)
Definition released w : Prop :=
forall f, file (logger w) = Some f -> os.opened (fs w) !! f = None.

(** The process [w], writing without compression to a healthy device,
    agrees with the unbuffered logger [u]: same queue, and the same files
    once the buffer is counted in (while the worker runs) or has been
    flushed (after it has returned, the file closed). *)
Definition agrees (base : string) (mode : Z) (ext : string) w u : Prop :=
panicked w = None /\ compress w = false /\ os.failing (fs w) = false /\
dir (logger w) = base /\ switchMode w = mode /\ fileType w = ext /\
chan.buf (logChan (logger w)) = u_queue u /\
if running w then exists b, writes_through w u b
else u_files u = os.files (fs w) /\ released w.

End relations.

(* ===================================================================== *)
(** * Notions of the further properties *)
(* ===================================================================== *)

(** The fields of a clock reading that name its bucket: the date, and the
    hour under BY_HOUR. *)
Definition bucket_of (p : RotationPolicy) (t : time.Time) : list Z :=
  match p with
  | BY_DAY => [time.Year t; time.Month t; time.Day t]
  | BY_HOUR => [time.Year t; time.Month t; time.Day t; time.Hour_ t]
  end.

(** The error a writer holds on to: once it is set, every [Write] and
    [Flush] returns it without doing anything. *)
Definition writer_err {C : Type} (o : flushWriter C) : option error :=
  match o with
  | BufioWriter b => bufio.err b
  | GzipWriter z => gzip.err z
  end.

(** [fs'] has the table of open files of [fs]: the same descriptors at the
    same paths, and the same descriptor to hand out next. *)
Definition same_table (fs fs' : os.FS) : Prop :=
  os.opened fs' = os.opened fs /\ os.next fs' = os.next fs.

(** The descriptors not yet handed out are not in use. *)
Definition fresh_next (fs : os.FS) : Prop :=
  forall f, (os.next fs <= f)%nat -> os.opened fs !! f = None.

Section descriptors.
Context {M C : Type} `{!Serializer M} `{!Compressor C}.

(** Of the files open in [w], the logger holds one while its worker runs
    and none afterwards: the others are those of [opened0]. *)
Definition holds_one (opened0 : gmap nat string) (w : World M C) : Prop :=
  if running w
  then exists f name, file (logger w) = Some f /\
                      os.opened (fs w) = <[f := name]> opened0 /\ opened0 !! f = None
  else os.opened (fs w) = opened0.

End descriptors.

Section complaints.
Context {M : Type} `{!Serializer M}.

(** What the worker prints for the records [rs]: a line for each record
    that cannot be serialized, none for the others. *)
Definition complaints (rs : list M) : list string :=
  flat_map (fun r => match Marshal r with
                     | Ok _ => []
                     | Err e => ["log failed: " +:+ Error e]
                     end) rs.

End complaints.

(* ===================================================================== *)
(** * Properties *)
(* ===================================================================== *)

(** ** Strings and decimal numbers *)

Lemma append_assoc (a b c : string) : (a +:+ b) +:+ c = a +:+ b +:+ c.
Proof.
  induction a as [|x a IH]; [reflexivity |].
  change (String x ((a +:+ b) +:+ c) = String x (a +:+ b +:+ c)). now rewrite IH.
Qed.

Lemma append_empty_r (a : string) : a +:+ "" = a.
Proof.
  induction a as [|x a IH]; [reflexivity |].
  change (String x (a +:+ "") = String x a). now rewrite IH.
Qed.

(** A boolean property checked on [0 .. n-1] holds of every number in that
    range. *)
Lemma checked_below (P : Z -> bool) (n : Z) :
  forallb P (map Z.of_nat (seq 0 (Z.to_nat n))) = true ->
  forall z, 0 <= z < n -> P z = true.
Proof.
  intros Hall z Hz.
  rewrite forallb_forall in Hall. apply Hall.
  apply in_map_iff. exists (Z.to_nat z). split; [lia |].
  apply in_seq. lia.
Qed.

Lemma appendInt_two_digits (n : Z) : 0 <= n <= 99 -> time.appendInt n 2 = two_digits n.
Proof.
  intros Hn.
  apply String.eqb_eq.
  apply (checked_below (fun z => String.eqb (time.appendInt z 2) (two_digits z)) 100);
    [vm_compute; reflexivity | lia].
Qed.

Lemma Sprintf_two_digits (n : Z) : 0 <= n <= 99 -> Sprintf_02d n = two_digits n.
Proof.
  intros Hn.
  apply String.eqb_eq.
  apply (checked_below (fun z => String.eqb (Sprintf_02d z) (two_digits z)) 100);
    [vm_compute; reflexivity | lia].
Qed.

Lemma appendInt_four_digits (n : Z) : 0 <= n <= 9999 -> time.appendInt n 4 = four_digits n.
Proof.
  intros Hn.
  apply String.eqb_eq.
  apply (checked_below (fun z => String.eqb (time.appendInt z 4) (four_digits z)) 10000);
    [vm_compute; reflexivity | lia].
Qed.

Lemma days_in_month_le_31 (y m : Z) : time.days_in_month y m <= 31.
Proof.
  unfold time.days_in_month.
  repeat match goal with |- context [if ?b then _ else _] => destruct b end; lia.
Qed.

Lemma effectiveType_zext (suffix : string) (compress : bool) :
  effectiveType suffix compress = suffix +:+ (if compress then ".gz" else "").
Proof. destruct compress; simpl; [reflexivity | now rewrite append_empty_r]. Qed.

(** The path that [switchFile] computes, with the suffix as [New] passes it
    on, is the specification's destination. *)
Lemma fileName_layout (base suffix : string) (p : RotationPolicy)
    (compress : bool) (now : time.Time) :
  time.wf now ->
  fileName base (mode_of p) (effectiveType suffix compress) now
  = destination base p suffix compress now.
Proof.
  intros (Hy & Hm & Hd & Hh & _).
  pose proof (days_in_month_le_31 (time.Year now) (time.Month now)) as H31.
  rewrite effectiveType_zext.
  assert (Hday : 0 <= time.Day now <= 99) by lia.
  destruct p; unfold fileName, dirName, destination, mode_of; simpl Z.eqb; cbv iota;
    unfold time.Format_2006_01, time.Format_2006_01_02.
  - rewrite (appendInt_four_digits (time.Year now)) by lia.
    rewrite (appendInt_two_digits (time.Month now)) by lia.
    rewrite (Sprintf_two_digits (time.Day now)) by lia.
    now rewrite !append_assoc.
  - rewrite (appendInt_four_digits (time.Year now)) by lia.
    rewrite (appendInt_two_digits (time.Month now)) by lia.
    rewrite (appendInt_two_digits (time.Day now)) by lia.
    rewrite (Sprintf_two_digits (time.Hour_ now)) by lia.
    now rewrite !append_assoc.
Qed.

(** ** The rotation timer *)

Lemma days_from_civil_succ (y m d : Z) :
  time.days_from_civil y m (d + 1) = time.days_from_civil y m d + 1.
Proof. unfold time.days_from_civil. lia. Qed.

(** The calendar is consistent at the end of a month: the day after the
    last day of a month is the first of the next month. *)
Lemma days_from_civil_month_end (y m : Z) :
  0 <= y <= 9999 -> 1 <= m <= 12 ->
  time.days_from_civil y m (time.days_in_month y m + 1)
  = if m =? 12 then time.days_from_civil (y + 1) 1 1 else time.days_from_civil y (m + 1) 1.
Proof.
  intros Hy Hm.
  assert (m = 1 \/ m = 2 \/ m = 3 \/ m = 4 \/ m = 5 \/ m = 6 \/ m = 7 \/ m = 8 \/
          m = 9 \/ m = 10 \/ m = 11 \/ m = 12) as Hcases by lia.
  unfold time.days_from_civil, time.days_in_month.
  repeat (destruct Hcases as [-> | Hcases]); try subst m; closed_tests;
    try (Z.div_mod_to_equations; lia).
  (* February *)
  destruct (Z.eqb_spec (y mod 4) 0), (Z.eqb_spec (y mod 100) 0),
    (Z.eqb_spec (y mod 400) 0); simpl; Z.div_mod_to_equations; lia.
Qed.

(** The day after is one day later. *)
Lemma next_day_follows (t : time.Time) :
  time.wf t ->
  let '(y, m, d) := next_day t in
  time.days_from_civil y m d
  = time.days_from_civil (time.Year t) (time.Month t) (time.Day t) + 1.
Proof.
  intros (Hy & Hm & Hd & _). unfold next_day.
  destruct (Z.ltb_spec (time.Day t) (time.days_in_month (time.Year t) (time.Month t)))
    as [Hlt | Hge].
  - apply days_from_civil_succ.
  - assert (time.Day t = time.days_in_month (time.Year t) (time.Month t)) as Hlast by lia.
    pose proof (days_from_civil_month_end (time.Year t) (time.Month t) Hy Hm) as Hend.
    rewrite <- Hlast in Hend. rewrite days_from_civil_succ in Hend.
    destruct (Z.ltb_spec (time.Month t) 12) as [Hm12 | Hm12].
    + destruct (Z.eqb_spec (time.Month t) 12); [lia |]. lia.
    + destruct (Z.eqb_spec (time.Month t) 12); [| lia]. lia.
Qed.

(** Where the zone is steady, [time.Date] takes the offset in force off
    the civil fields. *)
Lemma Date_steady (loc : time.Location) (off lo hi y m d h mi s ns : Z) :
  steady loc off lo hi ->
  lo <= time.civil_seconds y m d h mi s < hi ->
  lo <= time.civil_seconds y m d h mi s - off < hi ->
  time.Date y m d h mi s ns loc
  = (time.civil_seconds y m d h mi s - off) * time.Second + ns.
Proof.
  intros Hsteady Hcivil Hutc. unfold time.Date.
  pose proof (Hsteady _ Hcivil) as Hfound.
  destruct (time.lookup loc (time.civil_seconds y m d h mi s)) as [[o st] en].
  cbn [fst] in Hfound. subst o.
  destruct (Z.eqb_spec off 0) as [-> | Hoff]; [reflexivity |].
  destruct ((_ <? _) || (_ <=? _)); [| reflexivity].
  now rewrite (Hsteady _ Hutc).
Qed.

(** Away from the changes of offset of its zone, the first timer runs to
    the next boundary: with the offset of the reading in force from two
    days before it to two days after it, the deadline is the instant at
    which the clock shows the next midnight (BY_DAY) or the top of the next
    hour (BY_HOUR), after the reading and at most one period after it. *)
Lemma first_deadline_in_a_steady_zone (p : RotationPolicy) (now : time.Time) (lo hi : Z) :
  time.wf now ->
  steady (time.Location_ now) (time.Offset_ now) lo hi ->
  - 86400 <= time.Offset_ now <= 86400 ->
  lo + 2 * 86400 <= time.instant now / time.Second ->
  time.instant now / time.Second + 2 * 86400 < hi ->
  exists d,
    firstTimer (mode_of p) now = Some d /\
    time.instant now + d = time.instant (next_boundary p now (time.Offset_ now)) /\
    time.shows (next_boundary p now (time.Offset_ now)) /\
    0 < d <= period p.
Proof.
  intros Hwf Hsteady Hoff Hlo Hhi.
  pose proof (next_day_follows now Hwf) as Hnext.
  destruct Hwf as (Hy & Hm & Hd & Hh & Hmi & Hs & Hns).
  set (off := time.Offset_ now) in *. set (loc := time.Location_ now) in *.
  set (days := time.days_from_civil (time.Year now) (time.Month now) (time.Day now)) in *.
  assert (time.instant now / time.Second
          = days * 86400 + time.Hour_ now * 3600 + time.Minute_ now * 60
            + time.Second_ now - off) as Hunix.
  { unfold time.instant, time.civil_seconds, time.Second. fold days off.
    symmetry. apply (Z.div_unique_pos _ _ _ (time.Nanosecond_ now)); lia. }
  rewrite Hunix in Hlo, Hhi.
  destruct p; unfold mode_of, firstTimer; closed_tests.
  - rewrite (Date_steady loc off lo hi) by
      (first [exact Hsteady | unfold time.civil_seconds; fold days; lia]).
    eexists. split; [reflexivity |].
    unfold next_boundary, next_midnight. destruct (next_day now) as [[y' m'] d'].
    unfold time.shows, time.instant, time.Add, time.Sub, period, time.civil_seconds,
      time.Hour, time.Minute, time.Second.
    cbn [time.Year time.Month time.Day time.Hour_ time.Minute_ time.Second_
         time.Nanosecond_ time.Offset_ time.Location_].
    fold days off loc. rewrite Hnext.
    split_and!; try lia.
    apply Hsteady. lia.
  - rewrite (Date_steady loc off lo hi) by
      (first [exact Hsteady | unfold time.civil_seconds; fold days; lia]).
    eexists. split; [reflexivity |].
    unfold next_boundary, next_midnight.
    destruct (Z.ltb_spec (time.Hour_ now) 23) as [Hlt | Hge].
    + unfold time.shows, time.instant, time.Add, time.Sub, period, time.civil_seconds,
        time.Hour, time.Minute, time.Second.
      cbn [time.Year time.Month time.Day time.Hour_ time.Minute_ time.Second_
           time.Nanosecond_ time.Offset_ time.Location_].
      fold days off loc.
      split_and!; try lia.
      apply Hsteady. lia.
    + destruct (next_day now) as [[y' m'] d'].
      unfold time.shows, time.instant, time.Add, time.Sub, period, time.civil_seconds,
        time.Hour, time.Minute, time.Second.
      cbn [time.Year time.Month time.Day time.Hour_ time.Minute_ time.Second_
           time.Nanosecond_ time.Offset_ time.Location_].
      fold days off loc. rewrite Hnext.
      split_and!; try lia.
      apply Hsteady. lia.
Qed.

(** In UTC, where the offset never changes, at 10:00:05. *)
Lemma first_deadline_in_a_steady_zone_witness :
  exists d,
    firstTimer (mode_of BY_HOUR) (Sample.at_10_00 5) = Some d /\
    time.instant (Sample.at_10_00 5) + d
    = time.instant (next_boundary BY_HOUR (Sample.at_10_00 5) 0) /\
    time.shows (next_boundary BY_HOUR (Sample.at_10_00 5) 0) /\
    0 < d <= period BY_HOUR.
Proof.
  apply (first_deadline_in_a_steady_zone BY_HOUR (Sample.at_10_00 5) time.alpha time.omega).
  - valid_reading.
  - intros u _. reflexivity.
  - cbn. lia.
  - vm_compute. discriminate.
  - vm_compute. reflexivity.
Defined.

Section timer.
Context {M C : Type} `{!Serializer M} `{!Compressor C}.

Implicit Types (w : World M C).

(** A rotation deadline can always fire in a worker that runs, and a
    rotation that succeeds re-arms the timer with one full period: 24
    hours or one hour. *)
Lemma rotation_rearms_timer w (p : RotationPolicy) (t : time.Time) :
  Inv w -> panicked w = None -> running w = true -> switchMode w = mode_of p ->
  exists w',
    step w (SelectTimer t) = Some w' /\
    (panicked w' = None -> fileTimer w' = Some (period p)).
Proof.
  intros HI Halive Hrunning Hmode. unfold step.
  destruct (inv_timer w HI) as [d Hd]. rewrite Halive, Hrunning, Hd.
  rewrite bool_decide_eq_false_2 by (intros [? ?]; discriminate).
  rewrite bool_decide_eq_false_2 by discriminate.
  cbn [worker_event negb andb]. unfold case_fileTimer.
  destruct (switchFile _ _ _ _ _ _) as [[fs' lg'] [e|]]; eexists; (split; [reflexivity |]).
  - discriminate.
  - intros _. cbn [fileTimer]. rewrite Hmode. now destruct p.
Qed.

End timer.

(** C4, the code on a day with a change of offset.  The worker starts in
    New York at 10:00 on 2024-03-10, the day daylight saving time begins.
    The next midnight, 2024-03-11 00:00:00 as the clock of the zone shows
    it, is 14 hours away.  The timer the worker arms runs for 15 hours:
    [time.Date] gives the midnight that began the day, which was 9 hours
    ago, and the code adds 24 hours to it, on a day that has 23.  When the
    timer fires the clock shows 01:00:00: for an hour the records of the
    new day go to the file of the old one.  The rotation that then happens
    re-arms the timer with 24 hours, so the next one is late by that hour
    as well. *)
Example first_deadline_misses_midnight_when_the_offset_changes :
  let now := Sample.dst_morning in
  let midnight := next_boundary BY_DAY now (-4 * 3600) in
  let fired := time.mkTimeIn 2024 3 11 1 0 0 0 (-4 * 3600) Sample.New_York in
  time.wf now /\ time.shows now /\
  midnight = time.mkTimeIn 2024 3 11 0 0 0 0 (-4 * 3600) Sample.New_York /\
  time.shows midnight /\
  time.instant midnight - time.instant now = 14 * time.Hour /\
  firstTimer SWITCH_BY_DAY now = Some (15 * time.Hour) /\
  time.shows fired /\
  time.instant fired = time.instant now + 15 * time.Hour /\
  exists w0 w1 : World Sample.record bytes,
    start Sample.disk "/tmp/x" SWITCH_BY_DAY ".log" false now now = Ok w0 /\
    fileTimer w0 = Some (15 * time.Hour) /\
    step w0 (SelectTimer fired) = Some w1 /\
    panicked w1 = None /\
    fileTimer w1 = Some (24 * time.Hour).
Proof.
  cbv zeta. split; [valid_reading |].
  do 7 (split; [vm_compute; reflexivity |]).
  set (fired := time.mkTimeIn 2024 3 11 1 0 0 0 (-4 * 3600) Sample.New_York).
  assert (match start (M := Sample.record) (C := bytes) Sample.disk "/tmp/x" SWITCH_BY_DAY
                      ".log" false Sample.dst_morning Sample.dst_morning with
          | Ok w0 => (fileTimer w0,
                      (fun w1 => (panicked w1, fileTimer w1))
                        <$> step w0 (SelectTimer fired))
          | Err _ => (None, None)
          end = (Some (15 * time.Hour), Some (None, Some (24 * time.Hour)))) as Hobs
    by (vm_compute; reflexivity).
  destruct (start _ _ _ _ _ _ _) as [w0|e]; [| discriminate Hobs].
  injection Hobs as Hfirst Hnext.
  destruct (step w0 (SelectTimer fired)) as [w1|] eqn:Hstep; [| discriminate Hnext].
  injection Hnext as Halive Hrearmed.
  exists w0, w1. split_and!; [reflexivity | exact Hfirst | exact Hstep | exact Halive |
                              exact Hrearmed].
Qed.

(** ** What every reachable state satisfies *)

Section invariants.
Context {M C : Type} `{!Serializer M} `{!Compressor C}.
Implicit Types (w : World M C) (lg : L M C) (ev : event M).

Lemma closeOld_plumbing fs lg fs' lg' r :
  closeOld fs lg = (fs', lg', r) ->
  same_plumbing lg lg' /\ file lg' = file lg /\
  (is_Some (out lg) -> is_Some (out lg')).
Proof.
  unfold closeOld, same_plumbing. intros H.
  repeat case_match; simplify_eq; simpl; split_and!; eauto;
    intros [? ?]; simplify_eq.
Qed.

Lemma OpenFile_no_name fs : exists e, os.OpenFile fs "" = (fs, Err e).
Proof.
  unfold os.OpenFile. destruct (os.failing fs); [eauto |].
  rewrite bool_decide_eq_true_2 by reflexivity. eauto.
Qed.

Lemma fileName_mode base m ext now : ~ valid_mode m -> fileName base m ext now = ""%string.
Proof.
  unfold valid_mode, fileName. intros Hm.
  destruct (Z.eqb_spec m SWITCH_BY_DAY); [tauto |].
  destruct (Z.eqb_spec m SWITCH_BY_HOURS); [tauto | reflexivity].
Qed.

Lemma valid_mode_dec m : valid_mode m \/ ~ valid_mode m.
Proof. unfold valid_mode. lia. Qed.

Lemma switchFile_plumbing fs lg now m ext c fs' lg' r :
  switchFile fs lg now m ext c = (fs', lg', r) -> same_plumbing lg lg'.
Proof.
  unfold switchFile. intros H.
  destruct (statOrMkdir _ _) as [fs1 [e1|]]; [simplify_eq; repeat split |].
  destruct (os.OpenFile _ _) as [fs2 [fl|e2]]; [| simplify_eq; repeat split].
  destruct (closeOld fs2 lg) as [[fs3 lg3] r3] eqn:Hold.
  apply closeOld_plumbing in Hold as [Hp _].
  destruct r3; simplify_eq; exact Hp.
Qed.

Lemma switchFile_ok fs lg now m ext c fs' lg' :
  switchFile fs lg now m ext c = (fs', lg', None) ->
  valid_mode m /\ is_Some (out lg') /\ is_Some (file lg').
Proof.
  unfold switchFile. intros H.
  destruct (statOrMkdir _ _) as [fs1 [e1|]]; [discriminate |].
  destruct (valid_mode_dec m) as [Hm | Hm].
  - split; [exact Hm |].
    destruct (os.OpenFile _ _) as [fs2 [fl|e2]]; [| discriminate].
    destruct (closeOld fs2 lg) as [[fs3 lg3] [e3|]]; simplify_eq. simpl. eauto.
  - rewrite (fileName_mode _ _ _ _ Hm) in H.
    destruct (OpenFile_no_name fs1) as [e He]. rewrite He in H. discriminate.
Qed.

Lemma switchFile_keeps_writer fs lg now m ext c fs' lg' r :
  switchFile fs lg now m ext c = (fs', lg', r) ->
  is_Some (out lg) -> is_Some (file lg) ->
  is_Some (out lg') /\ is_Some (file lg').
Proof.
  unfold switchFile. intros H Ho Hf.
  destruct (statOrMkdir _ _) as [fs1 [e1|]]; [simplify_eq; eauto |].
  destruct (os.OpenFile _ _) as [fs2 [fl|e2]]; [| simplify_eq; eauto].
  destruct (closeOld fs2 lg) as [[fs3 lg3] r3] eqn:Hold.
  apply closeOld_plumbing in Hold as (_ & Hfile & Hout).
  destruct r3; simplify_eq; simpl; [rewrite Hfile |]; eauto.
Qed.

Lemma firstTimer_valid m now : valid_mode m -> is_Some (firstTimer m now).
Proof. intros [-> | ->]; unfold firstTimer; simpl; eauto. Qed.

Lemma nextTimer_valid m old : valid_mode m -> is_Some (nextTimer m old).
Proof. intros [-> | ->]; unfold nextTimer; simpl; eauto. Qed.

Lemma start_Inv fs0 base m suffix c now now' w :
  start fs0 base m suffix c now now' = Ok w ->
  Inv w /\ running w = true /\ panicked w = None /\ diag w = [] /\
  chan.closed (closeChan (logger w)) = false /\ chan.buf (logChan (logger w)) = [] /\
  switchMode w = m /\ fileType w = effectiveType suffix c /\ compress w = c /\
  dir (logger w) = base.
Proof.
  unfold start, New. intros H.
  destruct (statOrMkdir fs0 base) as [fs1 [e1|]]; [discriminate |].
  destruct (switchFile _ _ _ _ _ _) as [[fs2 lg2] [e2|]] eqn:Hsw; [discriminate |].
  injection H as <-.
  pose proof (switchFile_plumbing _ _ _ _ _ _ _ _ _ Hsw) as (Hd & Hl & Hc & Hw).
  pose proof (switchFile_ok _ _ _ _ _ _ _ _ Hsw) as (Hm & Ho & Hf).
  simpl in *. rewrite Hd, Hl, Hc. simpl.
  split_and!; [constructor |..]; simpl; rewrite ?Hl, ?Hc, ?Hw; simpl;
    auto using firstTimer_valid; lia.
Qed.

Lemma flush_ignoring_plumbing w :
  same_plumbing (logger w) (logger (flush_ignoring w)) /\
  file (logger (flush_ignoring w)) = file (logger w) /\
  (is_Some (out (logger w)) -> is_Some (out (logger (flush_ignoring w)))) /\
  running (flush_ignoring w) = running w /\ diag (flush_ignoring w) = diag w /\
  panicked (flush_ignoring w) = panicked w /\ fileTimer (flush_ignoring w) = fileTimer w /\
  switchMode (flush_ignoring w) = switchMode w /\ fileType (flush_ignoring w) = fileType w /\
  compress (flush_ignoring w) = compress w.
Proof.
  unfold flush_ignoring, same_plumbing.
  destruct (out (logger w)) as [o|]; [| split_and!; auto; intros [? ?]; done].
  destruct (flushWriter_Flush (fs w) o) as [[fs' o'] r]. simpl. split_and!; eauto.
Qed.

Lemma close_ignoring_plumbing w :
  logger (close_ignoring w) = logger w /\
  running (close_ignoring w) = running w /\ diag (close_ignoring w) = diag w /\
  panicked (close_ignoring w) = panicked w /\ fileTimer (close_ignoring w) = fileTimer w /\
  switchMode (close_ignoring w) = switchMode w /\ fileType (close_ignoring w) = fileType w /\
  compress (close_ignoring w) = compress w.
Proof. unfold close_ignoring. destruct (file (logger w)); simpl; repeat split. Qed.

(** What the deferred function does to everything but the files. *)
Lemma worker_deferred_plumbing w (w' := worker_deferred w) :
  running w' = false /\ diag w' = diag w /\ panicked w' = panicked w /\
  fileTimer w' = fileTimer w /\ switchMode w' = switchMode w /\
  fileType w' = fileType w /\ compress w' = compress w /\
  logChan (logger w') = logChan (logger w) /\
  closeChan (logger w') = closeChan (logger w) /\
  dir (logger w') = dir (logger w) /\
  closeWait (logger w') = (closeWait (logger w) - 1)%nat /\
  file (logger w') = file (logger w) /\
  (is_Some (out (logger w)) -> is_Some (out (logger w'))).
Proof.
  unfold worker_deferred. simpl.
  destruct (close_ignoring_plumbing (flush_ignoring w)) as (Hl & ? & ? & ? & ? & ? & ? & ?).
  destruct (flush_ignoring_plumbing w)
    as ((? & ? & ? & ?) & ? & ? & ? & ? & ? & ? & ? & ? & ?).
  rewrite Hl. split_and!; congruence || auto.
Qed.

Lemma worker_deferred_Inv w : Inv w -> running w = true -> Inv (worker_deferred w).
Proof.
  intros [] Hrun.
  destruct (worker_deferred_plumbing w)
    as (Hr & ? & ? & Ht & Hm & ? & ? & Hl & Hc & ? & Hw & Hf & Ho).
  rewrite Hrun in *.
  constructor; rewrite ?Hr, ?Hl, ?Hc, ?Ht, ?Hm, ?Hw, ?Hf; auto.
  rewrite inv_closeWait0. reflexivity.
Qed.

Lemma die_Inv w why : Inv w -> Inv (die w why).
Proof. intros []. constructor; assumption. Qed.

End invariants.

Section reachable.
Context {M C : Type} `{!Serializer M} `{!Compressor C}.
Implicit Types (w : World M C) (lg : L M C) (ev : event M).

(** A step is taken by a live process, and a worker's step by a worker
    that is in its loop. *)
Lemma step_alive w ev w' :
  step w ev = Some w' ->
  panicked w = None /\ (worker_event ev = true -> running w = true).
Proof.
  unfold step. intros H.
  destruct (panicked w) as [why|]; [discriminate |].
  split; [reflexivity |]. intros Hev. rewrite Hev in H.
  destruct (running w); [reflexivity | discriminate].
Qed.

Lemma step_dead w ev : is_Some (panicked w) -> step w ev = None.
Proof. unfold step. intros H. now rewrite bool_decide_eq_true_2. Qed.

(** The step function once its guards have been passed. *)
Lemma step_unguarded w ev :
  panicked w = None ->
  (worker_event ev = true -> running w = true) ->
  is_Some (fileTimer w) ->
  step w ev =
    match ev with
    | CallLog r =>
        match Log (logger w) r with
        | chan.Sent c => Some (with_io w (fs w) (with_logChan (logger w) c))
        | chan.SendBlocks => None
        | chan.SendPanics => Some (die w "panic: send on closed channel")
        end
    | CallClose =>
        match Close_close (logger w) with
        | chan.Closed c => Some (with_io w (fs w) (with_closeChan (logger w) c))
        | chan.ClosePanics => Some (die w "panic: close of closed channel")
        end
    | SelectLog => case_logChan w
    | SelectFlush => case_flushTicker w
    | SelectTimer now => case_fileTimer w now
    | SelectClose => case_closeChan w
    | Device b => Some (with_io w (os.set_failing (fs w) b) (logger w))
    end.
Proof.
  intros Halive Hrun [t Ht]. unfold step.
  rewrite Halive, Ht.
  rewrite bool_decide_eq_false_2 by (intros [? ?]; discriminate).
  rewrite (bool_decide_eq_false_2 (Some t = None)) by discriminate.
  rewrite andb_false_r.
  destruct (worker_event ev) eqn:Hev; [rewrite Hrun by reflexivity |]; reflexivity.
Qed.

Lemma step_Inv w ev w' : Inv w -> step w ev = Some w' -> Inv w'.
Proof.
  intros HI Hstep.
  destruct (step_alive _ _ _ Hstep) as [Halive Hrun].
  rewrite (step_unguarded w ev Halive Hrun (inv_timer w HI)) in Hstep.
  destruct HI. destruct ev as [r| | | |now| |b]; simpl in Hrun.
  - (* Log *)
    unfold Log, chan.send in Hstep. rewrite inv_logChan_open0, inv_logChan_cap0 in Hstep.
    destruct (Nat.ltb_spec (length (chan.buf (logChan (logger w)))) 1000);
      [| discriminate].
    injection Hstep as <-. constructor; simpl; auto.
    rewrite length_app. simpl. lia.
  - (* Close *)
    unfold Close_close, chan.close in Hstep.
    destruct (chan.closed (closeChan (logger w))); injection Hstep as <-;
      constructor; simpl; auto.
  - (* a record arrives *)
    unfold case_logChan, chan.recv in Hstep.
    destruct (chan.buf (logChan (logger w))) as [|r q] eqn:Hq;
      [destruct (chan.closed (logChan (logger w))); discriminate |].
    destruct (out (logger w)) as [o|]; [| discriminate].
    destruct (Encode (fs w) o _ r) as [[[fs' o'] enc'] [err|]]; injection Hstep as <-;
      constructor; simpl in *; eauto; lia.
  - (* flush tick *)
    injection Hstep as <-.
    destruct (flush_ignoring_plumbing w)
      as ((? & Hl & Hc & Hw) & Hf & Ho & Hr & ? & ? & Ht & Hm & ? & ?).
    constructor; rewrite ?Hl, ?Hc, ?Hw, ?Hr, ?Ht, ?Hm, ?Hf; auto.
  - (* rotation *)
    unfold case_fileTimer in Hstep.
    destruct (switchFile _ _ _ _ _ _) as [[fs' lg'] r] eqn:Hsw.
    pose proof (switchFile_plumbing _ _ _ _ _ _ _ _ _ Hsw) as (Hd & Hl & Hc & Hw).
    pose proof (switchFile_keeps_writer _ _ _ _ _ _ _ _ _ Hsw inv_out0 inv_file0)
      as [Ho Hf].
    assert (Inv (mkWorld fs' lg' (switchMode w) (fileType w) (compress w)
                         (fileTimer w) (running w) (diag w) (panicked w))) as HI'
      by (constructor; simpl; rewrite ?Hl, ?Hc, ?Hw; auto).
    destruct r; injection Hstep as <-.
    + apply die_Inv, worker_deferred_Inv; [exact HI' | simpl; auto].
    + destruct HI'. constructor; simpl in *; auto using nextTimer_valid.
  - (* shutdown *)
    unfold case_closeChan in Hstep.
    destruct (chan.recv _); try discriminate. injection Hstep as <-.
    apply worker_deferred_Inv; [constructor; auto | auto].
  - (* device *)
    injection Hstep as <-. constructor; simpl; auto.
Qed.

Lemma run_Inv es : forall w w', Inv w -> run w es = Some w' -> Inv w'.
Proof.
  induction es as [|ev es IH]; simpl; intros w w' HI Hrun.
  - now injection Hrun as <-.
  - destruct (step w ev) as [w1|] eqn:Hstep; [| discriminate].
    eapply IH; [eapply step_Inv |]; eassumption.
Qed.

Lemma run_app es1 es2 w :
  run w (es1 ++ es2) = match run w es1 with Some w1 => run w1 es2 | None => None end.
Proof.
  revert w. induction es1 as [|ev es1 IH]; simpl; intros w; [reflexivity |].
  destruct (step w ev); [apply IH | reflexivity].
Qed.

(** Once closed, [closeChan] stays closed. *)
Lemma step_closeChan_closed w ev w' :
  step w ev = Some w' ->
  chan.closed (closeChan (logger w)) = true ->
  chan.closed (closeChan (logger w')) = true.
Proof.
  unfold step. intros Hstep Hc.
  destruct (bool_decide _); [discriminate |].
  destruct (_ && negb _); [discriminate |].
  destruct (_ && bool_decide _).
  { injection Hstep as <-. unfold die; cbn [logger].
    destruct (worker_deferred_plumbing w) as (_ & _ & _ & _ & _ & _ & _ & _ & -> & _).
    exact Hc. }
  destruct ev as [r| | | |now| |b].
  - unfold Log in Hstep. destruct (chan.send _ _); simplify_eq; exact Hc.
  - unfold Close_close, chan.close in Hstep. rewrite Hc in Hstep. simplify_eq. exact Hc.
  - unfold case_logChan in Hstep. repeat case_match; simplify_eq; exact Hc.
  - injection Hstep as <-.
    destruct (flush_ignoring_plumbing w) as ((_ & _ & -> & _) & _). exact Hc.
  - unfold case_fileTimer in Hstep.
    destruct (switchFile _ _ _ _ _ _) as [[fs' lg'] r] eqn:Hsw.
    pose proof (switchFile_plumbing _ _ _ _ _ _ _ _ _ Hsw) as (_ & _ & Hcc & _).
    destruct r; injection Hstep as <-; [| simpl; congruence].
    unfold die; cbn [logger].
    match goal with |- context [worker_deferred ?x] =>
      destruct (worker_deferred_plumbing x) as (_ & _ & _ & _ & _ & _ & _ & _ & -> & _)
    end. simpl. congruence.
  - unfold case_closeChan in Hstep. destruct (chan.recv _); simplify_eq.
    destruct (worker_deferred_plumbing w) as (_ & _ & _ & _ & _ & _ & _ & _ & -> & _).
    exact Hc.
  - injection Hstep as <-. exact Hc.
Qed.

Lemma run_closeChan_closed es : forall w w',
  run w es = Some w' ->
  chan.closed (closeChan (logger w)) = true ->
  chan.closed (closeChan (logger w')) = true.
Proof.
  induction es as [|ev es IH]; simpl; intros w w' Hrun Hc.
  - now injection Hrun as <-.
  - destruct (step w ev) as [w1|] eqn:Hstep; [| discriminate].
    eapply IH; [eassumption | eapply step_closeChan_closed; eassumption].
Qed.

(** A call of [Close] that the process survives closes [closeChan]. *)
Lemma step_CallClose w w' :
  step w CallClose = Some w' -> panicked w' = None ->
  chan.closed (closeChan (logger w')) = true.
Proof.
  unfold step. intros Hstep Halive.
  destruct (bool_decide _); [discriminate |]. simpl in Hstep.
  unfold Close_close, chan.close in Hstep.
  destruct (chan.closed (closeChan (logger w))); injection Hstep as <-;
    [discriminate Halive | reflexivity].
Qed.

Lemma run_alive es : forall w w',
  run w es = Some w' -> panicked w' = None -> panicked w = None.
Proof.
  induction es as [|ev es IH]; simpl; intros w w' Hrun Halive.
  - now injection Hrun as <-.
  - destruct (step w ev) as [w1|] eqn:Hstep; [| discriminate].
    now destruct (step_alive _ _ _ Hstep).
Qed.

Lemma run_calls_Close es : forall w w',
  run w es = Some w' -> panicked w' = None -> calls_Close es = true ->
  chan.closed (closeChan (logger w')) = true.
Proof.
  induction es as [|ev es IH]; simpl; intros w w' Hrun Halive Hcalls; [discriminate |].
  destruct (step w ev) as [w1|] eqn:Hstep; [| discriminate].
  destruct (calls_Close es) eqn:Hrest.
  - eapply IH; eauto.
  - rewrite orb_false_r in Hcalls. destruct ev; try discriminate.
    eapply run_closeChan_closed; [eassumption |].
    eapply step_CallClose; [eassumption |].
    eapply run_alive; eassumption.
Qed.

End reachable.

(** ** Submitting and closing *)

Section interface.
Context {M C : Type} `{!Serializer M} `{!Compressor C}.
Implicit Types (w : World M C) (lg : L M C) (ev : event M).

(** C8.  In every state the process can reach, [Log] has two outcomes
    only: with fewer than 1000 records queued the send completes and the
    record joins the end of the queue, nothing else changing and nothing
    being reported; with 1000 queued the call blocks.  It never panics,
    because [logChan] is never closed, and the queue never exceeds 1000. *)
Theorem Log_blocks_only_when_full fs0 base m suffix c now now' w0 es w (r : M) :
  start fs0 base m suffix c now now' = Ok w0 ->
  run w0 es = Some w ->
  let queue := chan.buf (logChan (logger w)) in
  (length queue <= 1000)%nat /\
  Log (logger w) r =
    (if (length queue <? 1000)%nat
     then chan.Sent (chan.mk (queue ++ [r]) 1000 false)
     else chan.SendBlocks) /\
  (panicked w = None ->
   step w (CallLog r) =
     if (length queue <? 1000)%nat
     then Some (with_io w (fs w)
                  (with_logChan (logger w) (chan.mk (queue ++ [r]) 1000 false)))
     else None).
Proof.
  intros Hstart Hrun queue.
  destruct (start_Inv _ _ _ _ _ _ _ _ Hstart) as (HI0 & _).
  pose proof (run_Inv es w0 w HI0 Hrun) as HI.
  assert (Log (logger w) r =
          if (length queue <? 1000)%nat
          then chan.Sent (chan.mk (queue ++ [r]) 1000 false)
          else chan.SendBlocks) as HLog.
  { unfold Log, chan.send.
    now rewrite (inv_logChan_open w HI), (inv_logChan_cap w HI). }
  split; [exact (inv_logChan_len w HI) |]. split; [exact HLog |].
  intros Halive.
  rewrite (step_unguarded w (CallLog r) Halive) by (discriminate || apply HI).
  rewrite HLog. now destruct (length queue <? 1000)%nat.
Qed.

(** C10.  Once [Close] has been called, calling it again panics: the
    second [close(logger.closeChan)] closes a closed channel and the
    process dies. *)
Theorem second_Close_panics fs0 base m suffix c now now' w0 es w :
  start fs0 base m suffix c now now' = Ok w0 ->
  run w0 es = Some w ->
  calls_Close es = true ->
  panicked w = None ->
  Close_close (logger w) = chan.ClosePanics /\
  step w CallClose = Some (die w "panic: close of closed channel") /\
  forall ev, step (die w "panic: close of closed channel") ev = None.
Proof.
  intros Hstart Hrun Hcalls Halive.
  destruct (start_Inv _ _ _ _ _ _ _ _ Hstart) as (HI0 & _).
  pose proof (run_Inv es w0 w HI0 Hrun) as HI.
  pose proof (run_calls_Close es w0 w Hrun Halive Hcalls) as Hclosed.
  assert (Close_close (logger w) = chan.ClosePanics) as HC
    by (unfold Close_close, chan.close; now rewrite Hclosed).
  split; [exact HC |]. split.
  - rewrite (step_unguarded w CallClose Halive) by (discriminate || apply HI).
    now rewrite HC.
  - intros ev. apply step_dead. simpl. eauto.
Qed.

End interface.

Lemma second_Close_panics_witness :
  exists w,
    scenario false [CallLog Sample.a1; CallClose; SelectClose] = Some w /\
    Close_close (logger w) = chan.ClosePanics /\
    step w CallClose = Some (die w "panic: close of closed channel") /\
    forall ev, step (die w "panic: close of closed channel") ev = None.
Proof.
  reached false [CallLog Sample.a1; CallClose; SelectClose] w Hw.
  exists w. split; [reflexivity |].
  assert (panicked <$> scenario false [CallLog Sample.a1; CallClose; SelectClose]
          = Some None) as Hp by (vm_compute; reflexivity).
  rewrite Hw in Hp. injection Hp as Hp.
  from_start Hw w0 Hstart.
  exact (second_Close_panics _ _ _ _ _ _ _ w0 _ w Hstart Hw eq_refl Hp).
Defined.

(** ** Failures inside the worker *)

Section failures.
Context {M C : Type} `{!Serializer M} `{!Compressor C}.
Implicit Types (w : World M C) (lg : L M C) (ev : event M).

Lemma lines_app (rs1 rs2 : list M) : lines (rs1 ++ rs2) = lines rs1 ++ lines rs2.
Proof. unfold lines. now rewrite map_app, concat_app. Qed.

Lemma lines_cons (r : M) (rs : list M) : lines (r :: rs) = line r ++ lines rs.
Proof. reflexivity. Qed.

(** C5.  When the record at the head of the queue cannot be serialized
    (the encoder being in working order), the worker's receive prints one
    [log failed:] line with the error and goes on: the record has left the
    queue and is not queued again, the file system, the writer and the
    encoder are as before, the rest of the queue is untouched, and the
    worker is still in its loop.  The record adds nothing to the output
    stream, whatever records surround it. *)
Theorem serialization_failure_is_dropped w (r : M) (q : list M) o err :
  panicked w = None ->
  running w = true ->
  is_Some (fileTimer w) ->
  chan.buf (logChan (logger w)) = r :: q ->
  out (logger w) = Some o ->
  json.err (encoder (logger w)) = None ->
  Marshal r = Err err ->
  (exists w',
      step w SelectLog = Some w' /\
      diag w' = diag w ++ ["log failed: " +:+ Error err] /\
      fs w' = fs w /\ out (logger w') = Some o /\
      encoder (logger w') = encoder (logger w) /\ file (logger w') = file (logger w) /\
      chan.buf (logChan (logger w')) = q /\
      running w' = true /\ panicked w' = None /\ fileTimer w' = fileTimer w) /\
  (forall rs1 rs2, lines (rs1 ++ r :: rs2) = lines (rs1 ++ rs2)).
Proof.
  intros Halive Hrun Htimer Hq Ho Henc Herr. split.
  - rewrite (step_unguarded w SelectLog Halive (fun _ => Hrun) Htimer).
    unfold case_logChan, chan.recv, Encode. rewrite Hq, Ho, Henc, Herr.
    eexists. split; [reflexivity |]. simpl. auto 10.
  - intros rs1 rs2. rewrite !lines_app, lines_cons.
    unfold line at 1. now rewrite Herr.
Qed.

(** C6.  When [switchFile] fails at a rotation deadline, the worker
    panics with the error: its deferred function runs, the process dies,
    and nothing happens afterwards. *)
Theorem rotation_failure_panics w now fs' lg' err :
  panicked w = None ->
  running w = true ->
  is_Some (fileTimer w) ->
  switchFile (fs w) (logger w) now (switchMode w) (fileType w) (compress w)
    = (fs', lg', Some err) ->
  exists w',
    step w (SelectTimer now) = Some w' /\
    panicked w' = Some ("panic: " +:+ Error err) /\
    running w' = false /\
    forall ev, step w' ev = None.
Proof.
  intros Halive Hrun Htimer Hsw.
  rewrite (step_unguarded w (SelectTimer now) Halive (fun _ => Hrun) Htimer).
  unfold case_fileTimer. rewrite Hsw.
  eexists. split; [reflexivity |]. split; [reflexivity |]. split.
  - unfold die; cbn [running].
    match goal with |- context [worker_deferred ?x] =>
      now destruct (worker_deferred_plumbing x) as (-> & _) end.
  - intros ev. apply step_dead. simpl. eauto.
Qed.

(** A failing device makes [switchFile] fail: the directory cannot be
    inspected. *)
Lemma switchFile_failing_device (fs0 : os.FS) lg now m ext c :
  os.failing fs0 = true -> switchFile fs0 lg now m ext c = (fs0, lg, Some EIO).
Proof.
  intros Hf. unfold switchFile, statOrMkdir, os.Stat. now rewrite Hf.
Qed.

End failures.

Lemma serialization_failure_is_dropped_witness :
  exists w o,
    scenario false [CallLog Sample.bad; CallLog Sample.a2] = Some w /\
    out (logger w) = Some o /\
    (exists w',
        step w SelectLog = Some w' /\
        diag w' = diag w ++ ["log failed: json: unsupported type: chan int"%string] /\
        fs w' = fs w /\ out (logger w') = Some o /\
        encoder (logger w') = encoder (logger w) /\ file (logger w') = file (logger w) /\
        chan.buf (logChan (logger w')) = [Sample.a2] /\
        running w' = true /\ panicked w' = None /\ fileTimer w' = fileTimer w) /\
    (forall rs1 rs2, lines (rs1 ++ Sample.bad :: rs2) = lines (rs1 ++ rs2)).
Proof.
  reached false [CallLog Sample.bad; CallLog Sample.a2] w Hw.
  assert (panicked <$> scenario false [CallLog Sample.bad; CallLog Sample.a2]
          = Some None) as Hp by (vm_compute; reflexivity).
  assert (running <$> scenario false [CallLog Sample.bad; CallLog Sample.a2]
          = Some true) as Hr by (vm_compute; reflexivity).
  assert (fileTimer <$> scenario false [CallLog Sample.bad; CallLog Sample.a2]
          = Some (Some 3600000000000)) as Ht by (vm_compute; reflexivity).
  assert ((fun w => chan.buf (logChan (logger w)))
            <$> scenario false [CallLog Sample.bad; CallLog Sample.a2]
          = Some [Sample.bad; Sample.a2]) as Hq by (vm_compute; reflexivity).
  assert ((fun w => bool_decide (is_Some (out (logger w))))
            <$> scenario false [CallLog Sample.bad; CallLog Sample.a2]
          = Some true) as Ho by (vm_compute; reflexivity).
  assert ((fun w => json.err (encoder (logger w)))
            <$> scenario false [CallLog Sample.bad; CallLog Sample.a2]
          = Some None) as He by (vm_compute; reflexivity).
  rewrite Hw in Hp, Hr, Ht, Hq, Ho, He.
  injection Hp as Hp. injection Hr as Hr. injection Ht as Ht. injection Hq as Hq.
  injection Ho as Ho. injection He as He.
  destruct (out (logger w)) as [o|] eqn:Hout; [| discriminate Ho].
  exists w, o. split; [reflexivity |]. split; [exact Hout |].
  apply (serialization_failure_is_dropped w Sample.bad [Sample.a2] o
           (ErrMarshal "json: unsupported type: chan int") Hp Hr);
    [rewrite Ht; eauto | exact Hq | exact Hout | exact He | reflexivity].
Defined.

Lemma rotation_failure_panics_witness :
  exists w w',
    scenario false [CallLog Sample.a1; Device true] = Some w /\
    switchFile (fs w) (logger w) (Sample.at_10_00 1) (switchMode w) (fileType w) (compress w)
      = (fs w, logger w, Some EIO) /\
    step w (SelectTimer (Sample.at_10_00 1)) = Some w' /\
    panicked w' = Some ("panic: " +:+ Error EIO) /\
    running w' = false /\
    forall ev, step w' ev = None.
Proof.
  reached false [CallLog Sample.a1; Device true] w Hw.
  assert (panicked <$> scenario false [CallLog Sample.a1; Device true] = Some None)
    as Hp by (vm_compute; reflexivity).
  assert (running <$> scenario false [CallLog Sample.a1; Device true] = Some true)
    as Hr by (vm_compute; reflexivity).
  assert (fileTimer <$> scenario false [CallLog Sample.a1; Device true]
          = Some (Some 3600000000000)) as Ht by (vm_compute; reflexivity).
  assert ((fun w => os.failing (fs w)) <$> scenario false [CallLog Sample.a1; Device true]
          = Some true) as Hf by (vm_compute; reflexivity).
  rewrite Hw in Hp, Hr, Ht, Hf.
  injection Hp as Hp. injection Hr as Hr. injection Ht as Ht. injection Hf as Hf.
  pose proof (switchFile_failing_device (fs w) (logger w) (Sample.at_10_00 1)
                (switchMode w) (fileType w) (compress w) Hf) as Hsw.
  destruct (rotation_failure_panics w (Sample.at_10_00 1) (fs w) (logger w) EIO Hp Hr)
    as (w' & Hstep); [rewrite Ht; eauto | exact Hsw |].
  exists w, w'. split; [reflexivity |]. split; [exact Hsw | exact Hstep].
Defined.

(** ** Shutdown *)

Section shutdown.
Context {M C : Type} `{!Serializer M} `{!Compressor C}.
Implicit Types (w : World M C) (lg : L M C) (ev : event M).

(** The deferred function leaves the logger's file closed. *)
Lemma worker_deferred_releases w f :
  file (logger w) = Some f -> os.opened (fs (worker_deferred w)) !! f = None.
Proof.
  intros Hf. unfold worker_deferred. cbn [fs].
  destruct (flush_ignoring_plumbing w) as (_ & Hfile & _).
  unfold close_ignoring. rewrite Hfile, Hf. cbn [fs with_io].
  unfold os.Close.
  destruct (os.opened (fs (flush_ignoring w)) !! f) eqn:Hopen; cbn [fst os.opened].
  - apply lookup_delete_eq.
  - exact Hopen.
Qed.

(** C9, as the code has it.  Once [closeChan] is closed the worker can
    take its shutdown case, and doing so always completes: the deferred
    function flushes the writer and closes the file, dropping whatever
    either call returns (nothing is printed to the diagnostic sink), the
    file's descriptor is released, the wait group is released and
    [Close] returns. *)
Theorem shutdown_completes_silently fs0 base m suffix c now now' w0 es w :
  start fs0 base m suffix c now now' = Ok w0 ->
  run w0 es = Some w ->
  panicked w = None ->
  running w = true ->
  chan.closed (closeChan (logger w)) = true ->
  step w SelectClose = Some (worker_deferred w) /\
  Close_returned (worker_deferred w) /\
  running (worker_deferred w) = false /\
  diag (worker_deferred w) = diag w /\
  (forall f, file (logger w) = Some f ->
             os.opened (fs (worker_deferred w)) !! f = None).
Proof.
  intros Hstart Hrun Halive Hrunning Hclosed.
  destruct (start_Inv _ _ _ _ _ _ _ _ Hstart) as (HI0 & _).
  pose proof (run_Inv es w0 w HI0 Hrun) as HI.
  destruct (worker_deferred_plumbing w)
    as (Hr & Hd & Hp & _ & _ & _ & _ & _ & Hc & _ & Hw & _).
  split.
  - rewrite (step_unguarded w SelectClose Halive (fun _ => Hrunning) (inv_timer w HI)).
    unfold case_closeChan, chan.recv.
    now rewrite (inv_closeChan_empty w HI), Hclosed.
  - split; [| split; [exact Hr | split; [exact Hd | apply worker_deferred_releases]]].
    unfold Close_returned, Close_Wait.
    rewrite Hp, Hc, Hw, (inv_closeWait w HI), Hrunning. auto.
Qed.

End shutdown.

Lemma shutdown_completes_silently_witness :
  exists w,
    scenario false [CallLog Sample.a1; SelectLog; CallClose] = Some w /\
    step w SelectClose = Some (worker_deferred w) /\
    Close_returned (worker_deferred w) /\
    running (worker_deferred w) = false /\
    diag (worker_deferred w) = diag w /\
    (forall f, file (logger w) = Some f ->
               os.opened (fs (worker_deferred w)) !! f = None).
Proof.
  reached false [CallLog Sample.a1; SelectLog; CallClose] w Hw.
  assert (panicked <$> scenario false [CallLog Sample.a1; SelectLog; CallClose]
          = Some None) as Hp by (vm_compute; reflexivity).
  assert (running <$> scenario false [CallLog Sample.a1; SelectLog; CallClose]
          = Some true) as Hr by (vm_compute; reflexivity).
  assert ((fun w => chan.closed (closeChan (logger w)))
            <$> scenario false [CallLog Sample.a1; SelectLog; CallClose]
          = Some true) as Hc by (vm_compute; reflexivity).
  rewrite Hw in Hp, Hr, Hc. injection Hp as Hp. injection Hr as Hr. injection Hc as Hc.
  exists w. split; [reflexivity |].
  from_start Hw w0 Hstart.
  exact (shutdown_completes_silently _ _ _ _ _ _ _ w0 _ w Hstart Hw Hp Hr Hc).
Defined.

(** C9, as the claim has it, fails.  The device fails before the shutdown:
    the deferred flush and the close both return an I/O error, [Close]
    returns, and the diagnostic sink has received nothing. *)
Lemma shutdown_failures_are_not_reported :
  exists w w' o f,
    scenario false [CallLog Sample.a1; SelectLog; Device true; CallClose] = Some w /\
    out (logger w) = Some o /\ file (logger w) = Some f /\
    snd (flushWriter_Flush (fs w) o) = Some EIO /\
    snd (os.Close (fs (flush_ignoring w)) f) = Some EIO /\
    step w SelectClose = Some w' /\
    Close_returned w' /\
    diag w' = [].
Proof.
  reached false [CallLog Sample.a1; SelectLog; Device true; CallClose] w Hw.
  set (es := [CallLog Sample.a1; SelectLog; Device true; CallClose]) in *.
  assert ((fun w => match out (logger w), file (logger w) with
                    | Some o, Some f =>
                        Some (snd (flushWriter_Flush (fs w) o),
                              snd (os.Close (fs (flush_ignoring w)) f))
                    | _, _ => None
                    end) <$> scenario false es
          = Some (Some (Some EIO, Some EIO))) as Hio by (vm_compute; reflexivity).
  assert ((fun w => match step w SelectClose with
                    | Some w' => Some (panicked w', chan.closed (closeChan (logger w')),
                                       Close_Wait (logger w'), diag w')
                    | None => None
                    end) <$> scenario false es
          = Some (Some (None, true, true, []))) as Hend by (vm_compute; reflexivity).
  rewrite Hw in Hio, Hend. cbn [fmap option_fmap option_map] in Hio, Hend.
  injection Hio as Hio. injection Hend as Hend.
  destruct (out (logger w)) as [o|] eqn:Ho; [| discriminate Hio].
  destruct (file (logger w)) as [f|] eqn:Hf; [| discriminate Hio].
  destruct (step w SelectClose) as [w'|] eqn:Hstep; [| discriminate Hend].
  injection Hio as Hflush Hclose. injection Hend as Hpanic Hclosed Hwait Hdiag.
  exists w, w', o, f. unfold Close_returned. split_and!; reflexivity || assumption.
Qed.

(** C1, as the claim has it, fails.  A record is submitted, [Close] is
    called, and the worker's select takes the shutdown case while the record
    is still queued: [Close] returns, the only destination file is empty
    and the record is still in the queue. *)
Lemma close_does_not_drain :
  exists w,
    scenario false [CallLog Sample.a1; CallClose; SelectClose] = Some w /\
    submitted [CallLog Sample.a1; CallClose; SelectClose] = [Sample.a1] /\
    Close_returned w /\
    map_to_list (os.files (fs w)) = [("/tmp/x/2024-03-09/10.log"%string, [])] /\
    chan.buf (logChan (logger w)) = [Sample.a1].
Proof.
  reached false [CallLog Sample.a1; CallClose; SelectClose] w Hw.
  assert ((fun w => (panicked w, chan.closed (closeChan (logger w)),
                     Close_Wait (logger w), map_to_list (os.files (fs w)),
                     chan.buf (logChan (logger w))))
            <$> scenario false [CallLog Sample.a1; CallClose; SelectClose]
          = Some (None, true, true, [("/tmp/x/2024-03-09/10.log"%string, [])],
                  [Sample.a1])) as Hobs by (vm_compute; reflexivity).
  rewrite Hw in Hobs. injection Hobs as Hpanic Hclosed Hwait Hfiles Hq.
  exists w. unfold Close_returned. split_and!; reflexivity || assumption.
Qed.

Lemma Log_blocks_only_when_full_witness :
  exists w,
    scenario false [CallLog Sample.a1] = Some w /\
    let queue := chan.buf (logChan (logger w)) in
    (length queue <= 1000)%nat /\
    Log (logger w) Sample.a2 =
      (if (length queue <? 1000)%nat
       then chan.Sent (chan.mk (queue ++ [Sample.a2]) 1000 false)
       else chan.SendBlocks) /\
    (panicked w = None ->
     step w (CallLog Sample.a2) =
       if (length queue <? 1000)%nat
       then Some (with_io w (fs w)
                    (with_logChan (logger w) (chan.mk (queue ++ [Sample.a2]) 1000 false)))
       else None).
Proof.
  reached false [CallLog Sample.a1] w Hw.
  exists w. split; [reflexivity |].
  from_start Hw w0 Hstart.
  exact (Log_blocks_only_when_full _ _ _ _ _ _ _ w0 _ w Sample.a2 Hstart Hw).
Defined.

(** ** The buffered writer on a healthy device *)

Lemma with_files_same (fs : os.FS) : with_files fs (os.files fs) = fs.
Proof. now destruct fs. Qed.

Lemma appended_nothing (fs : os.FS) (name : string) :
  is_Some (os.files fs !! name) -> appended fs name [] fs.
Proof.
  intros [c Hc]. unfold appended, os.contents. rewrite Hc. simpl.
  rewrite app_nil_r, insert_id by exact Hc. symmetry. apply with_files_same.
Qed.

Lemma appended_contents (fs fs' : os.FS) (name : string) (data : bytes) :
  appended fs name data fs' -> os.contents fs' name = os.contents fs name ++ data.
Proof. intros ->. unfold os.contents at 1. simpl. now rewrite lookup_insert_eq. Qed.

Lemma appended_trans (fs fs1 fs2 : os.FS) (name : string) (d1 d2 : bytes) :
  appended fs name d1 fs1 -> appended fs1 name d2 fs2 -> appended fs name (d1 ++ d2) fs2.
Proof.
  intros H1 H2. unfold appended in H2.
  rewrite (appended_contents _ _ _ _ H1) in H2. rewrite H1 in H2. rewrite H2.
  unfold appended, with_files. simpl. now rewrite insert_insert_eq, app_assoc.
Qed.

Lemma appended_ok (fs fs' : os.FS) (name : string) (data : bytes) (b b' : bufio.Writer) :
  appended fs name data fs' ->
  bufio_ok fs b name ->
  bufio.err b' = None -> bufio.wr b' = bufio.wr b ->
  (length (bufio.buf b') <= bufio.defaultBufSize)%nat ->
  bufio_ok fs' b' name.
Proof.
  intros -> (_ & _ & Ho & _ & Hf) He Hw Hl. unfold bufio_ok. simpl.
  rewrite He, Hw, lookup_insert_eq. eauto.
Qed.

Lemma os_Write_healthy (fs : os.FS) (f : os.File) (name : string) (data : bytes) :
  os.opened fs !! f = Some name -> os.failing fs = false ->
  exists fs', os.Write fs f data = (fs', None) /\ appended fs name data fs'.
Proof.
  intros Ho Hf. unfold os.Write. rewrite Ho, Hf.
  eexists. split; [reflexivity |].
  unfold appended, with_files. now rewrite Hf.
Qed.

Lemma bufio_Flush_healthy (fs : os.FS) (b : bufio.Writer) (name : string) :
  bufio_ok fs b name ->
  exists fs',
    bufio.Flush fs b = (fs', bufio.mk None [] (bufio.wr b), None) /\
    appended fs name (bufio.buf b) fs'.
Proof.
  intros (He & Hl & Ho & Hfile & Hf). unfold bufio.Flush, bufio.Buffered. rewrite He.
  destruct b as [e buf f]. simpl in *. subst e.
  destruct buf as [|x buf]; simpl.
  - exists fs. split; [reflexivity | now apply appended_nothing].
  - destruct (os_Write_healthy fs f name (x :: buf) Ho Hf) as (fs' & -> & Happ).
    exists fs'. split; [reflexivity | exact Happ].
Qed.

Lemma bufio_Write_loop_nil (k : nat) (fs : os.FS) (b : bufio.Writer) :
  bufio.Write_loop k fs b [] = (fs, b, []).
Proof. destruct k; [reflexivity |]. simpl. reflexivity. Qed.

Lemma bufio_Write_loop_S (k : nat) (fs : os.FS) (b : bufio.Writer) (p : bytes) :
  bufio.Write_loop (S k) fs b p =
    if (bufio.Available b <? length p)%nat && bool_decide (bufio.err b = None) then
      if (bufio.Buffered b =? 0)%nat then
        match os.Write fs (bufio.wr b) p with
        | (fs', Some e) =>
            bufio.Write_loop k fs' (bufio.mk (Some e) (bufio.buf b) (bufio.wr b)) p
        | (fs', None) => bufio.Write_loop k fs' b []
        end
      else
        let n := bufio.Available b in
        let '(fs', b', _) :=
          bufio.Flush fs (bufio.mk (bufio.err b) (bufio.buf b ++ take n p) (bufio.wr b)) in
        bufio.Write_loop k fs' b' (drop n p)
    else (fs, b, p).
Proof. reflexivity. Qed.

(** The loop of [Write] on a healthy device: it ends within two rounds
    with the rest of [p] fitting the buffer, and nothing is lost: what went
    to the file, what is buffered and what is left make up what was
    buffered and [p]. *)
Lemma bufio_Write_loop_healthy (k : nat) (fs : os.FS) (b : bufio.Writer)
    (name : string) (p : bytes) :
  bufio_ok fs b name ->
  exists fs' b' p' d,
    bufio.Write_loop (S (S k)) fs b p = (fs', b', p') /\
    appended fs name d fs' /\ bufio_ok fs' b' name /\ bufio.wr b' = bufio.wr b /\
    d ++ bufio.buf b' ++ p' = bufio.buf b ++ p /\
    (length (bufio.buf b' ++ p') <= bufio.defaultBufSize)%nat.
Proof.
  intros Hok. pose proof Hok as (He & Hl & Ho & Hfile & Hf).
  rewrite bufio_Write_loop_S. unfold bufio.Available, bufio.Buffered.
  rewrite He. rewrite (bool_decide_eq_true_2 (None = None)) by reflexivity.
  rewrite andb_true_r.
  destruct (Nat.ltb_spec (bufio.defaultBufSize - length (bufio.buf b)) (length p))
    as [Hbig | Hfits].
  - destruct (Nat.eqb_spec (length (bufio.buf b)) 0) as [Hempty | Hsome].
    + (* empty buffer: one direct write *)
      destruct (os_Write_healthy fs (bufio.wr b) name p Ho Hf) as (fs' & -> & Happ).
      rewrite bufio_Write_loop_nil.
      exists fs', b, [], p. apply nil_length_inv in Hempty.
      split; [reflexivity |]. split; [exact Happ |].
      split; [eapply appended_ok; eauto |]. split; [reflexivity |].
      rewrite Hempty. simpl. rewrite app_nil_r. split; [reflexivity | lia].
    + (* fill the buffer, flush it, go round once more *)
      set (n := (bufio.defaultBufSize - length (bufio.buf b))%nat) in *.
      set (b1 := bufio.mk None (bufio.buf b ++ take n p) (bufio.wr b)).
      assert (bufio_ok fs b1 name) as Hok1.
      { unfold bufio_ok, b1. simpl. rewrite length_app, length_take.
        split_and!; auto. lia. }
      destruct (bufio_Flush_healthy fs b1 name Hok1) as (fs1 & Hflush1 & Happ1).
      rewrite Hflush1. cbn [bufio.wr b1] in *.
      set (b2 := bufio.mk None [] (bufio.wr b)) in *.
      assert (bufio_ok fs1 b2 name) as Hok2
        by (eapply appended_ok; eauto; simpl; lia).
      rewrite bufio_Write_loop_S. unfold bufio.Available, bufio.Buffered.
      cbn [bufio.err bufio.buf bufio.wr b2 length].
      rewrite (bool_decide_eq_true_2 (None = None)) by reflexivity.
      rewrite andb_true_r, Nat.sub_0_r.
      destruct (Nat.ltb_spec bufio.defaultBufSize (length (drop n p))) as [Hbig2 | Hfits2].
      * simpl Nat.eqb. cbv iota.
        pose proof Hok2 as (_ & _ & Ho2 & _ & Hf2).
        destruct (os_Write_healthy fs1 (bufio.wr b2) name (drop n p) Ho2 Hf2)
          as (fs2 & Hw2 & Happ2).
        cbn [bufio.wr b2] in Hw2. rewrite Hw2, bufio_Write_loop_nil.
        exists fs2, b2, [], ((bufio.buf b ++ take n p) ++ drop n p).
        split; [reflexivity |].
        split; [eapply appended_trans; eauto |].
        split; [eapply appended_ok; eauto; simpl; lia |].
        split; [reflexivity |]. simpl.
        rewrite !app_nil_r, <- app_assoc, take_drop. split; [reflexivity | lia].
      * exists fs1, b2, (drop n p), (bufio.buf b ++ take n p).
        split; [reflexivity |]. split; [exact Happ1 |].
        split; [exact Hok2 |]. split; [reflexivity |]. simpl.
        rewrite <- app_assoc, take_drop. split; [reflexivity | lia].
  - exists fs, b, p, []. split; [reflexivity |].
    split; [now apply appended_nothing |]. split; [exact Hok |].
    split; [reflexivity |]. split; [reflexivity |]. rewrite length_app. lia.
Qed.

(** [Write] on a healthy device never fails and never loses a byte. *)
Lemma bufio_Write_healthy (fs : os.FS) (b : bufio.Writer) (name : string) (p : bytes) :
  bufio_ok fs b name ->
  exists fs' b' d,
    bufio.Write fs b p = (fs', b', None) /\
    appended fs name d fs' /\ bufio_ok fs' b' name /\ bufio.wr b' = bufio.wr b /\
    d ++ bufio.buf b' = bufio.buf b ++ p.
Proof.
  intros Hok. unfold bufio.Write.
  destruct (bufio_Write_loop_healthy 1 fs b name p Hok)
    as (fs' & b' & p' & d & -> & Happ & Hok' & Hwr & Hsum & Hlen).
  pose proof Hok' as (He' & _). rewrite He'.
  exists fs', (bufio.mk None (bufio.buf b' ++ p') (bufio.wr b')), d.
  split; [reflexivity |]. split; [exact Happ |].
  split; [eapply appended_ok; eauto |]. split; [exact Hwr |]. exact Hsum.
Qed.

(** ** Files only grow *)

Lemma os_Close_files (fs0 : os.FS) (f : os.File) :
  os.files (fst (os.Close fs0 f)) = os.files fs0.
Proof. unfold os.Close. now destruct (os.opened fs0 !! f). Qed.

Lemma grows_refl (fs0 : os.FS) : grows fs0 fs0.
Proof. intros name c Hc. exists []. now rewrite app_nil_r. Qed.

Lemma grows_trans (fs0 fs1 fs2 : os.FS) : grows fs0 fs1 -> grows fs1 fs2 -> grows fs0 fs2.
Proof.
  intros H1 H2 name c Hc.
  destruct (H1 name c Hc) as [d1 Hd1]. destruct (H2 name _ Hd1) as [d2 Hd2].
  exists (d1 ++ d2). now rewrite app_assoc.
Qed.

Lemma grows_same_files (fs0 fs1 : os.FS) : os.files fs1 = os.files fs0 -> grows fs0 fs1.
Proof. intros Heq name c Hc. exists []. now rewrite Heq, app_nil_r. Qed.

Lemma os_Write_grows (fs0 : os.FS) (f : os.File) (data : bytes) :
  grows fs0 (fst (os.Write fs0 f data)).
Proof.
  unfold os.Write.
  destruct (os.opened fs0 !! f) as [path|]; [| apply grows_refl].
  destruct (os.failing fs0); [apply grows_refl |].
  intros name c Hc. cbn. destruct (decide (path = name)) as [-> | Hne].
  - rewrite lookup_insert_eq, Hc. simpl. eauto.
  - rewrite lookup_insert_ne by exact Hne. exists []. now rewrite app_nil_r.
Qed.

Lemma os_OpenFile_grows (fs0 : os.FS) (path : string) :
  grows fs0 (fst (os.OpenFile fs0 path)).
Proof.
  unfold os.OpenFile. repeat case_match; try apply grows_refl.
  intros name c Hc. cbn. destruct (decide (path = name)) as [-> | Hne].
  - rewrite lookup_insert_eq, Hc. simpl. exists []. now rewrite app_nil_r.
  - rewrite lookup_insert_ne by exact Hne. exists []. now rewrite app_nil_r.
Qed.

Lemma os_Close_grows (fs0 : os.FS) (f : os.File) : grows fs0 (fst (os.Close fs0 f)).
Proof. apply grows_same_files. apply os_Close_files. Qed.

Lemma os_Mkdir_grows (fs0 : os.FS) (path : string) : grows fs0 (fst (os.Mkdir fs0 path)).
Proof. apply grows_same_files. unfold os.Mkdir. now repeat case_match. Qed.

Lemma bufio_Flush_grows (fs0 : os.FS) (b : bufio.Writer) :
  grows fs0 (fst (fst (bufio.Flush fs0 b))).
Proof.
  unfold bufio.Flush. destruct (bufio.err b); [apply grows_refl |].
  destruct (bufio.Buffered b =? 0)%nat; [apply grows_refl |].
  pose proof (os_Write_grows fs0 (bufio.wr b) (bufio.buf b)) as H.
  destruct (os.Write fs0 (bufio.wr b) (bufio.buf b)) as [fs' [e|]]; exact H.
Qed.

Lemma bufio_Write_loop_grows (k : nat) :
  forall (fs0 : os.FS) (b : bufio.Writer) (p : bytes),
    grows fs0 (fst (fst (bufio.Write_loop k fs0 b p))).
Proof.
  induction k as [|k IH]; intros fs0 b p; [apply grows_refl |].
  rewrite bufio_Write_loop_S.
  destruct (_ && _); [| apply grows_refl].
  destruct (bufio.Buffered b =? 0)%nat.
  - pose proof (os_Write_grows fs0 (bufio.wr b) p) as H.
    destruct (os.Write fs0 (bufio.wr b) p) as [fs' [e|]];
      (eapply grows_trans; [exact H | apply IH]).
  - cbv zeta.
    match goal with |- context [bufio.Flush fs0 ?b1] =>
      pose proof (bufio_Flush_grows fs0 b1) as H;
      destruct (bufio.Flush fs0 b1) as [[fs' b'] e]
    end.
    eapply grows_trans; [exact H | apply IH].
Qed.

Lemma bufio_Write_grows (fs0 : os.FS) (b : bufio.Writer) (p : bytes) :
  grows fs0 (fst (fst (bufio.Write fs0 b p))).
Proof.
  unfold bufio.Write.
  pose proof (bufio_Write_loop_grows 3 fs0 b p) as H.
  destruct (bufio.Write_loop 3 fs0 b p) as [[fs' b'] p'].
  destruct (bufio.err b'); exact H.
Qed.

Section grows.
Context {M C : Type} `{!Serializer M} `{!Compressor C}.
Implicit Types (w : World M C) (lg : L M C) (ev : event M).

Lemma gzip_Write_grows (fs0 : os.FS) (z : gzip.Writer C) (p : bytes) :
  grows fs0 (fst (fst (gzip.Write fs0 z p))).
Proof.
  unfold gzip.Write. destruct (gzip.err z); [apply grows_refl |].
  destruct (gzip.wroteHeader z).
  - destruct (gzip.err z); [apply grows_refl |].
    destruct (flate_Write (gzip.compressor z) p) as [c' emitted].
    pose proof (bufio_Write_grows fs0 (gzip.w z) emitted) as H.
    now destruct (bufio.Write fs0 (gzip.w z) emitted) as [[fs2 w2] e].
  - pose proof (bufio_Write_grows fs0 (gzip.w z) gzip.header) as H1.
    destruct (bufio.Write fs0 (gzip.w z) gzip.header) as [[fs1 w1] e1].
    cbn [gzip.err gzip.compressor gzip.w].
    destruct e1; [exact H1 |].
    destruct (flate_Write (gzip.compressor z) p) as [c' emitted].
    pose proof (bufio_Write_grows fs1 w1 emitted) as H2.
    destruct (bufio.Write fs1 w1 emitted) as [[fs2 w2] e].
    eapply grows_trans; [exact H1 | exact H2].
Qed.

Lemma gzip_Flush_grows (fs0 : os.FS) (z : gzip.Writer C) :
  grows fs0 (fst (fst (gzip.Flush fs0 z))).
Proof.
  unfold gzip.Flush. destruct (gzip.err z); [apply grows_refl |].
  assert (exists fs1 z1,
             (if gzip.wroteHeader z then (fs0, z)
              else let '(fs', z', _) := gzip.Write fs0 z [] in (fs', z')) = (fs1, z1) /\
             grows fs0 fs1) as (fs1 & z1 & -> & H1).
  { destruct (gzip.wroteHeader z); [eauto using grows_refl |].
    pose proof (gzip_Write_grows fs0 z []) as H.
    destruct (gzip.Write fs0 z []) as [[fs' z'] e]. eauto. }
  destruct (gzip.err z1); [exact H1 |].
  destruct (flate_Flush (gzip.compressor z1)) as [c' emitted].
  pose proof (bufio_Write_grows fs1 (gzip.w z1) emitted) as H2.
  destruct (bufio.Write fs1 (gzip.w z1) emitted) as [[fs2 w2] e].
  eapply grows_trans; [exact H1 | exact H2].
Qed.

Lemma flushWriter_Write_grows (fs0 : os.FS) (o : flushWriter C) (p : bytes) :
  grows fs0 (fst (fst (flushWriter_Write fs0 o p))).
Proof.
  destruct o as [b | z]; cbn [flushWriter_Write].
  - pose proof (bufio_Write_grows fs0 b p) as H.
    now destruct (bufio.Write fs0 b p) as [[fs' b'] e].
  - pose proof (gzip_Write_grows fs0 z p) as H.
    now destruct (gzip.Write fs0 z p) as [[fs' z'] e].
Qed.

Lemma flushWriter_Flush_grows (fs0 : os.FS) (o : flushWriter C) :
  grows fs0 (fst (fst (flushWriter_Flush fs0 o))).
Proof.
  destruct o as [b | z]; cbn [flushWriter_Flush].
  - pose proof (bufio_Flush_grows fs0 b) as H.
    now destruct (bufio.Flush fs0 b) as [[fs' b'] e].
  - pose proof (gzip_Flush_grows fs0 z) as H.
    now destruct (gzip.Flush fs0 z) as [[fs' z'] e].
Qed.

Lemma statOrMkdir_grows (fs0 : os.FS) (path : string) :
  grows fs0 (fst (statOrMkdir fs0 path)).
Proof.
  unfold statOrMkdir. destruct (os.Stat fs0 path) as [e|]; [| apply grows_refl].
  destruct (IsNotExist e); [apply os_Mkdir_grows | apply grows_refl].
Qed.

Lemma closeOld_grows (fs0 : os.FS) lg : grows fs0 (fst (fst (closeOld fs0 lg))).
Proof.
  unfold closeOld.
  destruct (file lg) as [old|]; [| apply grows_refl].
  destruct (out lg) as [o|]; [| apply grows_refl].
  pose proof (flushWriter_Flush_grows fs0 o) as H1.
  destruct (flushWriter_Flush fs0 o) as [[fs1 o1] [e|]]; [exact H1 |].
  pose proof (os_Close_grows fs1 old) as H2.
  destruct (os.Close fs1 old) as [fs2 [e|]]; eapply grows_trans; eauto.
Qed.

Lemma switchFile_grows (fs0 : os.FS) lg now m ext c :
  grows fs0 (fst (fst (switchFile fs0 lg now m ext c))).
Proof.
  unfold switchFile.
  pose proof (statOrMkdir_grows fs0 (dirName (dir lg) m now)) as H1.
  destruct (statOrMkdir _ _) as [fs1 [e1|]]; [exact H1 |].
  pose proof (os_OpenFile_grows fs1 (fileName (dir lg) m ext now)) as H2.
  destruct (os.OpenFile _ _) as [fs2 [fl|e2]]; [| eapply grows_trans; eauto].
  pose proof (closeOld_grows fs2 lg) as H3.
  destruct (closeOld fs2 lg) as [[fs3 lg3] [e3|]];
    (eapply grows_trans; [exact H1 | eapply grows_trans; [exact H2 | exact H3]]).
Qed.

Lemma flush_ignoring_grows w : grows (fs w) (fs (flush_ignoring w)).
Proof.
  unfold flush_ignoring. destruct (out (logger w)) as [o|]; [| apply grows_refl].
  pose proof (flushWriter_Flush_grows (fs w) o) as H.
  now destruct (flushWriter_Flush (fs w) o) as [[fs' o'] e].
Qed.

Lemma worker_deferred_grows w : grows (fs w) (fs (worker_deferred w)).
Proof.
  unfold worker_deferred. cbn [fs].
  eapply grows_trans; [apply flush_ignoring_grows |].
  unfold close_ignoring. destruct (file (logger (flush_ignoring w))) as [f|];
    [apply os_Close_grows | apply grows_refl].
Qed.

(** No step of the process removes or shortens a file, whatever the
    compression, the schedule and the failures of the device. *)
Lemma step_grows w ev w' : step w ev = Some w' -> grows (fs w) (fs w').
Proof.
  unfold step. intros Hstep.
  destruct (bool_decide _); [discriminate |].
  destruct (_ && negb _); [discriminate |].
  destruct (_ && bool_decide _).
  { injection Hstep as <-. apply worker_deferred_grows. }
  destruct ev as [r| | | |now| |broken].
  - unfold Log in Hstep. destruct (chan.send _ _); simplify_eq; apply grows_refl.
  - unfold Close_close in Hstep. destruct (chan.close _); simplify_eq; apply grows_refl.
  - unfold case_logChan in Hstep.
    destruct (chan.recv _) as [r c| |]; try discriminate.
    destruct (out (logger w)) as [o|]; [| discriminate].
    assert (grows (fs w) (fst (fst (fst (Encode (fs w) o (encoder (logger w)) r))))) as H.
    { unfold Encode. destruct (json.err _); [apply grows_refl |].
      destruct (Marshal r) as [text|e]; [| apply grows_refl].
      pose proof (flushWriter_Write_grows (fs w) o (text ++ ["010"%char])) as H.
      now destruct (flushWriter_Write _ _ _) as [[fs' o'] e]. }
    destruct (Encode _ _ _ _) as [[[fs' o'] enc'] [e|]]; simplify_eq; exact H.
  - injection Hstep as <-. apply flush_ignoring_grows.
  - unfold case_fileTimer in Hstep.
    pose proof (switchFile_grows (fs w) (logger w) now (switchMode w) (fileType w)
                  (compress w)) as H.
    destruct (switchFile _ _ _ _ _ _) as [[fs' lg'] [e|]]; injection Hstep as <-;
      [| exact H].
    eapply grows_trans; [exact H |].
    match goal with |- grows _ (fs (die (worker_deferred ?x) _)) =>
      exact (worker_deferred_grows x) end.
  - unfold case_closeChan in Hstep. destruct (chan.recv _); simplify_eq.
    apply worker_deferred_grows.
  - injection Hstep as <-. apply grows_same_files. reflexivity.
Qed.

Lemma run_grows es : forall w w', run w es = Some w' -> grows (fs w) (fs w').
Proof.
  induction es as [|ev es IH]; simpl; intros w w' Hrun.
  - injection Hrun as <-. apply grows_refl.
  - destruct (step w ev) as [w1|] eqn:Hstep; [| discriminate].
    eapply grows_trans; [eapply step_grows; eassumption | apply IH; assumption].
Qed.

(** Nor does [New]. *)
Lemma start_grows fs0 base m suffix c now now' w :
  start fs0 base m suffix c now now' = Ok w -> grows fs0 (fs w).
Proof.
  unfold start, New. intros H.
  pose proof (statOrMkdir_grows fs0 base) as H1.
  destruct (statOrMkdir fs0 base) as [fs1 [e1|]]; [discriminate |].
  match type of H with context [switchFile fs1 ?lg ?t ?mo ?ex ?co] =>
    pose proof (switchFile_grows fs1 lg t mo ex co) as H2;
    destruct (switchFile fs1 lg t mo ex co) as [[fs2 lg2] [e2|]]
  end; [discriminate |].
  injection H as <-. eapply grows_trans; eauto.
Qed.

End grows.

(** ** The logger refines the unbuffered one *)

Section refinement.
Context {M C : Type} `{!Serializer M} `{!Compressor C}.
Implicit Types (w : World M C) (lg : L M C) (ev : event M) (u : Unbuffered M).

Lemma insert_contents (fs0 : os.FS) (name : string) :
  is_Some (os.files fs0 !! name) ->
  <[name := os.contents fs0 name ++ []]> (os.files fs0) = os.files fs0.
Proof.
  intros [c Hc]. unfold os.contents. rewrite Hc. simpl.
  rewrite app_nil_r. now apply insert_id.
Qed.

(** Appending [d] to the file and leaving [buf'] in the buffer, where
    [d ++ buf' = buf ++ x], is appending [x] to the file seen through the
    buffer. *)
Lemma view_after_append (fs0 fs' : os.FS) (name : string) (d buf buf' x : bytes) :
  appended fs0 name d fs' ->
  d ++ buf' = buf ++ x ->
  <[name := os.contents fs' name ++ buf']> (os.files fs')
  = append_to (<[name := os.contents fs0 name ++ buf]> (os.files fs0)) name x.
Proof.
  intros Happ Hsum. rewrite (appended_contents _ _ _ _ Happ). rewrite Happ.
  unfold append_to. simpl. rewrite lookup_insert_eq. simpl.
  rewrite !insert_insert_eq, <- !app_assoc. now rewrite Hsum.
Qed.

Lemma append_to_nothing (files : gmap string bytes) (name : string) :
  is_Some (files !! name) -> append_to files name [] = files.
Proof.
  intros [c Hc]. unfold append_to. rewrite Hc. simpl.
  rewrite app_nil_r. now apply insert_id.
Qed.

Lemma appended_frame (fs0 fs' : os.FS) (name : string) (d : bytes) :
  appended fs0 name d fs' ->
  os.dirs fs' = os.dirs fs0 /\ os.opened fs' = os.opened fs0 /\
  os.next fs' = os.next fs0 /\ os.failing fs' = os.failing fs0.
Proof. intros ->. simpl. auto. Qed.

(** The flush of a working writer empties the buffer into the file. *)
Lemma flush_ignoring_agrees w u b :
  writes_through w u b ->
  writes_through (flush_ignoring w) u (bufio.mk None [] (bufio.wr b)) /\
  u_files u = os.files (fs (flush_ignoring w)).
Proof.
  intros (Ho & Hf & Henc & Hok & Hnext & Hfiles).
  destruct (bufio_Flush_healthy (fs w) b (u_current u) Hok) as (fs' & Hflush & Happ).
  unfold flush_ignoring. rewrite Ho. cbn [flushWriter_Flush]. rewrite Hflush.
  assert (bufio_ok fs' (bufio.mk None [] (bufio.wr b)) (u_current u)) as Hok'
    by (eapply appended_ok; eauto; simpl; lia).
  destruct (appended_frame _ _ _ _ Happ) as (_ & _ & Hn & _).
  assert (u_files u = os.files fs') as Hsame.
  { rewrite Hfiles, Happ. simpl. reflexivity. }
  split; [| exact Hsame].
  unfold writes_through. cbn.
  split_and!; auto; [rewrite Hn; exact Hnext |].
  rewrite Hsame. symmetry. apply insert_contents. apply Hok'.
Qed.

Lemma statOrMkdir_frame (fs0 fs1 : os.FS) (name : string) (r : option error) :
  statOrMkdir fs0 name = (fs1, r) ->
  os.files fs1 = os.files fs0 /\ os.opened fs1 = os.opened fs0 /\
  os.next fs1 = os.next fs0 /\ os.failing fs1 = os.failing fs0.
Proof.
  unfold statOrMkdir, os.Stat, os.Mkdir. intros H.
  repeat case_match; simplify_eq; simpl; auto.
Qed.

Lemma OpenFile_ok (fs1 fs2 : os.FS) (name : string) (fl : os.File) :
  os.OpenFile fs1 name = (fs2, Ok fl) ->
  fl = os.next fs1 /\ os.files fs2 = opened_for_append (os.files fs1) name /\
  os.opened fs2 = <[fl := name]> (os.opened fs1) /\
  os.next fs2 = S (os.next fs1) /\ os.failing fs2 = os.failing fs1.
Proof.
  unfold os.OpenFile. intros H.
  repeat case_match; simplify_eq; simpl; auto.
Qed.

(** A record arrives. *)
Lemma case_logChan_agrees base mode ext w u w' :
  agrees base mode ext w u ->
  running w = true ->
  case_logChan w = Some w' ->
  agrees base mode ext w' (unbuffered_step base mode ext u SelectLog).
Proof.
  intros (Halive & Hc & Hf & Hd & Hm & Ht & Hq & Hrun) Hrunning Hcase.
  rewrite Hrunning in Hrun.
  destruct Hrun as (b & Ho & Hfile & Henc & Hok & Hnext & Hfiles).
  unfold case_logChan, chan.recv in Hcase. rewrite Hq, Ho in Hcase.
  cbn [unbuffered_step].
  destruct (u_queue u) as [|r q];
    [destruct (chan.closed (logChan (logger w))); discriminate |].
  unfold Encode in Hcase. rewrite Henc in Hcase. unfold line.
  destruct (Marshal r) as [text | err].
  - cbn [flushWriter_Write] in Hcase.
    destruct (bufio_Write_healthy (fs w) b (u_current u) (text ++ ["010"%char]) Hok)
      as (fs' & b' & d & Hwrite & Happ & Hok' & Hwr & Hsum).
    rewrite Hwrite in Hcase. injection Hcase as <-.
    destruct (appended_frame _ _ _ _ Happ) as (_ & _ & Hn & Hfail).
    unfold agrees. cbn. rewrite Hrunning.
    split_and!; auto; [congruence |].
    exists b'. unfold writes_through. cbn.
    split_and!; auto; [congruence | congruence |].
    rewrite Hfiles. symmetry. eapply view_after_append; eauto.
  - injection Hcase as <-.
    unfold agrees. cbn. rewrite Hrunning.
    split_and!; auto.
    exists b. unfold writes_through. cbn.
    split_and!; auto.
    rewrite append_to_nothing; [exact Hfiles |].
    rewrite Hfiles, lookup_insert_eq. eauto.
Qed.

Lemma opened_for_append_insert (files : gmap string bytes) (cur name : string) (x : bytes) :
  opened_for_append (<[cur := x]> files) name = <[cur := x]> (opened_for_append files name).
Proof.
  unfold opened_for_append. destruct (decide (cur = name)) as [-> | Hne].
  - rewrite lookup_insert_eq. simpl. now rewrite !insert_insert_eq.
  - rewrite lookup_insert_ne by exact Hne. apply insert_insert_ne. congruence.
Qed.

Lemma opened_for_append_default (files : gmap string bytes) (name k : string) :
  default [] (opened_for_append files name !! k) = default [] (files !! k).
Proof.
  unfold opened_for_append. destruct (decide (name = k)) as [-> | Hne].
  - now rewrite lookup_insert_eq.
  - now rewrite lookup_insert_ne.
Qed.

Lemma opened_for_append_is_Some (files : gmap string bytes) (name k : string) :
  is_Some (files !! k) \/ k = name -> is_Some (opened_for_append files name !! k).
Proof.
  unfold opened_for_append. destruct (decide (name = k)) as [-> | Hne].
  - rewrite lookup_insert_eq. eauto.
  - rewrite lookup_insert_ne by exact Hne. intros [H | H]; [exact H | congruence].
Qed.

(** A rotation that succeeds. *)
Lemma case_fileTimer_agrees base mode ext w u w' now :
  agrees base mode ext w u ->
  running w = true ->
  case_fileTimer w now = Some w' ->
  panicked w' = None ->
  agrees base mode ext w' (unbuffered_step base mode ext u (SelectTimer now)).
Proof.
  intros (Halive & Hc & Hf & Hd & Hm & Ht & Hq & Hrun) Hrunning Hcase Halive'.
  rewrite Hrunning in Hrun.
  destruct Hrun as (b & Ho & Hfile & Henc & Hok & Hnext & Hfiles).
  pose proof Hok as (Herr & Hlen & Hopen & Hsome & _).
  unfold case_fileTimer in Hcase.
  destruct (switchFile _ _ _ _ _ _) as [[fs' lg'] [e|]] eqn:Hsw;
    injection Hcase as <-; [discriminate Halive' |].
  unfold switchFile in Hsw. rewrite Hd, Hm, Ht, Hc in Hsw.
  set (name := fileName base mode ext now) in *.
  destruct (statOrMkdir _ _) as [fs1 [e1|]] eqn:Hstat; [discriminate |].
  destruct (statOrMkdir_frame _ _ _ _ Hstat) as (Hfiles1 & Hopen1 & Hnext1 & Hfail1).
  destruct (os.OpenFile fs1 name) as [fs2 [fl|e2]] eqn:Hopenf; [| discriminate].
  destruct (OpenFile_ok _ _ _ _ Hopenf) as (Hfl & Hfiles2 & Hopen2 & Hnext2 & Hfail2).
  assert (bufio.wr b <> fl) as Hfresh by (rewrite Hfl, Hnext1; lia).
  assert (bufio_ok fs2 b (u_current u)) as Hok2.
  { unfold bufio_ok. split_and!; auto.
    - rewrite Hopen2, lookup_insert_ne, Hopen1 by congruence. exact Hopen.
    - rewrite Hfiles2, Hfiles1. apply opened_for_append_is_Some. auto.
    - congruence. }
  destruct (bufio_Flush_healthy fs2 b (u_current u) Hok2) as (fs3 & Hflush & Happ).
  destruct (appended_frame _ _ _ _ Happ) as (_ & Hopen3 & Hnext3 & Hfail3).
  unfold closeOld in Hsw. rewrite Hfile, Ho in Hsw. cbn [flushWriter_Flush] in Hsw.
  rewrite Hflush in Hsw. unfold os.Close in Hsw.
  assert (os.opened fs3 !! bufio.wr b = Some (u_current u)) as Hopenb
    by (rewrite Hopen3; apply Hok2).
  assert (os.failing fs3 = false) as Hhealthy by congruence.
  rewrite Hopenb, Hhealthy in Hsw. injection Hsw as <- <-.
  assert (os.files fs3 = <[u_current u := os.contents (fs w) (u_current u) ++ bufio.buf b]>
                           (opened_for_append (os.files (fs w)) name)) as Hfiles3.
  { rewrite Happ. simpl. unfold os.contents.
    now rewrite Hfiles2, Hfiles1, opened_for_append_default. }
  unfold agrees. cbn. rewrite Hrunning.
  split_and!; auto.
  exists (bufio.NewWriter fl). unfold writes_through. cbn.
  assert (is_Some (os.files fs3 !! name)) as Hnew.
  { rewrite Hfiles3. destruct (decide (u_current u = name)) as [-> | Hne].
    - rewrite lookup_insert_eq. eauto.
    - rewrite lookup_insert_ne by exact Hne. apply opened_for_append_is_Some. auto. }
  split_and!; auto.
  - unfold bufio_ok. cbn. split_and!; auto; [lia |].
    rewrite lookup_delete_ne, Hopen3, Hopen2 by exact Hfresh.
    apply lookup_insert_eq.
  - rewrite Hnext3, Hnext2, Hfl. lia.
  - destruct Hnew as [cn Hcn]. unfold os.contents. cbn. fold name. rewrite Hcn. simpl.
    rewrite app_nil_r, insert_id by exact Hcn.
    now rewrite Hfiles3, Hfiles, opened_for_append_insert.
Qed.

Lemma os_Close_frame (fs0 : os.FS) (f : os.File) :
  os.files (fst (os.Close fs0 f)) = os.files fs0 /\
  os.failing (fst (os.Close fs0 f)) = os.failing fs0.
Proof. unfold os.Close. destruct (os.opened fs0 !! f); simpl; auto. Qed.

(** The worker returns: the buffer is flushed, the file closed. *)
Lemma worker_deferred_agrees base mode ext w u :
  agrees base mode ext w u ->
  running w = true ->
  agrees base mode ext (worker_deferred w) u.
Proof.
  intros (Halive & Hc & Hf & Hd & Hm & Ht & Hq & Hrun) Hrunning.
  rewrite Hrunning in Hrun. destruct Hrun as (b & Hthrough).
  destruct (flush_ignoring_agrees w u b Hthrough) as ((_ & _ & _ & Hok & _) & Hfiles).
  destruct (worker_deferred_plumbing w)
    as (Hr & _ & Hp & _ & Hm' & Ht' & Hc' & Hl & _ & Hd' & _).
  assert (os.files (fs (worker_deferred w)) = os.files (fs (flush_ignoring w)) /\
          os.failing (fs (worker_deferred w)) = os.failing (fs (flush_ignoring w)))
    as [Hfiles' Hfail'].
  { unfold worker_deferred, close_ignoring. cbn [fs].
    destruct (file (logger (flush_ignoring w))); [apply os_Close_frame | auto]. }
  destruct Hthrough as (_ & Hfile & _).
  unfold agrees. rewrite Hr, Hp, Hm', Ht', Hc', Hl, Hd', Hfiles', Hfail'.
  split_and!; auto; [apply Hok |].
  intros f Hf'. apply worker_deferred_releases.
  destruct (worker_deferred_plumbing w) as (_ & _ & _ & _ & _ & _ & _ & _ & _ & _ & _ & <- & _).
  exact Hf'.
Qed.

Lemma set_failing_same (fs0 : os.FS) : os.set_failing fs0 (os.failing fs0) = fs0.
Proof. now destruct fs0. Qed.

Lemma with_io_same w : with_io w (fs w) (logger w) = w.
Proof. now destruct w. Qed.

(** Every step of the process on a healthy device that leaves it alive is
    a step of the unbuffered logger. *)
Lemma step_agrees base mode ext w u ev w' :
  Inv w ->
  agrees base mode ext w u ->
  step w ev = Some w' ->
  panicked w' = None ->
  ev <> Device true ->
  agrees base mode ext w' (unbuffered_step base mode ext u ev).
Proof.
  intros HI Hagrees Hstep Halive' Hev.
  destruct (step_alive _ _ _ Hstep) as [Halive Hrun].
  rewrite (step_unguarded w ev Halive Hrun (inv_timer w HI)) in Hstep.
  destruct ev as [r| | | |now| |broken]; simpl in Hrun.
  - (* Log *)
    unfold Log, chan.send in Hstep.
    rewrite (inv_logChan_open w HI) in Hstep.
    destruct (_ <? _)%nat; [| discriminate]. injection Hstep as <-.
    destruct Hagrees as (? & ? & ? & ? & ? & ? & Hq & Hfiles).
    unfold agrees. cbn. rewrite Hq. split_and!; auto.
  - (* Close *)
    unfold Close_close, chan.close in Hstep.
    destruct (chan.closed (closeChan (logger w))); injection Hstep as <-;
      [discriminate Halive' |].
    exact Hagrees.
  - apply case_logChan_agrees with (w := w); auto.
  - (* flush tick *)
    injection Hstep as <-.
    destruct Hagrees as (? & Hc & ? & Hd & Hm & Ht & Hq & Hthrough).
    rewrite Hrun in Hthrough by reflexivity. destruct Hthrough as (b & Hthrough).
    destruct (flush_ignoring_agrees w u b Hthrough) as (Hthrough' & _).
    destruct (flush_ignoring_plumbing w)
      as ((Hd' & Hl & _) & _ & _ & Hr & _ & Hp & _ & Hm' & Ht' & Hc').
    unfold agrees. cbn [unbuffered_step].
    rewrite Hr, Hp, Hm', Ht', Hc', Hl, Hd', Hrun by reflexivity.
    split_and!; auto; [apply Hthrough' | eauto].
  - apply case_fileTimer_agrees with (w := w); auto.
  - (* shutdown *)
    unfold case_closeChan in Hstep.
    destruct (chan.recv _); try discriminate. injection Hstep as <-.
    apply worker_deferred_agrees; auto.
  - (* device *)
    destruct broken; [congruence |].
    destruct Hagrees as (Ha & Hc & Hf & Hrest).
    rewrite <- Hf, set_failing_same, with_io_same in Hstep.
    injection Hstep as <-. unfold agrees. auto.
Qed.

Lemma run_agrees base mode ext es : forall w u w',
  Inv w ->
  agrees base mode ext w u ->
  run w es = Some w' ->
  panicked w' = None ->
  healthy es = true ->
  agrees base mode ext w' (unbuffered_run base mode ext u es).
Proof.
  induction es as [|ev es IH]; intros w u w' HI Hagrees Hrun Halive Hhealthy.
  - injection Hrun as <-. exact Hagrees.
  - simpl in Hrun, Hhealthy. apply andb_prop in Hhealthy as [Hev Hes].
    destruct (step w ev) as [w1|] eqn:Hstep; [| discriminate].
    apply (IH w1); auto.
    + eapply step_Inv; eassumption.
    + eapply step_agrees; eauto.
      * eapply run_alive; eassumption.
      * intros ->. discriminate Hev.
Qed.

Lemma statOrMkdir_healthy (fs0 fs1 : os.FS) (name : string) :
  statOrMkdir fs0 name = (fs1, None) -> os.failing fs0 = false.
Proof.
  unfold statOrMkdir, os.Stat. destruct (os.failing fs0); [discriminate | reflexivity].
Qed.

(** A logger that starts without compression agrees with the unbuffered
    logger started on the same files. *)
Lemma start_agrees fs0 base mode suffix now now' w0 :
  start fs0 base mode suffix false now now' = Ok w0 ->
  agrees base mode suffix w0 (unbuffered_start (os.files fs0) base mode suffix now).
Proof.
  unfold start, New. cbn [effectiveType]. intros Hstart.
  destruct (statOrMkdir fs0 base) as [fs1 [e1|]] eqn:Hbase; [discriminate |].
  pose proof (statOrMkdir_healthy _ _ _ Hbase) as Hhealthy.
  destruct (statOrMkdir_frame _ _ _ _ Hbase) as (Hfiles1 & _ & _ & Hfail1).
  destruct (switchFile _ _ _ _ _ _) as [[fs2 lg2] [e2|]] eqn:Hsw; [discriminate |].
  injection Hstart as <-.
  unfold switchFile in Hsw. cbn [dir] in Hsw.
  set (name := fileName base mode suffix now) in *.
  destruct (statOrMkdir fs1 _) as [fs1' [e1|]] eqn:Hstat; [discriminate |].
  destruct (statOrMkdir_frame _ _ _ _ Hstat) as (Hfiles1' & _ & _ & Hfail1').
  destruct (os.OpenFile fs1' name) as [fs2' [fl|e2]] eqn:Hopenf; [| discriminate].
  destruct (OpenFile_ok _ _ _ _ Hopenf) as (Hfl & Hfiles2 & Hopen2 & Hnext2 & Hfail2).
  cbn in Hsw. injection Hsw as <- <-.
  unfold agrees, unbuffered_start. cbn. fold name.
  split_and!; auto; [congruence |].
  exists (bufio.NewWriter fl). unfold writes_through. cbn. fold name.
  assert (is_Some (os.files fs2' !! name)) as [cn Hcn]
    by (rewrite Hfiles2; apply opened_for_append_is_Some; auto).
  split_and!; auto.
  - unfold bufio_ok. cbn. split_and!; eauto; try lia; try congruence.
    rewrite Hopen2. apply lookup_insert_eq.
  - lia.
  - unfold os.contents. rewrite Hcn. simpl.
    rewrite app_nil_r, insert_id by exact Hcn. congruence.
Qed.

End refinement.

(** ** Naming *)

Section naming.
Context {M C : Type} `{!Serializer M} `{!Compressor C}.

(** A [switchFile] that succeeds leaves a file at the path it computed. *)
Lemma switchFile_creates (fs0 fs' : os.FS) (lg lg' : L M C) now m ext c :
  switchFile fs0 lg now m ext c = (fs', lg', None) ->
  is_Some (os.files fs' !! fileName (dir lg) m ext now).
Proof.
  unfold switchFile. intros H.
  destruct (statOrMkdir _ _) as [fs1 [e1|]]; [discriminate |].
  destruct (os.OpenFile _ _) as [fs2 [fl|e2]] eqn:Hopen; [| discriminate].
  destruct (OpenFile_ok _ _ _ _ Hopen) as (_ & Hfiles & _).
  pose proof (closeOld_grows fs2 lg) as Hgrows.
  destruct (closeOld fs2 lg) as [[fs3 lg3] [e3|]]; simplify_eq.
  assert (is_Some (os.files fs2 !! fileName (dir lg) m ext now)) as [c0 Hc0]
    by (rewrite Hfiles; apply opened_for_append_is_Some; auto).
  destruct (Hgrows _ _ Hc0) as [d Hd]. cbn in Hd. eauto.
Qed.

(** C3.  At every valid clock reading the path that [switchFile] computes,
    and at which it opens the destination file, is
    [<base>/<YYYY-MM>/<DD><suffix>] under BY_DAY and
    [<base>/<YYYY-MM-DD>/<HH><suffix>] under BY_HOUR, with the year in four
    digits and month, day and hour in two, zero-padded; with compression
    on, [.gz] follows the suffix. *)
Theorem fileName_destination (base suffix : string) (p : RotationPolicy)
    (compress : bool) (now : time.Time) :
  time.wf now ->
  fileName base (mode_of p) (effectiveType suffix compress) now
  = destination base p suffix compress now /\
  (forall (fs0 fs' : os.FS) (lg lg' : L M C),
      dir lg = base ->
      switchFile fs0 lg now (mode_of p) (effectiveType suffix compress) compress
        = (fs', lg', None) ->
      is_Some (os.files fs' !! destination base p suffix compress now)).
Proof.
  intros Hwf.
  pose proof (fileName_layout base suffix p compress now Hwf) as Hlayout.
  split; [exact Hlayout |].
  intros fs0 fs' lg lg' Hdir Hsw.
  rewrite <- Hlayout, <- Hdir. eapply switchFile_creates. exact Hsw.
Qed.

End naming.

Lemma fileName_destination_witness :
  fileName "/tmp/x" (mode_of BY_HOUR) (effectiveType ".log" true) (Sample.at_10_00 5)
  = destination "/tmp/x" BY_HOUR ".log" true (Sample.at_10_00 5) /\
  destination "/tmp/x" BY_HOUR ".log" true (Sample.at_10_00 5)
  = "/tmp/x/2024-03-09/10.log.gz"%string /\
  (forall (fs0 fs' : os.FS) (lg lg' : L Sample.record bytes),
      dir lg = "/tmp/x"%string ->
      switchFile fs0 lg (Sample.at_10_00 5) (mode_of BY_HOUR) (effectiveType ".log" true) true
        = (fs', lg', None) ->
      is_Some (os.files fs' !! destination "/tmp/x" BY_HOUR ".log" true (Sample.at_10_00 5))).
Proof.
  destruct (fileName_destination (M := Sample.record) (C := bytes)
              "/tmp/x" ".log" BY_HOUR true (Sample.at_10_00 5)) as [Hname Hfile];
    [valid_reading |].
  split; [exact Hname |]. split; [reflexivity | exact Hfile].
Defined.

(** ** What the destination files hold *)

Section delivery.
Context {M C : Type} `{!Serializer M} `{!Compressor C}.
Implicit Types (w : World M C) (lg : L M C) (ev : event M) (u : Unbuffered M).

Lemma append_to_append (files : gmap string bytes) (name : string) (a b : bytes) :
  append_to (append_to files name a) name b = append_to files name (a ++ b).
Proof.
  unfold append_to. rewrite lookup_insert_eq. simpl.
  now rewrite insert_insert_eq, app_assoc.
Qed.

Lemma append_to_is_Some (files : gmap string bytes) (name : string) (a : bytes) :
  is_Some (append_to files name a !! name).
Proof. unfold append_to. rewrite lookup_insert_eq. eauto. Qed.

(** Without a rotation the unbuffered logger appends the lines of the
    dequeued records to its one file. *)
Lemma unbuffered_run_same_bucket base mode ext (es : list (event M)) :
  forall files cur q,
    is_Some (files !! cur) ->
    same_bucket es = true ->
    u_files (unbuffered_run base mode ext (mkUnbuffered files cur q) es)
    = append_to files cur (lines (dequeued q es)).
Proof.
  induction es as [|ev es IH]; intros files cur q Hsome Hsame.
  - simpl. symmetry. now apply append_to_nothing.
  - simpl in Hsame. apply andb_prop in Hsame as [Hev Hes].
    unfold unbuffered_run in *. cbn [fold_left].
    destruct ev as [r| | | |now| |b]; cbn [unbuffered_step dequeued u_files u_current u_queue];
      try (apply IH; assumption); [| discriminate Hev].
    destruct q as [|r q]; [apply IH; assumption |].
    rewrite IH by (apply append_to_is_Some || assumption).
    now rewrite append_to_append, lines_cons.
Qed.

(** Every submitted record is either dequeued or still queued. *)
Lemma queue_conserved base mode ext (es : list (event M)) :
  forall u,
    u_queue u ++ submitted es
    = dequeued (u_queue u) es ++ u_queue (unbuffered_run base mode ext u es).
Proof.
  induction es as [|ev es IH]; intros u.
  - simpl. now rewrite app_nil_r.
  - unfold unbuffered_run in *. cbn [fold_left].
    destruct ev as [r| | | |now| |b]; cbn [unbuffered_step dequeued submitted];
      try apply IH.
    + specialize (IH (mkUnbuffered (u_files u) (u_current u) (u_queue u ++ [r]))).
      cbn [u_queue] in IH. rewrite <- IH. now rewrite <- app_assoc.
    + destruct (u_queue u) as [|r q] eqn:Hq.
      * rewrite <- Hq. apply IH.
      * cbn [app]. f_equal.
        exact (IH (mkUnbuffered (append_to (u_files u) (u_current u) (line r))
                                (u_current u) q)).
    + exact (IH (mkUnbuffered (opened_for_append (u_files u) (fileName base mode ext now))
                              (fileName base mode ext now) (u_queue u))).
Qed.

Lemma Close_returned_stopped w : Inv w -> Close_returned w -> running w = false.
Proof.
  intros HI (_ & _ & Hwait). unfold Close_Wait in Hwait.
  rewrite (inv_closeWait w HI) in Hwait. now destruct (running w).
Qed.

(** A session without compression on a healthy device, once [Close] has
    returned: the worker has stopped and the process agrees with the
    unbuffered logger after the same events. *)
Lemma closed_session_agrees fs0 base mode suffix now now' w0 es w :
  start fs0 base mode suffix false now now' = Ok w0 ->
  healthy es = true ->
  run w0 es = Some w ->
  Close_returned w ->
  running w = false /\
  agrees base mode suffix w
    (unbuffered_run base mode suffix
       (unbuffered_start (os.files fs0) base mode suffix now) es).
Proof.
  intros Hstart Hhealthy Hrun Hret.
  destruct (start_Inv _ _ _ _ _ _ _ _ Hstart) as (HI0 & _).
  pose proof (run_Inv es w0 w HI0 Hrun) as HI.
  split; [exact (Close_returned_stopped w HI Hret) |].
  destruct Hret as (Halive & _).
  exact (run_agrees base mode suffix es w0 _ w HI0
           (start_agrees _ _ _ _ _ _ _ Hstart) Hrun Halive Hhealthy).
Qed.

(** C1, as the code has it.  With compression off and a healthy device,
    when [Close] has returned the files hold exactly what the unbuffered
    logger's hold after the same events: the line of every record the
    worker took off the queue before it took the shutdown case, each in the
    file that was current then, in that order.  The records submitted but
    not dequeued by then are still in the queue and in no file.  The worker
    has returned and the destination file is closed. *)
Theorem Close_keeps_what_was_dequeued fs0 base mode suffix now now' w0 es w :
  start fs0 base mode suffix false now now' = Ok w0 ->
  healthy es = true ->
  run w0 es = Some w ->
  Close_returned w ->
  let u := unbuffered_run base mode suffix
             (unbuffered_start (os.files fs0) base mode suffix now) es in
  os.files (fs w) = u_files u /\
  chan.buf (logChan (logger w)) = u_queue u /\
  submitted es = dequeued [] es ++ chan.buf (logChan (logger w)) /\
  running w = false /\
  (forall f, file (logger w) = Some f -> os.opened (fs w) !! f = None).
Proof.
  intros Hstart Hhealthy Hrun Hret u.
  destruct (closed_session_agrees _ _ _ _ _ _ _ _ _ Hstart Hhealthy Hrun Hret)
    as (Hstopped & _ & _ & _ & _ & _ & _ & Hq & Hfiles).
  rewrite Hstopped in Hfiles. destruct Hfiles as [Hfiles Hreleased].
  fold u in Hq, Hfiles.
  split_and!; auto.
  rewrite Hq. unfold u.
  exact (queue_conserved base mode suffix es
           (unbuffered_start (os.files fs0) base mode suffix now)).
Qed.

(** One session inside one bucket: the destination file gains the lines of
    the dequeued records, and these are all the submitted records when the
    queue is empty at the end. *)
Lemma session_contents fs0 base mode suffix now now' w0 es w :
  start fs0 base mode suffix false now now' = Ok w0 ->
  healthy es = true ->
  same_bucket es = true ->
  run w0 es = Some w ->
  Close_returned w ->
  os.contents (fs w) (fileName base mode suffix now)
  = os.contents fs0 (fileName base mode suffix now) ++ lines (dequeued [] es) /\
  (chan.buf (logChan (logger w)) = [] -> dequeued [] es = submitted es).
Proof.
  intros Hstart Hhealthy Hsame Hrun Hret.
  destruct (closed_session_agrees _ _ _ _ _ _ _ _ _ Hstart Hhealthy Hrun Hret)
    as (Hstopped & _ & _ & _ & _ & _ & _ & Hq & Hfiles).
  rewrite Hstopped in Hfiles. destruct Hfiles as [Hfiles _].
  split.
  - unfold os.contents at 1. rewrite <- Hfiles. unfold unbuffered_start.
    rewrite unbuffered_run_same_bucket
      by (assumption || (apply opened_for_append_is_Some; auto)).
    unfold append_to. rewrite lookup_insert_eq. simpl.
    now rewrite opened_for_append_default.
  - intros Hempty.
    pose proof (queue_conserved base mode suffix es
                  (unbuffered_start (os.files fs0) base mode suffix now)) as Hcons.
    rewrite <- Hq, Hempty, app_nil_r in Hcons. symmetry. exact Hcons.
Qed.

End delivery.

Lemma Close_keeps_what_was_dequeued_witness :
  exists w,
    scenario false [CallLog Sample.a1; CallLog Sample.a2; SelectLog; CallClose; SelectClose]
      = Some w /\
    let es := [CallLog Sample.a1; CallLog Sample.a2; SelectLog; CallClose; SelectClose] in
    let u := unbuffered_run "/tmp/x" SWITCH_BY_HOURS ".log"
               (unbuffered_start (os.files Sample.disk) "/tmp/x" SWITCH_BY_HOURS ".log"
                                 (Sample.at_10_00 0)) es in
    os.files (fs w) = u_files u /\
    chan.buf (logChan (logger w)) = u_queue u /\
    submitted es = dequeued [] es ++ chan.buf (logChan (logger w)) /\
    running w = false /\
    (forall f, file (logger w) = Some f -> os.opened (fs w) !! f = None).
Proof.
  set (es := [CallLog Sample.a1; CallLog Sample.a2; SelectLog; CallClose; SelectClose]).
  reached false es w Hw.
  assert ((fun w => (panicked w, chan.closed (closeChan (logger w)), Close_Wait (logger w)))
            <$> scenario false es = Some (None, true, true)) as Hobs
    by (vm_compute; reflexivity).
  rewrite Hw in Hobs. injection Hobs as Hpanic Hclosed Hwait.
  exists w. split; [reflexivity |].
  from_start Hw w0 Hstart.
  exact (Close_keeps_what_was_dequeued _ _ _ _ _ _ w0 es w Hstart eq_refl Hw
           (conj Hpanic (conj Hclosed Hwait))).
Defined.

Section sessions.
Context {M C : Type} `{!Serializer M} `{!Compressor C}.
Implicit Types (w : World M C) (lg : L M C) (ev : event M) (u : Unbuffered M).

(** C7, as the code has it.  Neither [New] nor any step of the process
    ever removes or shortens a file, whatever the compression, the schedule
    and the failures: the destination is opened for append, never
    truncated.  For two consecutive loggers on the same base directory
    whose clock readings fall in the same bucket (same destination path),
    each writing without compression to a healthy device and closed before
    the next starts, the destination file ends up holding what it held
    before, then the lines of the records the first worker dequeued, then
    those of the second, in that order.  A record still queued when its
    worker took the shutdown case is not among them; when both queues were
    empty at the end the file holds all the submitted records, in
    submission order. *)
Theorem append_across_sessions fs0 base mode suffix now1 now1' now2 now2'
    (w1 w1' w2 w2' : World M C) (es1 es2 : list (event M)) :
  start fs0 base mode suffix false now1 now1' = Ok w1 ->
  healthy es1 = true -> same_bucket es1 = true ->
  run w1 es1 = Some w1' -> Close_returned w1' ->
  start (fs w1') base mode suffix false now2 now2' = Ok w2 ->
  fileName base mode suffix now2 = fileName base mode suffix now1 ->
  healthy es2 = true -> same_bucket es2 = true ->
  run w2 es2 = Some w2' -> Close_returned w2' ->
  let name := fileName base mode suffix now1 in
  (forall disk dir0 m ext c t t' (w w' : World M C) es,
      start disk dir0 m ext c t t' = Ok w -> run w es = Some w' -> grows disk (fs w')) /\
  os.contents (fs w2') name
  = os.contents fs0 name ++ lines (dequeued [] es1) ++ lines (dequeued [] es2) /\
  (chan.buf (logChan (logger w1')) = [] -> chan.buf (logChan (logger w2')) = [] ->
   os.contents (fs w2') name
   = os.contents fs0 name ++ lines (submitted es1) ++ lines (submitted es2)).
Proof.
  intros Hstart1 Hh1 Hs1 Hrun1 Hret1 Hstart2 Hname Hh2 Hs2 Hrun2 Hret2 name.
  destruct (session_contents _ _ _ _ _ _ _ _ _ Hstart1 Hh1 Hs1 Hrun1 Hret1) as [Hc1 Hq1].
  destruct (session_contents _ _ _ _ _ _ _ _ _ Hstart2 Hh2 Hs2 Hrun2 Hret2) as [Hc2 Hq2].
  rewrite Hname in Hc2. fold name in Hc1, Hc2.
  assert (os.contents (fs w2') name
          = os.contents fs0 name ++ lines (dequeued [] es1) ++ lines (dequeued [] es2))
    as Hboth by (rewrite Hc2, Hc1; now rewrite <- app_assoc).
  split; [| split; [exact Hboth |]].
  - intros disk dir0 m ext c t t' w w' es Hstart Hrun.
    eapply grows_trans; [eapply start_grows | eapply run_grows]; eassumption.
  - intros He1 He2. now rewrite Hboth, (Hq1 He1), (Hq2 He2).
Qed.

End sessions.

Lemma append_across_sessions_witness :
  exists w1' w2',
    scenario false [CallLog Sample.a1; SelectLog; CallClose; SelectClose] = Some w1' /\
    session (fs w1') false (Sample.at_10_00 30)
            [CallLog Sample.a2; SelectLog; CallClose; SelectClose] = Some w2' /\
    let name := fileName "/tmp/x" SWITCH_BY_HOURS ".log" (Sample.at_10_00 0) in
    (forall disk dir0 m ext c t t' (w w' : World Sample.record bytes) es,
        start disk dir0 m ext c t t' = Ok w -> run w es = Some w' -> grows disk (fs w')) /\
    os.contents (fs w2') name
    = os.contents Sample.disk name
        ++ lines (dequeued [] [CallLog Sample.a1; SelectLog; CallClose; SelectClose])
        ++ lines (dequeued [] [CallLog Sample.a2; SelectLog; CallClose; SelectClose]) /\
    (chan.buf (logChan (logger w1')) = [] -> chan.buf (logChan (logger w2')) = [] ->
     os.contents (fs w2') name
     = os.contents Sample.disk name
         ++ lines (submitted [CallLog Sample.a1; SelectLog; CallClose; SelectClose])
         ++ lines (submitted [CallLog Sample.a2; SelectLog; CallClose; SelectClose])).
Proof.
  set (es1 := [CallLog Sample.a1; SelectLog; CallClose; SelectClose]).
  set (es2 := [CallLog Sample.a2; SelectLog; CallClose; SelectClose]).
  reached false es1 w1' Hw1.
  assert ((fun w => (panicked w, chan.closed (closeChan (logger w)), Close_Wait (logger w)))
            <$> scenario false es1 = Some (None, true, true)) as Hobs1
    by (vm_compute; reflexivity).
  assert ((fun w1 => (fun w => (panicked w, chan.closed (closeChan (logger w)),
                                Close_Wait (logger w)))
                       <$> session (fs w1) false (Sample.at_10_00 30) es2)
            <$> scenario false es1 = Some (Some (None, true, true))) as Hobs2
    by (vm_compute; reflexivity).
  rewrite Hw1 in Hobs1, Hobs2. cbn [fmap option_fmap option_map] in Hobs1, Hobs2.
  injection Hobs1 as Hpanic1 Hclosed1 Hwait1. injection Hobs2 as Hobs2.
  destruct (session (fs w1') false (Sample.at_10_00 30) es2) as [w2'|] eqn:Hw2;
    [| discriminate Hobs2].
  injection Hobs2 as Hpanic2 Hclosed2 Hwait2.
  exists w1', w2'. split; [reflexivity |]. split; [exact Hw2 |].
  from_start Hw1 w1 Hstart1.
  unfold session in Hw2.
  destruct (start (fs w1') _ _ _ _ _ _) as [w2|] eqn:Hstart2; [| discriminate Hw2].
  exact (append_across_sessions _ _ _ _ _ _ _ _ w1 w1' w2 w2' es1 es2
           Hstart1 eq_refl eq_refl Hw1 (conj Hpanic1 (conj Hclosed1 Hwait1))
           Hstart2 eq_refl eq_refl eq_refl Hw2 (conj Hpanic2 (conj Hclosed2 Hwait2))).
Defined.

(** C7 as the specification words it fails.  Two loggers follow one
    another on the same base directory in the same hour, without
    compression, on a healthy device.  The first is given one record and
    closed; its worker's select takes the shutdown case while the record
    is still queued.  The second is given one record, writes it and is
    closed.  Both calls of [Close] have returned, and the file holds the
    second session's record only: it is not the union of both sessions'
    records. *)
Lemma sessions_do_not_add_up :
  exists w1' w2',
    scenario false [CallLog Sample.a1; CallClose; SelectClose] = Some w1' /\
    Close_returned w1' /\
    session (fs w1') false (Sample.at_10_00 30)
            [CallLog Sample.a2; SelectLog; CallClose; SelectClose] = Some w2' /\
    Close_returned w2' /\
    fileName "/tmp/x" SWITCH_BY_HOURS ".log" (Sample.at_10_00 30)
    = fileName "/tmp/x" SWITCH_BY_HOURS ".log" (Sample.at_10_00 0) /\
    submitted [CallLog Sample.a1; CallClose; SelectClose] = [Sample.a1] /\
    submitted [CallLog Sample.a2; SelectLog; CallClose; SelectClose] = [Sample.a2] /\
    os.contents (fs w2') (fileName "/tmp/x" SWITCH_BY_HOURS ".log" (Sample.at_10_00 0))
    = lines [Sample.a2] /\
    lines [Sample.a2] <> lines [Sample.a1; Sample.a2].
Proof.
  set (es1 := [CallLog Sample.a1; CallClose; SelectClose]).
  set (es2 := [CallLog Sample.a2; SelectLog; CallClose; SelectClose]).
  set (name := fileName "/tmp/x" SWITCH_BY_HOURS ".log" (Sample.at_10_00 0)).
  reached false es1 w1' Hw1.
  assert ((fun w => (panicked w, chan.closed (closeChan (logger w)), Close_Wait (logger w)))
            <$> scenario false es1 = Some (None, true, true)) as Hobs1
    by (vm_compute; reflexivity).
  assert ((fun w1 => (fun w => (panicked w, chan.closed (closeChan (logger w)),
                                Close_Wait (logger w), os.contents (fs w) name))
                       <$> session (fs w1) false (Sample.at_10_00 30) es2)
            <$> scenario false es1
          = Some (Some (None, true, true, lines [Sample.a2]))) as Hobs2
    by (vm_compute; reflexivity).
  rewrite Hw1 in Hobs1, Hobs2. cbn [fmap option_fmap option_map] in Hobs1, Hobs2.
  injection Hobs1 as Hpanic1 Hclosed1 Hwait1. injection Hobs2 as Hobs2.
  destruct (session (fs w1') false (Sample.at_10_00 30) es2) as [w2'|] eqn:Hw2;
    [| discriminate Hobs2].
  injection Hobs2 as Hpanic2 Hclosed2 Hwait2 Hcontents.
  exists w1', w2'. unfold Close_returned.
  split_and!; try reflexivity; try assumption.
  vm_compute. discriminate.
Qed.

(** ** Compressed output *)

(** A write that fits the free part of the buffer stays in the buffer: the
    file system is not touched. *)
Lemma bufio_Write_fits (fs0 : os.FS) (b : bufio.Writer) (p : bytes) :
  (length (bufio.buf b) + length p <= bufio.defaultBufSize)%nat ->
  bufio.Write fs0 b p =
    match bufio.err b with
    | Some e => (fs0, b, Some e)
    | None => (fs0, bufio.mk None (bufio.buf b ++ p) (bufio.wr b), None)
    end.
Proof.
  intros Hfits. unfold bufio.Write. rewrite bufio_Write_loop_S.
  unfold bufio.Available.
  destruct (Nat.ltb_spec (bufio.defaultBufSize - length (bufio.buf b)) (length p));
    [lia |].
  cbn [andb]. reflexivity.
Qed.

Section compressed.
Context {C : Type} `{!Compressor C}.

(** [gzip.Writer.Flush] hands the compressor's pending output to the
    [bufio.Writer] under it and stops there: when that output fits the
    buffer, nothing reaches the file. *)
Lemma gzip_Flush_fits (fs0 : os.FS) (z : gzip.Writer C) :
  gzip.err z = None -> gzip.wroteHeader z = true -> bufio.err (gzip.w z) = None ->
  (length (bufio.buf (gzip.w z)) + length (snd (flate_Flush (gzip.compressor z)))
   <= bufio.defaultBufSize)%nat ->
  gzip.Flush fs0 z =
    (fs0,
     gzip.mk (bufio.mk None (bufio.buf (gzip.w z) ++ snd (flate_Flush (gzip.compressor z)))
                       (bufio.wr (gzip.w z)))
             true (fst (flate_Flush (gzip.compressor z))) None,
     None).
Proof.
  intros Herr Hheader Hberr Hfits. unfold gzip.Flush.
  rewrite Herr, Hheader, Herr.
  destruct (flate_Flush (gzip.compressor z)) as [c' emitted]. cbn [fst snd] in *.
  rewrite (bufio_Write_fits fs0 (gzip.w z) emitted Hfits), Hberr. now rewrite Hheader.
Qed.

End compressed.

(** C2, the code at the specification's compressed scenario.  Two records
    are submitted, dequeued and encoded, a flush tick passes, and [Close]
    is called and returns.  The queue is empty and nothing was reported, yet
    the destination file [10.log.gz] is empty and closed: the gzip header,
    the two lines and the flush markers are still in the [bufio.Writer],
    which nothing ever flushes. *)
Example compressed_records_never_reach_the_file :
  exists w,
    scenario true [CallLog Sample.a1; CallLog Sample.a2; SelectLog; SelectLog;
                   SelectFlush; CallClose; SelectClose] = Some w /\
    Close_returned w /\
    chan.buf (logChan (logger w)) = [] /\
    diag w = [] /\
    map_to_list (os.files (fs w)) = [("/tmp/x/2024-03-09/10.log.gz"%string, [])] /\
    map_to_list (os.opened (fs w)) = [] /\
    buffered w = gzip.header ++ lines [Sample.a1; Sample.a2]
                             ++ Sample.sync_marker ++ Sample.sync_marker.
Proof.
  set (es := [CallLog Sample.a1; CallLog Sample.a2; SelectLog; SelectLog;
              SelectFlush; CallClose; SelectClose]).
  reached true es w Hw.
  assert ((fun w => (panicked w, chan.closed (closeChan (logger w)), Close_Wait (logger w),
                     chan.buf (logChan (logger w)), diag w,
                     map_to_list (os.files (fs w)), map_to_list (os.opened (fs w)),
                     buffered w))
            <$> scenario true es
          = Some (None, true, true, [], [],
                  [("/tmp/x/2024-03-09/10.log.gz"%string, [])], [],
                  gzip.header ++ lines [Sample.a1; Sample.a2]
                              ++ Sample.sync_marker ++ Sample.sync_marker)) as Hobs
    by (vm_compute; reflexivity).
  rewrite Hw in Hobs.
  injection Hobs as Hpanic Hclosed Hwait Hq Hdiag Hfiles Hopened Hbuf.
  exists w. unfold Close_returned. split_and!; reflexivity || assumption.
Qed.

(** ** Further properties *)

Section further.
Context {M C : Type} `{!Serializer M} `{!Compressor C}.
Implicit Types (w : World M C) (lg : L M C) (ev : event M) (u : Unbuffered M).

(** A [SwitchMode] that is neither constant makes [New] fail: [switchFile]
    computes empty names, no file can be opened at the empty path, and the
    error is returned to the caller before any worker is started. *)
Theorem New_rejects_unknown_mode (fs0 : os.FS) base m suffix c now :
  ~ valid_mode m ->
  exists fs' e, New (M := M) (C := C) fs0 base m suffix c now = (fs', Err e).
Proof.
  intros Hmode. unfold New.
  destruct (statOrMkdir fs0 base) as [fs1 [e1|]]; [eauto |].
  destruct (switchFile _ _ _ _ _ _) as [[fs2 lg2] [e2|]] eqn:Hsw; [eauto |].
  destruct (switchFile_ok _ _ _ _ _ _ _ _ Hsw) as (Hvalid & _). contradiction.
Qed.

(** A flush tick, without compression on a healthy device, leaves nothing
    in the buffer: the files then hold the line of every record dequeued so
    far, as the unbuffered logger's do. *)
Theorem flush_tick_empties_buffer fs0 base mode suffix now now' w0 es w :
  start fs0 base mode suffix false now now' = Ok w0 ->
  healthy es = true ->
  run w0 (es ++ [SelectFlush]) = Some w ->
  os.files (fs w)
  = u_files (unbuffered_run base mode suffix
               (unbuffered_start (os.files fs0) base mode suffix now) es) /\
  buffered w = [].
Proof.
  intros Hstart Hhealthy Hrun.
  rewrite run_app in Hrun.
  destruct (run w0 es) as [w1|] eqn:Hrun1; [| discriminate].
  simpl in Hrun. destruct (step w1 SelectFlush) as [w2|] eqn:Hstep; [| discriminate].
  injection Hrun as <-.
  destruct (step_alive _ _ _ Hstep) as [Halive Hrunning].
  destruct (start_Inv _ _ _ _ _ _ _ _ Hstart) as (HI0 & _).
  pose proof (run_Inv es w0 w1 HI0 Hrun1) as HI1.
  pose proof (run_agrees base mode suffix es w0 _ w1 HI0
                (start_agrees _ _ _ _ _ _ _ Hstart) Hrun1 Halive Hhealthy)
    as (_ & _ & _ & _ & _ & _ & _ & Hthrough).
  rewrite Hrunning in Hthrough by reflexivity. destruct Hthrough as (b & Hthrough).
  rewrite (step_unguarded w1 SelectFlush Halive Hrunning (inv_timer w1 HI1)) in Hstep.
  injection Hstep as <-.
  destruct (flush_ignoring_agrees w1 _ b Hthrough) as ((Hout & _) & Hfiles).
  split; [symmetry; exact Hfiles |].
  unfold buffered. now rewrite Hout.
Qed.

End further.

Lemma New_rejects_unknown_mode_witness :
  exists fs' e,
    New (M := Sample.record) (C := bytes) Sample.disk "/tmp/x" 0 ".log" false
        (Sample.at_10_00 0) = (fs', Err e).
Proof.
  apply (New_rejects_unknown_mode (M := Sample.record) (C := bytes)).
  unfold valid_mode, SWITCH_BY_DAY, SWITCH_BY_HOURS. lia.
Defined.

Lemma flush_tick_empties_buffer_witness :
  exists w,
    scenario false ([CallLog Sample.a1; SelectLog] ++ [SelectFlush]) = Some w /\
    os.files (fs w)
    = u_files (unbuffered_run "/tmp/x" SWITCH_BY_HOURS ".log"
                 (unbuffered_start (os.files Sample.disk) "/tmp/x" SWITCH_BY_HOURS ".log"
                                   (Sample.at_10_00 0))
                 [CallLog Sample.a1; SelectLog]) /\
    buffered w = [].
Proof.
  reached false ([CallLog Sample.a1; SelectLog] ++ [SelectFlush]) w Hw.
  exists w. split; [reflexivity |].
  from_start Hw w0 Hstart.
  exact (flush_tick_empties_buffer _ _ _ _ _ _ w0 [CallLog Sample.a1; SelectLog] w
           Hstart eq_refl Hw).
Defined.

(** ** One destination per bucket *)

Lemma digit_inj (a b : Z) :
  0 <= a <= 9 -> 0 <= b <= 9 -> time.digit a = time.digit b -> a = b.
Proof.
  intros Ha Hb H. unfold time.digit in H.
  apply (f_equal nat_of_ascii) in H.
  rewrite !nat_ascii_embedding in H by lia. lia.
Qed.

Lemma two_digits_inj (a b : Z) :
  0 <= a <= 99 -> 0 <= b <= 99 ->
  forall s t, two_digits a +:+ s = two_digits b +:+ t -> a = b /\ s = t.
Proof.
  intros Ha Hb s t H. unfold two_digits in H.
  injection H as H1 H2 Hst.
  apply digit_inj in H1; [| Z.div_mod_to_equations; lia ..].
  apply digit_inj in H2; [| Z.div_mod_to_equations; lia ..].
  split; [Z.div_mod_to_equations; lia | exact Hst].
Qed.

Lemma four_digits_inj (a b : Z) :
  0 <= a <= 9999 -> 0 <= b <= 9999 ->
  forall s t, four_digits a +:+ s = four_digits b +:+ t -> a = b /\ s = t.
Proof.
  intros Ha Hb s t H. unfold four_digits in H.
  injection H as H1 H2 H3 H4 Hst.
  apply digit_inj in H1; [| Z.div_mod_to_equations; lia ..].
  apply digit_inj in H2; [| Z.div_mod_to_equations; lia ..].
  apply digit_inj in H3; [| Z.div_mod_to_equations; lia ..].
  apply digit_inj in H4; [| Z.div_mod_to_equations; lia ..].
  split; [Z.div_mod_to_equations; lia | exact Hst].
Qed.

(** Two valid clock readings get the same path from [switchFile] exactly
    when they lie in the same bucket: same year, month and day, and under
    BY_HOUR the same hour.  No two days, and no two hours, share a file. *)
Theorem destination_per_bucket (base suffix : string) (compress : bool)
    (p : RotationPolicy) (t1 t2 : time.Time) :
  time.wf t1 -> time.wf t2 ->
  (fileName base (mode_of p) (effectiveType suffix compress) t1
   = fileName base (mode_of p) (effectiveType suffix compress) t2
   <-> bucket_of p t1 = bucket_of p t2).
Proof.
  intros Hwf1 Hwf2.
  rewrite !fileName_layout by assumption.
  pose proof (days_in_month_le_31 (time.Year t1) (time.Month t1)) as H31.
  pose proof (days_in_month_le_31 (time.Year t2) (time.Month t2)) as H32.
  destruct Hwf1 as (Hy1 & Hm1 & Hd1 & Hh1 & _), Hwf2 as (Hy2 & Hm2 & Hd2 & Hh2 & _).
  split.
  - intros H. unfold destination in H.
    destruct p; apply (inj (String.append base)) in H;
      apply (inj (String.append "/")) in H;
      apply four_digits_inj in H as [Hy H]; try lia;
      apply (inj (String.append "-")) in H;
      apply two_digits_inj in H as [Hm H]; try lia.
    + apply (inj (String.append "/")) in H.
      apply two_digits_inj in H as [Hd H]; try lia.
      unfold bucket_of. congruence.
    + apply (inj (String.append "-")) in H.
      apply two_digits_inj in H as [Hd H]; try lia.
      apply (inj (String.append "/")) in H.
      apply two_digits_inj in H as [Hh H]; try lia.
      unfold bucket_of. congruence.
  - intros H. unfold destination. destruct p; injection H; intros; congruence.
Qed.

Lemma destination_per_bucket_witness :
  fileName "/tmp/x" (mode_of BY_HOUR) (effectiveType ".log" false) (Sample.at_10_00 5)
  = fileName "/tmp/x" (mode_of BY_HOUR) (effectiveType ".log" false)
             (time.mkTime 2024 3 9 11 0 0 0)
  <-> bucket_of BY_HOUR (Sample.at_10_00 5)
      = bucket_of BY_HOUR (time.mkTime 2024 3 9 11 0 0 0).
Proof.
  apply (destination_per_bucket "/tmp/x" ".log" false BY_HOUR); valid_reading.
Defined.

(** ** The queue, and the logger after its worker has returned *)

Section after.
Context {M C : Type} `{!Serializer M} `{!Compressor C}.
Implicit Types (w : World M C) (lg : L M C) (ev : event M).

(** What one step does to the queue. *)
Lemma step_logChan w ev w' :
  Inv w -> step w ev = Some w' ->
  match ev with
  | CallLog r => chan.buf (logChan (logger w')) = chan.buf (logChan (logger w)) ++ [r]
  | SelectLog => exists r, chan.buf (logChan (logger w)) = r :: chan.buf (logChan (logger w'))
  | _ => chan.buf (logChan (logger w')) = chan.buf (logChan (logger w))
  end.
Proof.
  intros HI Hstep.
  destruct (step_alive _ _ _ Hstep) as [Halive Hrun].
  rewrite (step_unguarded w ev Halive Hrun (inv_timer w HI)) in Hstep.
  destruct ev as [r| | | |now| |b]; simpl in Hrun.
  - unfold Log, chan.send in Hstep. rewrite (inv_logChan_open w HI) in Hstep.
    destruct (_ <? _)%nat; [| discriminate]. now injection Hstep as <-.
  - unfold Close_close, chan.close in Hstep.
    destruct (chan.closed (closeChan (logger w))); now injection Hstep as <-.
  - unfold case_logChan, chan.recv in Hstep.
    destruct (chan.buf (logChan (logger w))) as [|r q];
      [destruct (chan.closed (logChan (logger w))); discriminate |].
    destruct (out (logger w)) as [o|]; [| discriminate].
    destruct (Encode _ _ _ _) as [[[fs' o'] enc'] [e|]]; injection Hstep as <-;
      exists r; reflexivity.
  - injection Hstep as <-.
    now destruct (flush_ignoring_plumbing w) as ((_ & -> & _) & _).
  - unfold case_fileTimer in Hstep.
    destruct (switchFile _ _ _ _ _ _) as [[fs' lg'] r] eqn:Hsw.
    pose proof (switchFile_plumbing _ _ _ _ _ _ _ _ _ Hsw) as (_ & Hl & _).
    destruct r; injection Hstep as <-; [| simpl; congruence].
    unfold die; cbn [logger].
    match goal with |- context [worker_deferred ?x] =>
      destruct (worker_deferred_plumbing x) as (_ & _ & _ & _ & _ & _ & _ & -> & _)
    end. simpl. congruence.
  - unfold case_closeChan in Hstep. destruct (chan.recv _); simplify_eq.
    now destruct (worker_deferred_plumbing w) as (_ & _ & _ & _ & _ & _ & _ & -> & _).
  - now injection Hstep as <-.
Qed.

Lemma run_queue es : forall w w',
  Inv w -> run w es = Some w' ->
  chan.buf (logChan (logger w)) ++ submitted es
  = dequeued (chan.buf (logChan (logger w))) es ++ chan.buf (logChan (logger w')).
Proof.
  induction es as [|ev es IH]; intros w w' HI Hrun.
  - injection Hrun as <-. simpl. now rewrite app_nil_r.
  - simpl in Hrun. destruct (step w ev) as [w1|] eqn:Hstep; [| discriminate].
    pose proof (step_logChan w ev w1 HI Hstep) as Hq.
    specialize (IH w1 w' (step_Inv _ _ _ HI Hstep) Hrun).
    destruct ev as [r| | | |now| |b]; cbn [submitted dequeued];
      try (rewrite <- Hq; exact IH).
    + rewrite Hq in IH. rewrite <- IH. now rewrite <- app_assoc.
    + destruct Hq as [r Hq]. rewrite Hq. cbn [app]. f_equal. exact IH.
Qed.

(** The queue is first in, first out, in every mode and whatever fails:
    at any moment the records submitted so far are the ones the worker has
    dequeued, in the order of their submission, followed by the ones still
    queued.  None is duplicated, reordered or lost on the way to the
    worker. *)
Theorem queue_is_fifo fs0 base m suffix c now now' w0 es w :
  start fs0 base m suffix c now now' = Ok w0 ->
  run w0 es = Some w ->
  submitted es = dequeued [] es ++ chan.buf (logChan (logger w)).
Proof.
  intros Hstart Hrun.
  destruct (start_Inv _ _ _ _ _ _ _ _ Hstart) as (HI0 & _ & _ & _ & _ & Hempty & _).
  pose proof (run_queue es w0 w HI0 Hrun) as H. now rewrite Hempty in H.
Qed.

(** A step taken after the worker has returned. *)
Lemma step_stopped w ev w' :
  Inv w -> running w = false -> step w ev = Some w' ->
  running w' = false /\ os.files (fs w') = os.files (fs w) /\ diag w' = diag w /\
  file (logger w') = file (logger w) /\ os.opened (fs w') = os.opened (fs w).
Proof.
  intros HI Hstopped Hstep.
  destruct (step_alive _ _ _ Hstep) as [Halive Hrun].
  rewrite (step_unguarded w ev Halive Hrun (inv_timer w HI)) in Hstep.
  destruct ev as [r| | | |now| |b]; simpl in Hrun;
    try (rewrite Hrun in Hstopped by reflexivity; discriminate).
  - unfold Log in Hstep. destruct (chan.send _ _); simplify_eq; auto.
  - unfold Close_close in Hstep. destruct (chan.close _); simplify_eq; auto.
  - injection Hstep as <-. auto.
Qed.

Lemma run_stopped es : forall w w',
  Inv w -> running w = false -> run w es = Some w' ->
  running w' = false /\ os.files (fs w') = os.files (fs w) /\ diag w' = diag w /\
  file (logger w') = file (logger w) /\ os.opened (fs w') = os.opened (fs w).
Proof.
  induction es as [|ev es IH]; intros w w' HI Hstopped Hrun.
  - injection Hrun as <-. auto.
  - simpl in Hrun. destruct (step w ev) as [w1|] eqn:Hstep; [| discriminate].
    destruct (step_stopped w ev w1 HI Hstopped Hstep) as (Hr & Hf & Hd & Hfile & Ho).
    destruct (IH w1 w' (step_Inv _ _ _ HI Hstep) Hr Hrun) as (? & ? & ? & ? & ?).
    split_and!; congruence.
Qed.

Lemma run_stopped_queue es : forall w w',
  Inv w -> running w = false -> run w es = Some w' ->
  chan.buf (logChan (logger w')) = chan.buf (logChan (logger w)) ++ submitted es.
Proof.
  induction es as [|ev es IH]; intros w w' HI Hstopped Hrun.
  - injection Hrun as <-. simpl. now rewrite app_nil_r.
  - simpl in Hrun. destruct (step w ev) as [w1|] eqn:Hstep; [| discriminate].
    destruct (step_stopped w ev w1 HI Hstopped Hstep) as (Hr & _).
    pose proof (step_logChan w ev w1 HI Hstep) as Hq1.
    specialize (IH w1 w' (step_Inv _ _ _ HI Hstep) Hr Hrun).
    destruct (step_alive _ _ _ Hstep) as [_ Hwk].
    destruct ev as [r| | | |t| |b]; simpl in Hwk;
      try (rewrite Hwk in Hstopped by reflexivity; discriminate);
      cbn [submitted]; rewrite IH, Hq1; [now rewrite <- app_assoc | reflexivity..].
Qed.

(** [Log] on a logger whose [Close] has returned puts the records in the
    queue, as long as there is room. *)
Lemma Log_after_Close rs : forall w,
  Inv w -> Close_returned w ->
  (length (chan.buf (logChan (logger w))) + length rs <= 1000)%nat ->
  exists w',
    run w (map CallLog rs) = Some w' /\ Close_returned w' /\
    fs w' = fs w /\ diag w' = diag w /\
    chan.buf (logChan (logger w')) = chan.buf (logChan (logger w)) ++ rs.
Proof.
  induction rs as [|r rs IH]; intros w HI Hret Hroom.
  - exists w. cbn. now rewrite app_nil_r.
  - cbn [map run length] in *.
    pose proof Hret as (Halive & Hclosed & Hwait).
    assert (step w (CallLog r)
            = Some (with_io w (fs w)
                      (with_logChan (logger w)
                         (chan.mk (chan.buf (logChan (logger w)) ++ [r])
                                  (chan.cap (logChan (logger w)))
                                  (chan.closed (logChan (logger w))))))) as Hstep.
    { rewrite (step_unguarded w (CallLog r) Halive) by
        (first [discriminate | apply (inv_timer w HI)]).
      unfold Log, chan.send.
      rewrite (inv_logChan_open w HI), (inv_logChan_cap w HI).
      destruct (Nat.ltb_spec (length (chan.buf (logChan (logger w)))) 1000); [| lia].
      reflexivity. }
    rewrite Hstep.
    match type of Hstep with _ = Some ?x => set (w1 := x) in * end.
    destruct (IH w1) as (w' & Hrun & Hret' & Hfs & Hdiag & Hq).
    + exact (step_Inv _ _ _ HI Hstep).
    + exact (conj Halive (conj Hclosed Hwait)).
    + cbn. rewrite length_app. cbn. lia.
    + exists w'. split_and!; auto.
      rewrite Hq. cbn. now rewrite <- app_assoc.
Qed.

(** Once [Close] has returned the logger is spent, but [Log] does not
    say so.  No case of the worker's select can be taken any more; [Log]
    still accepts records, up to the capacity of the queue, and they stay
    queued; and whatever the callers do from then on, no file changes and
    nothing is printed. *)
Theorem Log_after_Close_is_only_queued fs0 base m suffix c now now' w0 es w :
  start fs0 base m suffix c now now' = Ok w0 ->
  run w0 es = Some w ->
  Close_returned w ->
  (forall ev, worker_event ev = true -> step w ev = None) /\
  (forall rs,
      (length (chan.buf (logChan (logger w))) + length rs <= 1000)%nat ->
      exists w',
        run w (map CallLog rs) = Some w' /\ Close_returned w' /\
        fs w' = fs w /\ diag w' = diag w /\
        chan.buf (logChan (logger w')) = chan.buf (logChan (logger w)) ++ rs) /\
  (forall es' w',
      run w es' = Some w' ->
      os.files (fs w') = os.files (fs w) /\ diag w' = diag w /\
      chan.buf (logChan (logger w')) = chan.buf (logChan (logger w)) ++ submitted es').
Proof.
  intros Hstart Hrun Hret.
  destruct (start_Inv _ _ _ _ _ _ _ _ Hstart) as (HI0 & _).
  pose proof (run_Inv es w0 w HI0 Hrun) as HI.
  pose proof (Close_returned_stopped w HI Hret) as Hstopped.
  split_and!.
  - intros ev Hev. unfold step. destruct Hret as (-> & _).
    rewrite bool_decide_eq_false_2 by (intros [? ?]; discriminate).
    now rewrite Hev, Hstopped.
  - intros rs Hroom. exact (Log_after_Close rs w HI Hret Hroom).
  - intros es' w' Hrun'.
    destruct (run_stopped es' w w' HI Hstopped Hrun') as (_ & Hf & Hd & _).
    split_and!; auto. exact (run_stopped_queue es' w w' HI Hstopped Hrun').
Qed.

End after.

Lemma queue_is_fifo_witness :
  exists w,
    scenario false [CallLog Sample.a1; CallLog Sample.a2; SelectLog] = Some w /\
    submitted [CallLog Sample.a1; CallLog Sample.a2; SelectLog]
    = dequeued [] [CallLog Sample.a1; CallLog Sample.a2; SelectLog]
      ++ chan.buf (logChan (logger w)).
Proof.
  reached false [CallLog Sample.a1; CallLog Sample.a2; SelectLog] w Hw.
  exists w. split; [reflexivity |].
  from_start Hw w0 Hstart.
  exact (queue_is_fifo _ _ _ _ _ _ _ w0 _ w Hstart Hw).
Defined.

Lemma Log_after_Close_is_only_queued_witness :
  exists w,
    scenario false [CallLog Sample.a1; SelectLog; CallClose; SelectClose] = Some w /\
    (forall ev, worker_event ev = true -> step w ev = None) /\
    (forall rs,
        (length (chan.buf (logChan (logger w))) + length rs <= 1000)%nat ->
        exists w',
          run w (map CallLog rs) = Some w' /\ Close_returned w' /\
          fs w' = fs w /\ diag w' = diag w /\
          chan.buf (logChan (logger w')) = chan.buf (logChan (logger w)) ++ rs) /\
    (forall es' w',
        run w es' = Some w' ->
        os.files (fs w') = os.files (fs w) /\ diag w' = diag w /\
        chan.buf (logChan (logger w')) = chan.buf (logChan (logger w)) ++ submitted es').
Proof.
  set (es := [CallLog Sample.a1; SelectLog; CallClose; SelectClose]).
  reached false es w Hw.
  assert ((fun w => (panicked w, chan.closed (closeChan (logger w)), Close_Wait (logger w)))
            <$> scenario false es = Some (None, true, true)) as Hobs
    by (vm_compute; reflexivity).
  rewrite Hw in Hobs. injection Hobs as Hpanic Hclosed Hwait.
  exists w. split; [reflexivity |].
  from_start Hw w0 Hstart.
  exact (Log_after_Close_is_only_queued _ _ _ _ _ _ _ w0 es w Hstart Hw
           (conj Hpanic (conj Hclosed Hwait))).
Defined.

(** ** A write error stays *)

Section stuck.
Context {M C : Type} `{!Serializer M} `{!Compressor C}.
Implicit Types (w : World M C) (lg : L M C) (ev : event M) (o : flushWriter C).

Lemma flushWriter_Write_stuck (fs0 : os.FS) o (data : bytes) e :
  writer_err o = Some e -> flushWriter_Write fs0 o data = (fs0, o, Some e).
Proof.
  destruct o as [b|z]; cbn [writer_err flushWriter_Write]; intros Herr.
  - unfold bufio.Write.
    assert (bufio.Write_loop 3 fs0 b data = (fs0, b, data)) as ->.
    { cbn [bufio.Write_loop]. rewrite Herr.
      rewrite (bool_decide_eq_false_2 (Some e = None)) by discriminate.
      now rewrite andb_false_r. }
    now rewrite Herr.
  - unfold gzip.Write. now rewrite Herr.
Qed.

Lemma flushWriter_Flush_stuck (fs0 : os.FS) o e :
  writer_err o = Some e -> flushWriter_Flush fs0 o = (fs0, o, Some e).
Proof.
  destruct o as [b|z]; cbn [writer_err flushWriter_Flush]; intros Herr.
  - unfold bufio.Flush. now rewrite Herr.
  - unfold gzip.Flush. now rewrite Herr.
Qed.

Lemma switchFile_stuck (fs0 : os.FS) lg now m ext c f o e :
  file lg = Some f -> out lg = Some o -> writer_err o = Some e ->
  exists fs' lg' e', switchFile fs0 lg now m ext c = (fs', lg', Some e').
Proof.
  intros Hf Ho Herr. unfold switchFile.
  destruct (statOrMkdir _ _) as [fs1 [e1|]]; [eauto |].
  destruct (os.OpenFile _ _) as [fs2 [fl|e2]]; [| eauto].
  unfold closeOld. rewrite Hf, Ho, (flushWriter_Flush_stuck fs2 o e Herr). eauto.
Qed.

(** A write error is never cleared.  While the worker's writer holds one,
    every record the worker dequeues is dropped with a line on the
    diagnostic sink, a flush tick does nothing, and the next rotation
    deadline ends the process in a panic, whatever the state of the device
    by then: [switchFile] flushes the old writer before it installs the new
    one, and that flush returns the old error. *)
Theorem write_error_is_permanent fs0 base m suffix c now now' w0 es w o e :
  start fs0 base m suffix c now now' = Ok w0 ->
  run w0 es = Some w ->
  panicked w = None ->
  running w = true ->
  out (logger w) = Some o ->
  writer_err o = Some e ->
  (forall r q, chan.buf (logChan (logger w)) = r :: q ->
     exists w' e',
       step w SelectLog = Some w' /\
       diag w' = diag w ++ ["log failed: " +:+ Error e'] /\
       fs w' = fs w /\ out (logger w') = Some o /\
       chan.buf (logChan (logger w')) = q) /\
  (exists w',
     step w SelectFlush = Some w' /\
     fs w' = fs w /\ out (logger w') = Some o /\ diag w' = diag w) /\
  (forall t, exists w' e',
     step w (SelectTimer t) = Some w' /\
     panicked w' = Some ("panic: " +:+ Error e') /\ running w' = false).
Proof.
  intros Hstart Hrun Halive Hrunning Ho Herr.
  destruct (start_Inv _ _ _ _ _ _ _ _ Hstart) as (HI0 & _).
  pose proof (run_Inv es w0 w HI0 Hrun) as HI.
  assert (forall ev, worker_event ev = true -> running w = true) as Hwk by auto.
  split_and!.
  - intros r q Hq.
    rewrite (step_unguarded w SelectLog Halive (Hwk _) (inv_timer w HI)).
    unfold case_logChan, chan.recv. rewrite Hq, Ho. unfold Encode.
    destruct (json.err (encoder (logger w))) as [e1|] eqn:Henc.
    + eexists _, e1. split; [reflexivity |]. cbn. auto.
    + destruct (Marshal r) as [text|e1].
      * rewrite (flushWriter_Write_stuck (fs w) o _ e Herr).
        eexists _, e. split; [reflexivity |]. cbn. auto.
      * eexists _, e1. split; [reflexivity |]. cbn. auto.
  - rewrite (step_unguarded w SelectFlush Halive (Hwk _) (inv_timer w HI)).
    unfold case_flushTicker, flush_ignoring.
    rewrite Ho, (flushWriter_Flush_stuck (fs w) o e Herr).
    eexists. split; [reflexivity |]. cbn. auto.
  - intros t.
    rewrite (step_unguarded w (SelectTimer t) Halive (Hwk _) (inv_timer w HI)).
    unfold case_fileTimer.
    destruct (inv_file w HI) as [f Hf].
    destruct (switchFile_stuck (fs w) (logger w) t (switchMode w) (fileType w)
                (compress w) f o e Hf Ho Herr) as (fs' & lg' & e' & ->).
    eexists _, e'. split; [reflexivity |]. unfold die. cbn [panicked running].
    split; [reflexivity |].
    now destruct (worker_deferred_plumbing (with_io w fs' lg')) as (-> & _).
Qed.

End stuck.

Lemma write_error_is_permanent_witness :
  exists w o e,
    scenario false [CallLog Sample.a1; SelectLog; Device true; SelectFlush;
                    Device false; CallLog Sample.a2] = Some w /\
    out (logger w) = Some o /\ writer_err o = Some e /\
    (forall r q, chan.buf (logChan (logger w)) = r :: q ->
       exists w' e',
         step w SelectLog = Some w' /\
         diag w' = diag w ++ ["log failed: " +:+ Error e'] /\
         fs w' = fs w /\ out (logger w') = Some o /\
         chan.buf (logChan (logger w')) = q) /\
    (exists w',
       step w SelectFlush = Some w' /\
       fs w' = fs w /\ out (logger w') = Some o /\ diag w' = diag w) /\
    (forall t, exists w' e',
       step w (SelectTimer t) = Some w' /\
       panicked w' = Some ("panic: " +:+ Error e') /\ running w' = false).
Proof.
  reached false [CallLog Sample.a1; SelectLog; Device true; SelectFlush;
                 Device false; CallLog Sample.a2] w Hw.
  assert ((fun w => (panicked w, running w, out (logger w) ≫= writer_err)) <$>
            scenario false [CallLog Sample.a1; SelectLog; Device true; SelectFlush;
                            Device false; CallLog Sample.a2]
          = Some (None, true, Some EIO)) as Hfacts by (vm_compute; reflexivity).
  rewrite Hw in Hfacts. injection Hfacts as Halive Hrunning Herr.
  destruct (out (logger w)) as [o|] eqn:Ho; [| discriminate Herr].
  exists w, o, EIO. split; [reflexivity |]. split; [exact Ho |].
  split; [exact Herr |].
  from_start Hw w0 Hstart.
  exact (write_error_is_permanent _ _ _ _ _ _ _ w0 _ w o EIO
           Hstart Hw Halive Hrunning Ho Herr).
Defined.

(** ** The descriptors the logger holds *)

Lemma same_table_refl (fs0 : os.FS) : same_table fs0 fs0.
Proof. now split. Qed.

Lemma same_table_trans (fs0 fs1 fs2 : os.FS) :
  same_table fs0 fs1 -> same_table fs1 fs2 -> same_table fs0 fs2.
Proof. intros [H1 H2] [H3 H4]. split; congruence. Qed.

Lemma same_table_fresh (fs0 fs1 : os.FS) :
  same_table fs0 fs1 -> fresh_next fs0 -> fresh_next fs1.
Proof. intros [Ho Hn] Hfresh f Hf. rewrite Ho. apply Hfresh. now rewrite <- Hn. Qed.

Lemma os_Write_table (fs0 : os.FS) (f : os.File) (data : bytes) :
  same_table fs0 (fst (os.Write fs0 f data)).
Proof.
  unfold os.Write. destruct (os.opened fs0 !! f); [| apply same_table_refl].
  destruct (os.failing fs0); now split.
Qed.

Lemma bufio_Flush_table (fs0 : os.FS) (b : bufio.Writer) :
  same_table fs0 (fst (fst (bufio.Flush fs0 b))).
Proof.
  unfold bufio.Flush. destruct (bufio.err b); [apply same_table_refl |].
  destruct (bufio.Buffered b =? 0)%nat; [apply same_table_refl |].
  pose proof (os_Write_table fs0 (bufio.wr b) (bufio.buf b)) as H.
  destruct (os.Write fs0 (bufio.wr b) (bufio.buf b)) as [fs' [e|]]; exact H.
Qed.

Lemma bufio_Write_loop_table (k : nat) :
  forall (fs0 : os.FS) (b : bufio.Writer) (p : bytes),
    same_table fs0 (fst (fst (bufio.Write_loop k fs0 b p))).
Proof.
  induction k as [|k IH]; intros fs0 b p; [apply same_table_refl |].
  rewrite bufio_Write_loop_S.
  destruct (_ && _); [| apply same_table_refl].
  destruct (bufio.Buffered b =? 0)%nat.
  - pose proof (os_Write_table fs0 (bufio.wr b) p) as H.
    destruct (os.Write fs0 (bufio.wr b) p) as [fs' [e|]];
      (eapply same_table_trans; [exact H | apply IH]).
  - cbv zeta.
    match goal with |- context [bufio.Flush fs0 ?b1] =>
      pose proof (bufio_Flush_table fs0 b1) as H;
      destruct (bufio.Flush fs0 b1) as [[fs' b'] e]
    end.
    eapply same_table_trans; [exact H | apply IH].
Qed.

Lemma bufio_Write_table (fs0 : os.FS) (b : bufio.Writer) (p : bytes) :
  same_table fs0 (fst (fst (bufio.Write fs0 b p))).
Proof.
  unfold bufio.Write.
  pose proof (bufio_Write_loop_table 3 fs0 b p) as H.
  destruct (bufio.Write_loop 3 fs0 b p) as [[fs' b'] p'].
  destruct (bufio.err b'); exact H.
Qed.

Section descriptors.
Context {M C : Type} `{!Serializer M} `{!Compressor C}.
Implicit Types (w : World M C) (lg : L M C) (ev : event M).

Lemma gzip_Write_table (fs0 : os.FS) (z : gzip.Writer C) (p : bytes) :
  same_table fs0 (fst (fst (gzip.Write fs0 z p))).
Proof.
  unfold gzip.Write. destruct (gzip.err z); [apply same_table_refl |].
  destruct (gzip.wroteHeader z).
  - destruct (gzip.err z); [apply same_table_refl |].
    destruct (flate_Write (gzip.compressor z) p) as [c' emitted].
    pose proof (bufio_Write_table fs0 (gzip.w z) emitted) as H.
    now destruct (bufio.Write fs0 (gzip.w z) emitted) as [[fs2 w2] e].
  - pose proof (bufio_Write_table fs0 (gzip.w z) gzip.header) as H1.
    destruct (bufio.Write fs0 (gzip.w z) gzip.header) as [[fs1 w1] e1].
    cbn [gzip.err gzip.compressor gzip.w].
    destruct e1; [exact H1 |].
    destruct (flate_Write (gzip.compressor z) p) as [c' emitted].
    pose proof (bufio_Write_table fs1 w1 emitted) as H2.
    destruct (bufio.Write fs1 w1 emitted) as [[fs2 w2] e].
    eapply same_table_trans; [exact H1 | exact H2].
Qed.

Lemma gzip_Flush_table (fs0 : os.FS) (z : gzip.Writer C) :
  same_table fs0 (fst (fst (gzip.Flush fs0 z))).
Proof.
  unfold gzip.Flush. destruct (gzip.err z); [apply same_table_refl |].
  assert (exists fs1 z1,
             (if gzip.wroteHeader z then (fs0, z)
              else let '(fs', z', _) := gzip.Write fs0 z [] in (fs', z')) = (fs1, z1) /\
             same_table fs0 fs1) as (fs1 & z1 & -> & H1).
  { destruct (gzip.wroteHeader z); [eauto using same_table_refl |].
    pose proof (gzip_Write_table fs0 z []) as H.
    destruct (gzip.Write fs0 z []) as [[fs' z'] e]. eauto. }
  destruct (gzip.err z1); [exact H1 |].
  destruct (flate_Flush (gzip.compressor z1)) as [c' emitted].
  pose proof (bufio_Write_table fs1 (gzip.w z1) emitted) as H2.
  destruct (bufio.Write fs1 (gzip.w z1) emitted) as [[fs2 w2] e].
  eapply same_table_trans; [exact H1 | exact H2].
Qed.

Lemma flushWriter_Write_table (fs0 : os.FS) (o : flushWriter C) (p : bytes) :
  same_table fs0 (fst (fst (flushWriter_Write fs0 o p))).
Proof.
  destruct o as [b | z]; cbn [flushWriter_Write].
  - pose proof (bufio_Write_table fs0 b p) as H.
    now destruct (bufio.Write fs0 b p) as [[fs' b'] e].
  - pose proof (gzip_Write_table fs0 z p) as H.
    now destruct (gzip.Write fs0 z p) as [[fs' z'] e].
Qed.

Lemma flushWriter_Flush_table (fs0 : os.FS) (o : flushWriter C) :
  same_table fs0 (fst (fst (flushWriter_Flush fs0 o))).
Proof.
  destruct o as [b | z]; cbn [flushWriter_Flush].
  - pose proof (bufio_Flush_table fs0 b) as H.
    now destruct (bufio.Flush fs0 b) as [[fs' b'] e].
  - pose proof (gzip_Flush_table fs0 z) as H.
    now destruct (gzip.Flush fs0 z) as [[fs' z'] e].
Qed.

Lemma Encode_table (fs0 : os.FS) (o : flushWriter C) enc (r : M) :
  same_table fs0 (fst (fst (fst (Encode fs0 o enc r)))).
Proof.
  unfold Encode. destruct (json.err enc); [apply same_table_refl |].
  destruct (Marshal r) as [text|e]; [| apply same_table_refl].
  pose proof (flushWriter_Write_table fs0 o (text ++ ["010"%char])) as H.
  now destruct (flushWriter_Write _ _ _) as [[fs' o'] e].
Qed.

Lemma flush_ignoring_table w : same_table (fs w) (fs (flush_ignoring w)).
Proof.
  unfold flush_ignoring. destruct (out (logger w)) as [o|]; [| apply same_table_refl].
  pose proof (flushWriter_Flush_table (fs w) o) as H.
  now destruct (flushWriter_Flush (fs w) o) as [[fs' o'] e].
Qed.

Lemma statOrMkdir_table (fs0 fs1 : os.FS) (name : string) (r : option error) :
  statOrMkdir fs0 name = (fs1, r) -> same_table fs0 fs1.
Proof. intros H. destruct (statOrMkdir_frame _ _ _ _ H) as (_ & ? & ? & _). now split. Qed.

Lemma OpenFile_failed (fs1 fs2 : os.FS) (name : string) (e : error) :
  os.OpenFile fs1 name = (fs2, Err e) -> fs2 = fs1.
Proof. unfold os.OpenFile. repeat case_match; congruence. Qed.

(** A [switchFile] that succeeds exchanges the logger's descriptor for a
    new one. *)
Lemma switchFile_exchanges (fs0 fs' : os.FS) lg lg' now m ext c
    (opened0 : gmap nat string) :
  switchFile fs0 lg now m ext c = (fs', lg', None) ->
  fresh_next fs0 ->
  match file lg with
  | Some old => is_Some (out lg) /\
                exists name, os.opened fs0 = <[old := name]> opened0 /\
                             opened0 !! old = None
  | None => os.opened fs0 = opened0
  end ->
  fresh_next fs' /\
  exists f name, file lg' = Some f /\ os.opened fs' = <[f := name]> opened0 /\
                 opened0 !! f = None.
Proof.
  unfold switchFile. intros Hsw Hfresh Hold.
  destruct (statOrMkdir _ _) as [fs1 [e1|]] eqn:Hstat; [discriminate |].
  destruct (statOrMkdir_table _ _ _ _ Hstat) as [Ho1 Hn1].
  destruct (os.OpenFile _ _) as [fs2 [fl|e2]] eqn:Hopen; [| discriminate].
  destruct (OpenFile_ok _ _ _ _ Hopen) as (-> & _ & Ho2 & Hn2 & _).
  rewrite Ho1 in Ho2. rewrite Hn1 in *.
  pose proof (Hfresh (os.next fs0) (le_n _)) as Hnew.
  unfold closeOld in Hsw.
  destruct (file lg) as [old|] eqn:Hfile.
  - destruct Hold as ([o Hout] & name & Hopened & Hnone). rewrite Hout in Hsw.
    pose proof (flushWriter_Flush_table fs2 o) as [Ho3 Hn3].
    destruct (flushWriter_Flush fs2 o) as [[fs3 o3] [e3|]]; [discriminate |].
    cbn [fst] in Ho3, Hn3. unfold os.Close in Hsw. rewrite Ho3, Ho2 in Hsw.
    assert (old <> os.next fs0) as Hne.
    { intros ->. rewrite Hopened, lookup_insert_eq in Hnew. discriminate. }
    rewrite lookup_insert_ne, Hopened, lookup_insert_eq in Hsw by auto.
    destruct (os.failing fs3); [discriminate |].
    injection Hsw as <- <-. cbn [os.opened os.next file].
    assert (opened0 !! os.next fs0 = None) as Hnone'.
    { rewrite Hopened, lookup_insert_ne in Hnew by exact Hne. exact Hnew. }
    assert (delete old (<[os.next fs0 := fileName (dir lg) m ext now]>
                           (<[old := name]> opened0))
            = <[os.next fs0 := fileName (dir lg) m ext now]> opened0) as Heq.
    { rewrite delete_insert_ne by exact Hne. now rewrite delete_insert_id. }
    split.
    + intros g Hg. cbn [os.opened os.next] in Hg |- *.
      rewrite Hn3, Hn2 in Hg. rewrite Heq.
      rewrite lookup_insert_ne by lia.
      specialize (Hfresh g ltac:(lia)). rewrite Hopened in Hfresh.
      destruct (decide (old = g)) as [-> | Hog].
      * rewrite lookup_insert_eq in Hfresh. discriminate.
      * now rewrite lookup_insert_ne in Hfresh.
    + eexists _, _. split; [reflexivity |]. split; [exact Heq | exact Hnone'].
  - injection Hsw as <- <-. cbn [file]. rewrite <- Hold. split.
    + intros g Hg. cbn [os.opened os.next] in Hg |- *.
      rewrite Hn2 in Hg. rewrite Ho2, lookup_insert_ne by lia.
      apply Hfresh. lia.
    + eexists _, _. split; [reflexivity |]. split; [exact Ho2 | exact Hnew].
Qed.

Lemma worker_deferred_table w f name (opened0 : gmap nat string) :
  file (logger w) = Some f ->
  os.opened (fs w) = <[f := name]> opened0 -> opened0 !! f = None ->
  os.opened (fs (worker_deferred w)) = opened0 /\
  os.next (fs (worker_deferred w)) = os.next (fs w).
Proof.
  intros Hf Hopened Hnone. unfold worker_deferred. cbn [fs].
  destruct (flush_ignoring_plumbing w) as (_ & Hfile & _).
  destruct (flush_ignoring_table w) as [Ho Hn].
  unfold close_ignoring. rewrite Hfile, Hf. cbn [fs with_io].
  unfold os.Close. rewrite Ho, Hopened, lookup_insert_eq. cbn [fst os.opened os.next].
  split; [apply delete_insert_id, Hnone | exact Hn].
Qed.

Lemma step_holds_one w ev w' (opened0 : gmap nat string) :
  Inv w -> fresh_next (fs w) -> holds_one opened0 w ->
  step w ev = Some w' -> panicked w' = None ->
  fresh_next (fs w') /\ holds_one opened0 w'.
Proof.
  intros HI Hfresh Hone Hstep Halive'.
  destruct (step_alive _ _ _ Hstep) as [Halive Hrun].
  rewrite (step_unguarded w ev Halive Hrun (inv_timer w HI)) in Hstep.
  unfold holds_one in *.
  destruct ev as [r| | | |now| |b]; simpl in Hrun.
  - unfold Log in Hstep.
    destruct (chan.send _ _); simplify_eq; try discriminate; auto.
  - unfold Close_close in Hstep.
    destruct (chan.close _); simplify_eq; try discriminate; auto.
  - unfold case_logChan in Hstep.
    destruct (chan.recv _) as [r c| |]; try discriminate.
    destruct (out (logger w)) as [o|]; [| discriminate].
    pose proof (Encode_table (fs w) o (encoder (logger w)) r) as Htable.
    destruct (Encode _ _ _ _) as [[[fs' o'] enc'] e]. cbn [fst] in Htable.
    assert (fresh_next fs' /\
            if running w
            then exists f name, file (logger w) = Some f /\
                                os.opened fs' = <[f := name]> opened0 /\
                                opened0 !! f = None
            else os.opened fs' = opened0) as Hgoal.
    { split; [exact (same_table_fresh _ _ Htable Hfresh) |].
      destruct Htable as [-> _]. exact Hone. }
    destruct e; injection Hstep as <-; exact Hgoal.
  - injection Hstep as <-.
    pose proof (flush_ignoring_table w) as Htable.
    destruct (flush_ignoring_plumbing w) as (_ & Hfile & _ & Hr & _).
    split; [exact (same_table_fresh _ _ Htable Hfresh) |].
    destruct Htable as [-> _]. now rewrite Hr, Hfile.
  - unfold case_fileTimer in Hstep.
    destruct (switchFile _ _ _ _ _ _) as [[fs' lg'] [e|]] eqn:Hsw;
      injection Hstep as <-; [discriminate Halive' |].
    cbn [fs logger running]. rewrite Hrun in Hone |- * by reflexivity.
    destruct Hone as (f & name & Hf & Hopened & Hnone).
    apply (switchFile_exchanges _ _ _ _ _ _ _ _ opened0 Hsw Hfresh).
    rewrite Hf. split; [apply (inv_out w HI) | eauto].
  - unfold case_closeChan in Hstep. destruct (chan.recv _); simplify_eq.
    rewrite Hrun in Hone by reflexivity.
    destruct Hone as (f & name & Hf & Hopened & Hnone).
    destruct (worker_deferred_table w f name opened0 Hf Hopened Hnone) as [Ho Hn].
    destruct (worker_deferred_plumbing w) as (-> & _).
    split; [| exact Ho].
    intros g Hg. rewrite Hn in Hg. specialize (Hfresh g Hg).
    rewrite Ho. rewrite Hopened in Hfresh.
    destruct (decide (f = g)) as [-> | Hfg]; [exact Hnone |].
    now rewrite lookup_insert_ne in Hfresh.
  - injection Hstep as <-. auto.
Qed.

Lemma run_holds_one es (opened0 : gmap nat string) : forall w w',
  Inv w -> fresh_next (fs w) -> holds_one opened0 w ->
  run w es = Some w' -> panicked w' = None ->
  fresh_next (fs w') /\ holds_one opened0 w'.
Proof.
  induction es as [|ev es IH]; intros w w' HI Hfresh Hone Hrun Halive'.
  - injection Hrun as <-. auto.
  - simpl in Hrun. destruct (step w ev) as [w1|] eqn:Hstep; [| discriminate].
    destruct (step_holds_one w ev w1 opened0 HI Hfresh Hone Hstep
                (run_alive es w1 w' Hrun Halive')) as [Hfresh1 Hone1].
    exact (IH w1 w' (step_Inv _ _ _ HI Hstep) Hfresh1 Hone1 Hrun Halive').
Qed.

Lemma start_holds_one fs0 base m suffix c now now' w0 :
  fresh_next fs0 ->
  start fs0 base m suffix c now now' = Ok w0 ->
  fresh_next (fs w0) /\ holds_one (os.opened fs0) w0.
Proof.
  unfold start, New. intros Hfresh H.
  destruct (statOrMkdir fs0 base) as [fs1 [e1|]] eqn:Hstat; [discriminate |].
  pose proof (statOrMkdir_table _ _ _ _ Hstat) as Htable.
  destruct (switchFile fs1 _ _ _ _ _) as [[fs2 lg2] [e2|]] eqn:Hsw; [discriminate |].
  injection H as <-. unfold holds_one. cbn [fs logger running closeWait_Add file].
  apply (switchFile_exchanges _ _ _ _ _ _ _ _ (os.opened fs0) Hsw
           (same_table_fresh _ _ Htable Hfresh)).
  cbn [file]. apply Htable.
Qed.

(** The logger leaks no descriptor.  In a process that has not panicked,
    the files open are those that were open before [New], and one more
    while the worker runs: the logger's current file.  Each rotation
    closes the old file, and the worker's return closes the last one, also
    when the device fails. *)
Theorem one_descriptor_while_running fs0 base m suffix c now now' w0 es w :
  fresh_next fs0 ->
  start fs0 base m suffix c now now' = Ok w0 ->
  run w0 es = Some w ->
  panicked w = None ->
  if running w
  then exists f name, file (logger w) = Some f /\
                      os.opened (fs w) = <[f := name]> (os.opened fs0) /\
                      os.opened fs0 !! f = None
  else os.opened (fs w) = os.opened fs0.
Proof.
  intros Hfresh Hstart Hrun Halive.
  destruct (start_Inv _ _ _ _ _ _ _ _ Hstart) as (HI0 & _).
  destruct (start_holds_one _ _ _ _ _ _ _ _ Hfresh Hstart) as [Hfresh0 Hone0].
  exact (proj2 (run_holds_one es _ w0 w HI0 Hfresh0 Hone0 Hrun Halive)).
Qed.

Lemma statOrMkdir_dirs (fs0 fs1 : os.FS) (name : string) (r : option error) :
  statOrMkdir fs0 name = (fs1, r) -> os.dirs fs0 ⊆ os.dirs fs1.
Proof.
  unfold statOrMkdir, os.Mkdir. intros H.
  repeat case_match; simplify_eq; cbn [os.dirs]; set_solver.
Qed.

(** A [New] that fails leaves no file open and creates no file: what it
    has changed, if anything, is the directories it made on the way. *)
Theorem failed_New_opens_nothing (fs0 fs' : os.FS) base m suffix c now (e : error) :
  New (M := M) (C := C) fs0 base m suffix c now = (fs', Err e) ->
  os.opened fs' = os.opened fs0 /\ os.files fs' = os.files fs0 /\
  os.next fs' = os.next fs0 /\ os.dirs fs0 ⊆ os.dirs fs'.
Proof.
  unfold New. intros H.
  destruct (statOrMkdir fs0 base) as [fs1 r1] eqn:Hstat.
  destruct (statOrMkdir_frame _ _ _ _ Hstat) as (Hf1 & Ho1 & Hn1 & _).
  pose proof (statOrMkdir_dirs _ _ _ _ Hstat) as Hd1.
  destruct r1 as [e1|]; [injection H as <- <-; auto |].
  unfold switchFile in H. cbn [dir file] in H.
  destruct (statOrMkdir fs1 _) as [fs2 r2] eqn:Hstat2.
  destruct (statOrMkdir_frame _ _ _ _ Hstat2) as (Hf2 & Ho2 & Hn2 & _).
  pose proof (statOrMkdir_dirs _ _ _ _ Hstat2) as Hd2.
  destruct r2 as [e2|].
  { injection H as <- <-. split_and!; [congruence.. | set_solver]. }
  destruct (os.OpenFile fs2 _) as [fs3 [fl|e3]] eqn:Hopen; [discriminate H |].
  apply OpenFile_failed in Hopen as ->.
  injection H as <- <-. split_and!; [congruence.. | set_solver].
Qed.

End descriptors.

Lemma one_descriptor_while_running_witness :
  exists w,
    scenario true [CallLog Sample.a1; SelectLog; SelectTimer (Sample.at_10_00 1);
                   Device true; CallClose; SelectClose] = Some w /\
    if running w
    then exists f name, file (logger w) = Some f /\
                        os.opened (fs w) = <[f := name]> (os.opened Sample.disk) /\
                        os.opened Sample.disk !! f = None
    else os.opened (fs w) = os.opened Sample.disk.
Proof.
  reached true [CallLog Sample.a1; SelectLog; SelectTimer (Sample.at_10_00 1);
                Device true; CallClose; SelectClose] w Hw.
  exists w. split; [reflexivity |].
  assert (panicked <$> scenario true
            [CallLog Sample.a1; SelectLog; SelectTimer (Sample.at_10_00 1);
             Device true; CallClose; SelectClose] = Some None) as Halive
    by (vm_compute; reflexivity).
  rewrite Hw in Halive. injection Halive as Halive.
  from_start Hw w0 Hstart.
  refine (one_descriptor_while_running _ _ _ _ _ _ _ w0 _ w _ Hstart Hw Halive).
  intros f Hf. vm_compute. reflexivity.
Defined.

Lemma failed_New_opens_nothing_witness :
  exists fs' e,
    New (M := Sample.record) (C := bytes) Sample.disk "/tmp/x" 0 ".log" false
        (Sample.at_10_00 0) = (fs', Err e) /\
    os.opened fs' = os.opened Sample.disk /\ os.files fs' = os.files Sample.disk /\
    os.next fs' = os.next Sample.disk /\ os.dirs Sample.disk ⊆ os.dirs fs'.
Proof.
  destruct (New (M := Sample.record) (C := bytes) Sample.disk "/tmp/x" 0 ".log" false
                (Sample.at_10_00 0)) as [fs' [lg|e]] eqn:HNew;
    [vm_compute in HNew; discriminate HNew |].
  exists fs', e. split; [reflexivity |].
  exact (failed_New_opens_nothing _ _ _ _ _ _ _ _ HNew).
Defined.

(** ** A rotation between two buckets *)

Section rotation.
Context {M C : Type} `{!Serializer M} `{!Compressor C}.
Implicit Types (w : World M C) (es : list (event M)) (u : Unbuffered M).

Lemma dequeued_app es1 es2 : forall q : list M,
  dequeued q (es1 ++ es2)
  = dequeued q es1
    ++ dequeued (drop (length (dequeued q es1)) (q ++ submitted es1)) es2.
Proof.
  induction es1 as [|ev es1 IH]; intros q.
  - cbn. now rewrite app_nil_r.
  - destruct ev as [r| | | |t| |b]; cbn [app dequeued submitted]; try apply IH.
    + rewrite IH. now rewrite <- app_assoc.
    + destruct q as [|r q]; [apply IH |]. cbn [app length drop]. f_equal. apply IH.
Qed.

Lemma unbuffered_run_current base mode ext es : forall u,
  same_bucket es = true ->
  u_current (unbuffered_run base mode ext u es) = u_current u.
Proof.
  induction es as [|ev es IH]; intros u Hsame; [reflexivity |].
  simpl in Hsame. apply andb_prop in Hsame as [Hev Hes].
  unfold unbuffered_run in *. cbn [fold_left]. rewrite IH by exact Hes.
  destruct ev; try reflexivity; [| discriminate Hev].
  cbn [unbuffered_step]. now destruct (u_queue u).
Qed.

Lemma append_to_default (files : gmap string bytes) (name k : string) (d : bytes) :
  default [] (append_to files name d !! k)
  = default [] (files !! k) ++ (if bool_decide (k = name) then d else []).
Proof.
  unfold append_to. case_bool_decide as Hk.
  - subst k. now rewrite lookup_insert_eq.
  - rewrite lookup_insert_ne by congruence. now rewrite app_nil_r.
Qed.

(** A rotation loses nothing.  Without compression and on a healthy
    device, when one rotation deadline fires during a session that ends
    with [Close] returning, the records dequeued before the deadline are in
    the file of the old bucket, the ones dequeued after it are in the file
    of the new bucket, in order and after what the files held before, and
    no other file has changed. *)
Theorem rotation_loses_nothing fs0 base mode suffix now now' w0 es1 t es2 w :
  start fs0 base mode suffix false now now' = Ok w0 ->
  healthy (es1 ++ SelectTimer t :: es2) = true ->
  same_bucket es1 = true ->
  same_bucket es2 = true ->
  run w0 (es1 ++ SelectTimer t :: es2) = Some w ->
  Close_returned w ->
  let before := dequeued [] es1 in
  let after := drop (length before) (dequeued [] (es1 ++ SelectTimer t :: es2)) in
  dequeued [] (es1 ++ SelectTimer t :: es2) = before ++ after /\
  forall k,
    os.contents (fs w) k
    = os.contents fs0 k
      ++ (if bool_decide (k = fileName base mode suffix now) then lines before else [])
      ++ (if bool_decide (k = fileName base mode suffix t) then lines after else []).
Proof.
  intros Hstart Hhealthy Hsame1 Hsame2 Hrun Hret before after.
  destruct (closed_session_agrees _ _ _ _ _ _ _ _ _ Hstart Hhealthy Hrun Hret)
    as (Hstopped & _ & _ & _ & _ & _ & _ & _ & Hfiles).
  rewrite Hstopped in Hfiles. destruct Hfiles as [Hfiles _].
  pose proof (dequeued_app es1 (SelectTimer t :: es2) []) as Hd.
  cbn [app dequeued] in Hd. fold before in Hd.
  assert (after = dequeued (drop (length before) (submitted es1)) es2) as Hafter.
  { unfold after. rewrite Hd. apply drop_app_length. }
  split; [now rewrite Hafter |].
  intros k. unfold os.contents at 1. rewrite <- Hfiles, Hafter. clear Hfiles.
  set (old := fileName base mode suffix now).
  set (u0 := unbuffered_start (os.files fs0) base mode suffix now).
  pose proof (queue_conserved base mode suffix es1 u0) as Hq.
  cbn [u_queue u0 unbuffered_start app] in Hq. fold before in Hq.
  unfold unbuffered_run. rewrite fold_left_app. cbn [fold_left].
  fold (unbuffered_run base mode suffix u0 es1).
  set (u1 := unbuffered_run base mode suffix u0 es1) in *.
  assert (u_files u1 = append_to (opened_for_append (os.files fs0) old) old (lines before))
    as Hfiles1.
  { unfold u1, u0, unbuffered_start. fold old.
    apply unbuffered_run_same_bucket; [| exact Hsame1].
    apply opened_for_append_is_Some; auto. }
  assert (u_queue u1 = drop (length before) (submitted es1)) as Hq1.
  { rewrite Hq. symmetry. apply drop_app_length. }
  cbn [unbuffered_step]. rewrite Hq1, Hfiles1.
  fold (unbuffered_run base mode suffix
          (mkUnbuffered
             (opened_for_append
                (append_to (opened_for_append (os.files fs0) old) old (lines before))
                (fileName base mode suffix t))
             (fileName base mode suffix t)
             (drop (length before) (submitted es1))) es2).
  rewrite unbuffered_run_same_bucket
    by (assumption || (apply opened_for_append_is_Some; auto)).
  rewrite append_to_default, opened_for_append_default, append_to_default,
    opened_for_append_default.
  unfold os.contents. now rewrite <- app_assoc.
Qed.

End rotation.

Lemma rotation_loses_nothing_witness :
  exists w,
    scenario false ([CallLog Sample.a1; SelectLog; CallLog Sample.a2]
                    ++ SelectTimer (time.mkTime 2024 3 9 11 0 0 0)
                    :: [SelectLog; CallClose; SelectClose]) = Some w /\
    let before := dequeued [] [CallLog Sample.a1; SelectLog; CallLog Sample.a2] in
    let after :=
      drop (length before)
           (dequeued [] ([CallLog Sample.a1; SelectLog; CallLog Sample.a2]
                         ++ SelectTimer (time.mkTime 2024 3 9 11 0 0 0)
                         :: [SelectLog; CallClose; SelectClose])) in
    dequeued [] ([CallLog Sample.a1; SelectLog; CallLog Sample.a2]
                 ++ SelectTimer (time.mkTime 2024 3 9 11 0 0 0)
                 :: [SelectLog; CallClose; SelectClose]) = before ++ after /\
    forall k,
      os.contents (fs w) k
      = os.contents Sample.disk k
        ++ (if bool_decide (k = fileName "/tmp/x" SWITCH_BY_HOURS ".log" (Sample.at_10_00 0))
            then lines before else [])
        ++ (if bool_decide (k = fileName "/tmp/x" SWITCH_BY_HOURS ".log"
                                         (time.mkTime 2024 3 9 11 0 0 0))
            then lines after else []).
Proof.
  set (es1 := [CallLog Sample.a1; SelectLog; CallLog Sample.a2]).
  set (es2 := [SelectLog; CallClose; SelectClose]).
  set (t := time.mkTime 2024 3 9 11 0 0 0).
  reached false (es1 ++ SelectTimer t :: es2) w Hw.
  assert ((fun w => (panicked w, chan.closed (closeChan (logger w)), Close_Wait (logger w)))
            <$> scenario false (es1 ++ SelectTimer t :: es2) = Some (None, true, true))
    as Hobs by (vm_compute; reflexivity).
  rewrite Hw in Hobs. injection Hobs as Hpanic Hclosed Hwait.
  exists w. split; [reflexivity |].
  from_start Hw w0 Hstart.
  exact (rotation_loses_nothing _ _ _ _ _ _ w0 es1 t es2 w Hstart eq_refl eq_refl eq_refl
           Hw (conj Hpanic (conj Hclosed Hwait))).
Defined.

(** ** The diagnostic sink *)

Section sink.
Context {M C : Type} `{!Serializer M} `{!Compressor C}.
Implicit Types (w : World M C) (ev : event M) (u : Unbuffered M).

Lemma complaints_cons (r : M) (rs : list M) :
  complaints (r :: rs) = complaints [r] ++ complaints rs.
Proof. unfold complaints. cbn [flat_map]. now rewrite app_nil_r. Qed.

Lemma step_diag base mode ext w u ev w' :
  Inv w -> agrees base mode ext w u ->
  step w ev = Some w' -> panicked w' = None ->
  match ev with
  | SelectLog => forall r q, chan.buf (logChan (logger w)) = r :: q ->
                             diag w' = diag w ++ complaints [r]
  | _ => diag w' = diag w
  end.
Proof.
  intros HI (_ & _ & _ & _ & _ & _ & _ & Hthrough) Hstep Halive'.
  destruct (step_alive _ _ _ Hstep) as [Halive Hrun].
  rewrite (step_unguarded w ev Halive Hrun (inv_timer w HI)) in Hstep.
  destruct ev as [r| | | |now| |b]; simpl in Hrun.
  - unfold Log in Hstep. destruct (chan.send _ _); simplify_eq; reflexivity.
  - unfold Close_close in Hstep. destruct (chan.close _); simplify_eq; reflexivity.
  - intros r q Hq. rewrite Hrun in Hthrough by reflexivity.
    destruct Hthrough as (b & Ho & _ & Henc & Hok & _).
    unfold case_logChan, chan.recv in Hstep. rewrite Hq, Ho in Hstep.
    unfold Encode in Hstep. rewrite Henc in Hstep.
    unfold complaints. cbn [flat_map]. rewrite app_nil_r.
    destruct (Marshal r) as [text|e].
    + cbn [flushWriter_Write] in Hstep.
      destruct (bufio_Write_healthy (fs w) b (u_current u) (text ++ ["010"%char]) Hok)
        as (fs' & b' & d & Hwrite & _).
      rewrite Hwrite in Hstep. injection Hstep as <-. cbn. now rewrite app_nil_r.
    + now injection Hstep as <-.
  - injection Hstep as <-.
    now destruct (flush_ignoring_plumbing w) as (_ & _ & _ & _ & -> & _).
  - unfold case_fileTimer in Hstep.
    destruct (switchFile _ _ _ _ _ _) as [[fs' lg'] [e|]]; injection Hstep as <-;
      [discriminate Halive' | reflexivity].
  - unfold case_closeChan in Hstep. destruct (chan.recv _); simplify_eq.
    now destruct (worker_deferred_plumbing w) as (_ & -> & _).
  - now injection Hstep as <-.
Qed.

Lemma run_diag base mode ext es : forall w u w',
  Inv w -> agrees base mode ext w u ->
  run w es = Some w' -> panicked w' = None -> healthy es = true ->
  diag w' = diag w ++ complaints (dequeued (chan.buf (logChan (logger w))) es).
Proof.
  induction es as [|ev es IH]; intros w u w' HI Hagree Hrun Halive' Hhealthy.
  - injection Hrun as <-. cbn. now rewrite app_nil_r.
  - simpl in Hrun. destruct (step w ev) as [w1|] eqn:Hstep; [| discriminate].
    simpl in Hhealthy. apply andb_prop in Hhealthy as [Hev Hes].
    pose proof (run_alive es w1 w' Hrun Halive') as Halive1.
    assert (ev <> Device true) as Hdev by (intros ->; discriminate Hev).
    pose proof (step_agrees base mode ext w u ev w1 HI Hagree Hstep Halive1 Hdev)
      as Hagree1.
    pose proof (step_diag base mode ext w u ev w1 HI Hagree Hstep Halive1) as Hd.
    pose proof (step_logChan w ev w1 HI Hstep) as Hq.
    rewrite (IH w1 _ w' (step_Inv _ _ _ HI Hstep) Hagree1 Hrun Halive' Hes).
    destruct ev as [r| | | |t| |b]; cbn [dequeued];
      try (rewrite Hd, Hq; reflexivity).
    destruct Hq as [r Hq]. rewrite Hq, (Hd r _ Hq), <- app_assoc.
    now rewrite (complaints_cons r (dequeued _ es)).
Qed.

(** Without compression and on a healthy device, the diagnostic sink holds
    one line for each record the worker has dequeued and could not
    serialize, in the order of their submission, and nothing else: no
    record that can be serialized is ever reported. *)
Theorem diagnostics_are_the_failed_records fs0 base mode suffix now now' w0 es w :
  start fs0 base mode suffix false now now' = Ok w0 ->
  healthy es = true ->
  run w0 es = Some w ->
  panicked w = None ->
  diag w = complaints (dequeued [] es).
Proof.
  intros Hstart Hhealthy Hrun Halive.
  destruct (start_Inv _ _ _ _ _ _ _ _ Hstart) as (HI0 & _ & _ & Hdiag & _ & Hempty & _).
  pose proof (run_diag base mode suffix es w0 _ w HI0
                (start_agrees _ _ _ _ _ _ _ Hstart) Hrun Halive Hhealthy) as H.
  now rewrite Hdiag, Hempty in H.
Qed.

End sink.

Lemma diagnostics_are_the_failed_records_witness :
  exists w,
    scenario false [CallLog Sample.bad; CallLog Sample.a1; SelectLog; SelectLog] = Some w /\
    diag w = complaints (dequeued [] [CallLog Sample.bad; CallLog Sample.a1;
                                      SelectLog; SelectLog]).
Proof.
  reached false [CallLog Sample.bad; CallLog Sample.a1; SelectLog; SelectLog] w Hw.
  assert (panicked <$> scenario false [CallLog Sample.bad; CallLog Sample.a1;
                                       SelectLog; SelectLog] = Some None) as Halive
    by (vm_compute; reflexivity).
  rewrite Hw in Halive. injection Halive as Halive.
  exists w. split; [reflexivity |].
  from_start Hw w0 Hstart.
  exact (diagnostics_are_the_failed_records _ _ _ _ _ _ w0
           [CallLog Sample.bad; CallLog Sample.a1; SelectLog; SelectLog] w
           Hstart eq_refl Hw Halive).
Defined.

(** ** What [New] leaves on the disk *)

Section prepared.
Context {M C : Type} `{!Serializer M} `{!Compressor C}.
Implicit Types (lg : L M C).

Lemma exists_mono (fs0 fs1 : os.FS) (name : string) :
  os.dirs fs0 ⊆ os.dirs fs1 ->
  (forall k, is_Some (os.files fs0 !! k) -> is_Some (os.files fs1 !! k)) ->
  os.exists_ fs0 name = true -> os.exists_ fs1 name = true.
Proof.
  unfold os.exists_. intros Hd Hf H.
  apply orb_true_iff in H as [H | H]; apply bool_decide_eq_true in H;
    apply orb_true_iff; [left | right]; apply bool_decide_eq_true; auto.
Qed.

Lemma statOrMkdir_exists (fs0 fs1 : os.FS) (name : string) :
  statOrMkdir fs0 name = (fs1, None) -> os.exists_ fs1 name = true.
Proof.
  unfold statOrMkdir, os.Stat, os.Mkdir. intros H.
  repeat case_match; simplify_eq; try assumption.
  unfold os.exists_. cbn [os.dirs].
  apply orb_true_iff. left. apply bool_decide_eq_true. set_solver.
Qed.

Lemma OpenFile_dirs (fs0 fs1 : os.FS) (name : string) (r : result os.File) :
  os.OpenFile fs0 name = (fs1, r) -> os.dirs fs1 = os.dirs fs0.
Proof. unfold os.OpenFile. intros H. repeat case_match; simplify_eq; reflexivity. Qed.

(** A [New] that succeeds has made sure that the base directory and the
    directory of the current bucket exist, and has opened the destination
    for append: the file is there, with what it held before if it was
    there already, no other file has changed, and the logger holds the one
    descriptor that was opened. *)
Theorem New_prepares_destination (fs0 fs' : os.FS) base m suffix c now lg :
  New fs0 base m suffix c now = (fs', Ok lg) ->
  let name := fileName base m (effectiveType suffix c) now in
  os.exists_ fs' base = true /\
  os.exists_ fs' (dirName base m now) = true /\
  os.files fs' = opened_for_append (os.files fs0) name /\
  file lg = Some (os.next fs0) /\
  os.opened fs' = <[os.next fs0 := name]> (os.opened fs0).
Proof.
  intros H name. unfold New in H.
  destruct (statOrMkdir fs0 base) as [fs1 [e1|]] eqn:Hstat1; [discriminate |].
  destruct (statOrMkdir_frame _ _ _ _ Hstat1) as (Hf1 & Ho1 & Hn1 & _).
  pose proof (statOrMkdir_exists _ _ _ Hstat1) as Hbase.
  unfold switchFile in H. cbn [dir file] in H. fold name in H.
  destruct (statOrMkdir fs1 _) as [fs2 [e2|]] eqn:Hstat2; [discriminate |].
  destruct (statOrMkdir_frame _ _ _ _ Hstat2) as (Hf2 & Ho2 & Hn2 & _).
  pose proof (statOrMkdir_exists _ _ _ Hstat2) as Hbucket.
  pose proof (statOrMkdir_dirs _ _ _ _ Hstat2) as Hd2.
  destruct (os.OpenFile fs2 name) as [fs3 [fl|e3]] eqn:Hopen; [| discriminate].
  destruct (OpenFile_ok _ _ _ _ Hopen) as (-> & Hf3 & Ho3 & _).
  pose proof (OpenFile_dirs _ _ _ _ Hopen) as Hd3.
  cbn [closeOld file] in H. injection H as <- <-. cbn [file closeWait_Add].
  assert (forall k, is_Some (os.files fs2 !! k) -> is_Some (os.files fs3 !! k)) as Hkeep.
  { intros k Hk. rewrite Hf3. unfold opened_for_append.
    destruct (decide (name = k)) as [-> | Hne];
      [rewrite lookup_insert_eq; eauto | now rewrite lookup_insert_ne]. }
  split_and!.
  - apply (exists_mono fs2); [now rewrite Hd3 | exact Hkeep |].
    apply (exists_mono fs1); [exact Hd2 | now rewrite Hf2 | exact Hbase].
  - apply (exists_mono fs2); [now rewrite Hd3 | exact Hkeep | exact Hbucket].
  - congruence.
  - congruence.
  - congruence.
Qed.

End prepared.

Lemma New_prepares_destination_witness :
  exists fs' lg,
    New (M := Sample.record) (C := bytes) Sample.disk "/tmp/x" SWITCH_BY_DAY ".log" true
        (Sample.at_10_00 0) = (fs', Ok lg) /\
    let name := fileName "/tmp/x" SWITCH_BY_DAY (effectiveType ".log" true)
                         (Sample.at_10_00 0) in
    os.exists_ fs' "/tmp/x" = true /\
    os.exists_ fs' (dirName "/tmp/x" SWITCH_BY_DAY (Sample.at_10_00 0)) = true /\
    os.files fs' = opened_for_append (os.files Sample.disk) name /\
    file lg = Some (os.next Sample.disk) /\
    os.opened fs' = <[os.next Sample.disk := name]> (os.opened Sample.disk).
Proof.
  destruct (New (M := Sample.record) (C := bytes) Sample.disk "/tmp/x" SWITCH_BY_DAY
                ".log" true (Sample.at_10_00 0)) as [fs' [lg|e]] eqn:HNew;
    [| vm_compute in HNew; discriminate HNew].
  exists fs', lg. split; [reflexivity |].
  exact (New_prepares_destination _ _ _ _ _ _ _ _ HNew).
Defined.
